(** * Retrieval evaluation and metrics engine of [retrieval_ensemble.py]

    A shallow embedding of the ground-truth subset builder, the rank
    adjustment, the average-precision and precision/recall computations,
    the metric aggregation and the metrics text file, followed by the
    properties the specification states about them.

    Conventions of the embedding:
    - a NumPy [int64] array is a [list Z]; arithmetic done by NumPy on its
      elements goes through [wrap64];
    - a Python [int] is an unbounded [Z] (or a [nat] when it only counts);
    - a Python [dict] with string keys is a [gmap string _];
    - NumPy arrays are mutable objects: where a function writes into an
      array it received, the arrays live in a [heap] and are passed by
      location;
    - float arithmetic is taken through the class [Arith], so that every
      function is written once and read either over the rationals (exact
      arithmetic, used for the universally quantified statements) or over
      IEEE binary64 (what the interpreter computes);
    - a raised exception is an [Error] carrying the exception class;
    - a Python [str] is a [string]; a file is the text it holds, and a
      function that writes one returns what it has written, [None] when
      it wrote nothing and so created no file.  The text NumPy gives to
      an array of integers is written out; the text of a float and
      [float(s)] are parameters of the functions that use them; the
      values of the metrics file are binary64 floats, rounded as NumPy
      rounds them. *)

From Stdlib Require Import ZArith QArith Qround Floats Lia Lqa Ascii.
From stdpp Require Import gmap strings list sorting pretty.

Local Open Scope Z_scope.
Local Set Warnings "-inexact-float".

(** ** Exceptions *)

Inductive exn : Type :=
| ValueError
| IndexError
| KeyError
| ZeroDivisionError.

Inductive result (A : Type) : Type :=
| Ok (a : A)
| Error (e : exn).
Arguments Ok {A} a.
Arguments Error {A} e.

Definition bind {A B} (r : result A) (k : A → result B) : result B :=
  match r with
  | Ok a => k a
  | Error e => Error e
  end.

Notation "x ←! r ; k" := (bind r (λ x, k))
  (at level 100, r at next level, k at level 200, right associativity).

(** [d[key]] on a dict, and [l[i]] on a list with a non-negative index. *)
Definition getitem {V} (d : gmap string V) (key : string) : result V :=
  match d !! key with
  | Some v => Ok v
  | None => Error KeyError
  end.

Definition list_getitem {A} (l : list A) (i : nat) : result A :=
  match l !! i with
  | Some v => Ok v
  | None => Error IndexError
  end.

(** ** 64-bit integers *)

Definition int64_min : Z := - 2 ^ 63.
Definition int64_max : Z := 2 ^ 63 - 1.

Definition wrap64 (z : Z) : Z := (z + 2 ^ 63) mod 2 ^ 64 - 2 ^ 63.

Definition is_int64 (z : Z) : Prop := int64_min ≤ z ≤ int64_max.

(** ** The store of NumPy arrays *)

Definition loc : Type := positive.
Abbreviation heap := (gmap loc (list Z)).

(** ** [AdjustPositiveRanks] *)

(** The inner [while (j < len(junk_ranks) and positive_index > junk_ranks[j])]:
    [rest] is [junk_ranks[j:]]. *)
Fixpoint skip_junk (rest : list Z) (positive_index : Z) (j : nat) : nat :=
  match rest with
  | [] => j
  | x :: rest' =>
      if bool_decide (positive_index > x)
      then skip_junk rest' positive_index (S j)
      else j
  end.

(** The [for i, positive_index in enumerate(positive_ranks)] loop, [n]
    iterations left.  [adjusted_positive_ranks] is the same object as
    [positive_ranks], so the element read at step [i] and the element
    written at step [i] are both in the array at [p]; [junk_ranks] is the
    array at [jl], read afresh at every step. *)
Fixpoint adjust_loop (n i j : nat) (p jl : loc) (h : heap) : heap :=
  match n with
  | O => h
  | S n' =>
      match h !! p, h !! jl with
      | Some positive_ranks, Some junk_ranks =>
          match positive_ranks !! i with
          | Some positive_index =>
              let j' := skip_junk (drop j junk_ranks) positive_index j in
              let h' :=
                <[p := <[i := wrap64 (positive_index - Z.of_nat j')]>
                         positive_ranks]> h in
              adjust_loop n' (S i) j' p jl h'
          | None => h
          end
      | _, _ => h
      end
  end.

(** Returns the location of the returned array and the store afterwards;
    [None] only for a location that holds no array. *)
Definition AdjustPositiveRanks (h : heap) (p jl : loc) : option (loc * heap) :=
  match h !! p, h !! jl with
  | Some positive_ranks, Some junk_ranks =>
      if bool_decide (length junk_ranks = 0%nat)
      then Some (p, h)
      else Some (p, adjust_loop (length positive_ranks) 0 0 p jl h)
  | _, _ => None
  end.

(** A call on two freshly allocated arrays, as [ComputeMetrics] makes it:
    the contents of the returned array. *)
Definition AdjustPositiveRanks_fresh (positive_ranks junk_ranks : list Z)
  : list Z :=
  let h : heap := <[1%positive := positive_ranks]> {[2%positive := junk_ranks]} in
  match AdjustPositiveRanks h 1%positive 2%positive with
  | Some (r, h') => default [] (h' !! r)
  | None => []
  end.

(** ** Float arithmetic *)

(** The operations the metrics use on floats.  [f_of_Z] is the conversion
    of an integer operand ([i / rank] converts both sides to float64
    before dividing; [1.0] is [f_of_Z 1]). *)
Class Arith (F : Type) : Type := {
  f_of_Z : Z → F;
  f_add : F → F → F;
  f_mul : F → F → F;
  f_div : F → F → F;
}.

(** Exact arithmetic.  [Qdiv] by zero is zero, where float64 gives an
    infinity or a NaN; no statement below is made where a divisor can be
    zero. *)
#[export] Instance Q_arith : Arith Q := {|
  f_of_Z := inject_Z;
  f_add := Qplus;
  f_mul := Qmult;
  f_div := Qdiv;
|}.

(** IEEE binary64, round to nearest even. *)
Definition float_of_Z (z : Z) : float :=
  SF2Prim (binary_normalize 53 1024 z 0 false).

#[export] Instance float_arith : Arith float := {|
  f_of_Z := float_of_Z;
  f_add := PrimFloat.add;
  f_mul := PrimFloat.mul;
  f_div := PrimFloat.div;
|}.

(** ** [ComputeAveragePrecision] *)

Section Metrics.
Context {F : Type} `{Arith F}.

(** [for i, rank in enumerate(positive_ranks)], from index [i] on. *)
Fixpoint ap_loop (i : nat) (positive_ranks : list Z)
    (recall_step average_precision : F) : F :=
  match positive_ranks with
  | [] => average_precision
  | rank :: rest =>
      let left_precision :=
        if bool_decide (rank = 0) then f_of_Z 1
        else f_div (f_of_Z (Z.of_nat i)) (f_of_Z rank) in
      let right_precision :=
        f_div (f_of_Z (Z.of_nat i + 1)) (f_of_Z (wrap64 (rank + 1))) in
      ap_loop (S i) rest recall_step
        (f_add average_precision
           (f_div (f_mul (f_add left_precision right_precision) recall_step)
              (f_of_Z 2)))
  end.

Definition ComputeAveragePrecision (positive_ranks : list Z) : F :=
  let average_precision := f_of_Z 0 in
  let num_expected_positives := length positive_ranks in
  if bool_decide (num_expected_positives = 0%nat) then average_precision
  else
    let recall_step :=
      f_div (f_of_Z 1) (f_of_Z (Z.of_nat num_expected_positives)) in
    ap_loop 0 positive_ranks recall_step average_precision.

(** ** [ComputePRAtRanks] *)

(** [np.sum(a <= k)] *)
Definition count_le (a : list Z) (k : Z) : nat :=
  length (List.filter (λ x, bool_decide (x ≤ k)) a).

(** The builtin [max] on a non-empty sequence ([x] is its first item). *)
Definition py_max (x : Z) (rest : list Z) : Z := foldl Z.max x rest.

(** [for i, desired_pr_rank in enumerate(desired_pr_ranks)], from index
    [i] on; [first :: others] is [positive_ranks_one_indexed]. *)
Fixpoint pr_loop (i : nat) (desired_pr_ranks : list Z)
    (first : Z) (others : list Z) (num_expected_positives : nat)
    (precisions recalls : list F) : list F * list F :=
  match desired_pr_ranks with
  | [] => (precisions, recalls)
  | desired_pr_rank :: rest =>
      let one_indexed := first :: others in
      let recalls :=
        <[i := f_div (f_of_Z (Z.of_nat (count_le one_indexed desired_pr_rank)))
                 (f_of_Z (Z.of_nat num_expected_positives))]> recalls in
      let precision_rank := Z.min (py_max first others) desired_pr_rank in
      let precisions :=
        <[i := f_div (f_of_Z (Z.of_nat (count_le one_indexed precision_rank)))
                 (f_of_Z precision_rank)]> precisions in
      pr_loop (S i) rest first others num_expected_positives
        precisions recalls
  end.

Definition ComputePRAtRanks (positive_ranks desired_pr_ranks : list Z)
  : list F * list F :=
  let num_desired_pr_ranks := length desired_pr_ranks in
  let precisions := replicate num_desired_pr_ranks (f_of_Z 0) in
  let recalls := replicate num_desired_pr_ranks (f_of_Z 0) in
  let num_expected_positives := length positive_ranks in
  match (λ r, wrap64 (r + 1)) <$> positive_ranks with
  | [] => (precisions, recalls)
  | first :: others =>
      pr_loop 0 desired_pr_ranks first others num_expected_positives
        precisions recalls
  end.

(** ** [ComputeMetrics] *)

(** A two-dimensional integer array: its shape and its rows. *)
Record ndarray2 : Type := {
  shape0 : nat;
  shape1 : nat;
  rows : list (list Z);
}.

(** The six outputs.  In the per-query arrays [None] is the
    [float('nan')] written for a query without ground truth. *)
Record metrics : Type := {
  mean_average_precision : F;
  mean_precisions : list F;
  mean_recalls : list F;
  average_precisions : list (option F);
  precisions : list (list (option F));
  recalls : list (list (option F));
}.

(** [np.arange(num_index_images)[np.in1d(row, ids)]] *)
Definition ranks_in (num_index_images : nat) (row ids : list Z) : list Z :=
  Z.of_nat <$>
    List.filter
      (λ r, match row !! r with
            | Some x => bool_decide (x ∈ ids)
            | None => false
            end)
      (seq 0 num_index_images).

Record loop_state : Type := {
  st_mean_average_precision : F;
  st_mean_precisions : list F;
  st_mean_recalls : list F;
  st_average_precisions : list (option F);
  st_precisions : list (list (option F));
  st_recalls : list (list (option F));
  st_num_empty_gt_queries : nat;
}.

(** The body of [for i in range(num_queries)]. *)
Definition metrics_step (sorted_index_ids : ndarray2)
    (ground_truth : list (gmap string (list Z)))
    (desired_pr_ranks : list Z) (i : nat) (st : loop_state)
  : result loop_state :=
  let num_index_images := shape1 sorted_index_ids in
  let num_desired_pr_ranks := length desired_pr_ranks in
  gt ←! list_getitem ground_truth i;
  ok_index_images ←! getitem gt "ok";
  junk_index_images ←! getitem gt "junk";
  if bool_decide (length ok_index_images = 0%nat) then
    Ok {| st_mean_average_precision := st_mean_average_precision st;
          st_mean_precisions := st_mean_precisions st;
          st_mean_recalls := st_mean_recalls st;
          st_average_precisions := <[i := None]> (st_average_precisions st);
          st_precisions :=
            <[i := replicate num_desired_pr_ranks None]> (st_precisions st);
          st_recalls :=
            <[i := replicate num_desired_pr_ranks None]> (st_recalls st);
          st_num_empty_gt_queries := S (st_num_empty_gt_queries st) |}
  else
    row ←! list_getitem (rows sorted_index_ids) i;
    let positive_ranks := ranks_in num_index_images row ok_index_images in
    let junk_ranks := ranks_in num_index_images row junk_index_images in
    let adjusted_positive_ranks :=
      AdjustPositiveRanks_fresh positive_ranks junk_ranks in
    let ap := ComputeAveragePrecision adjusted_positive_ranks in
    let pr := ComputePRAtRanks adjusted_positive_ranks desired_pr_ranks in
    Ok {| st_mean_average_precision :=
            f_add (st_mean_average_precision st) ap;
          st_mean_precisions :=
            zip_with f_add (st_mean_precisions st) (fst pr);
          st_mean_recalls := zip_with f_add (st_mean_recalls st) (snd pr);
          st_average_precisions :=
            <[i := Some ap]> (st_average_precisions st);
          st_precisions := <[i := Some <$> fst pr]> (st_precisions st);
          st_recalls := <[i := Some <$> snd pr]> (st_recalls st);
          st_num_empty_gt_queries := st_num_empty_gt_queries st |}.

Fixpoint metrics_loop (sorted_index_ids : ndarray2)
    (ground_truth : list (gmap string (list Z)))
    (desired_pr_ranks : list Z) (n i : nat) (st : loop_state)
  : result loop_state :=
  match n with
  | O => Ok st
  | S n' =>
      st' ←! metrics_step sorted_index_ids ground_truth desired_pr_ranks i st;
      metrics_loop sorted_index_ids ground_truth desired_pr_ranks n' (S i) st'
  end.

Definition ComputeMetrics (sorted_index_ids : ndarray2)
    (ground_truth : list (gmap string (list Z)))
    (desired_pr_ranks : list Z) : result metrics :=
  let num_queries := shape0 sorted_index_ids in
  let num_index_images := shape1 sorted_index_ids in
  let num_desired_pr_ranks := length desired_pr_ranks in
  let sorted_desired_pr_ranks := merge_sort Z.le desired_pr_ranks in
  match last sorted_desired_pr_ranks with
  | None => Error IndexError
  | Some largest =>
      if bool_decide (largest > Z.of_nat num_index_images)
      then Error ValueError
      else
        st ←! metrics_loop sorted_index_ids ground_truth desired_pr_ranks
                num_queries 0
                {| st_mean_average_precision := f_of_Z 0;
                   st_mean_precisions :=
                     replicate num_desired_pr_ranks (f_of_Z 0);
                   st_mean_recalls :=
                     replicate num_desired_pr_ranks (f_of_Z 0);
                   st_average_precisions := replicate num_queries (Some (f_of_Z 0));
                   st_precisions :=
                     replicate num_queries
                       (replicate num_desired_pr_ranks (Some (f_of_Z 0)));
                   st_recalls :=
                     replicate num_queries
                       (replicate num_desired_pr_ranks (Some (f_of_Z 0)));
                   st_num_empty_gt_queries := 0 |};
        let num_valid_queries :=
          Z.of_nat num_queries - Z.of_nat (st_num_empty_gt_queries st) in
        (* With no valid query [mean_average_precision] is still the
           Python float [0.0] and [num_valid_queries] the Python int [0]:
           [0.0 / 0] raises. *)
        if bool_decide (num_valid_queries = 0) then Error ZeroDivisionError
        else
          let norm := λ x, f_div x (f_of_Z num_valid_queries) in
          Ok {| mean_average_precision :=
                  norm (st_mean_average_precision st);
                mean_precisions := norm <$> st_mean_precisions st;
                mean_recalls := norm <$> st_mean_recalls st;
                average_precisions := st_average_precisions st;
                precisions := st_precisions st;
                recalls := st_recalls st |}
  end.

End Metrics.

Arguments metrics F : clear implicits.
Arguments loop_state F : clear implicits.

(** ** Ground truth *)

Definition _GROUND_TRUTH_KEYS : list string := ["easy"; "hard"; "junk"]%string.

(** The per-query part of [ReadDatasetFile]: the recognised keys that the
    raw record has, each array decremented by one.  (The ['bbx'] entry, an
    array of floats no function below reads, is left out.) *)
Definition read_query_ground_truth (query_ground_truth_raw : gmap string (list Z))
  : gmap string (list Z) :=
  foldl
    (λ query_ground_truth ground_truth_key,
       match query_ground_truth_raw !! ground_truth_key with
       | Some labels =>
           <[ground_truth_key := (λ x, x - 1) <$> labels]> query_ground_truth
       | None => query_ground_truth
       end)
    ∅ _GROUND_TRUTH_KEYS.

(** [np.concatenate] of one-dimensional arrays is [concat]. *)
Definition _ParseGroundTruth (ok_list junk_list : list (list Z))
  : gmap string (list Z) :=
  <["junk"%string := concat junk_list]> (<["ok"%string := concat ok_list]> ∅).

Record subsets : Type := {
  easy_ground_truth : list (gmap string (list Z));
  medium_ground_truth : list (gmap string (list Z));
  hard_ground_truth : list (gmap string (list Z));
}.

(** [for i in range(num_queries)] with [ground_truth[i]] is a traversal of
    [ground_truth] in order; the three lists grow by [append]. *)
Fixpoint parse_loop (ground_truth : list (gmap string (list Z))) (acc : subsets)
  : result subsets :=
  match ground_truth with
  | [] => Ok acc
  | gt :: rest =>
      easy1 ←! getitem gt "easy";
      junk1 ←! getitem gt "junk";
      hard1 ←! getitem gt "hard";
      let e := _ParseGroundTruth [easy1] [junk1; hard1] in
      easy2 ←! getitem gt "easy";
      hard2 ←! getitem gt "hard";
      junk2 ←! getitem gt "junk";
      let m := _ParseGroundTruth [easy2; hard2] [junk2] in
      hard3 ←! getitem gt "hard";
      junk3 ←! getitem gt "junk";
      easy3 ←! getitem gt "easy";
      let h := _ParseGroundTruth [hard3] [junk3; easy3] in
      parse_loop rest
        {| easy_ground_truth := easy_ground_truth acc ++ [e];
           medium_ground_truth := medium_ground_truth acc ++ [m];
           hard_ground_truth := hard_ground_truth acc ++ [h] |}
  end.

Definition ParseEasyMediumHardGroundTruth
    (ground_truth : list (gmap string (list Z))) : result subsets :=
  parse_loop ground_truth
    {| easy_ground_truth := []; medium_ground_truth := [];
       hard_ground_truth := [] |}.

(** ** Python strings *)

Definition newline : ascii := "010"%char.

(** [str.isspace] on the characters below 128. *)
Definition is_space (c : ascii) : bool :=
  let n := N_of_ascii c in
  orb (andb (9 <=? n)%N (n <=? 13)%N) (andb (28 <=? n)%N (n <=? 32)%N).

(** [s.rstrip()] *)
Fixpoint rstrip (s : string) : string :=
  match s with
  | EmptyString => EmptyString
  | String c s' =>
      match rstrip s' with
      | EmptyString => if is_space c then EmptyString else String c EmptyString
      | r => String c r
      end
  end.

(** [s.split(sep)] for a separator of one character. *)
Fixpoint split_on (sep : ascii) (s : string) : list string :=
  match s with
  | EmptyString => [EmptyString]
  | String c s' =>
      if Ascii.eqb c sep then EmptyString :: split_on sep s'
      else
        match split_on sep s' with
        | piece :: pieces => String c piece :: pieces
        | [] => [String c EmptyString]
        end
  end.

(** [s.split()]: the maximal runs of characters that are not whitespace.
    [split_go s] is the run that starts [s] (empty when [s] starts with
    whitespace) and the runs after it. *)
Fixpoint split_go (s : string) : string * list string :=
  match s with
  | EmptyString => (EmptyString, [])
  | String c s' =>
      let '(run, runs) := split_go s' in
      if is_space c then
        (EmptyString, match run with EmptyString => runs | _ => run :: runs end)
      else (String c run, runs)
  end.

Definition split_whitespace (s : string) : list string :=
  let '(run, runs) := split_go s in
  match run with EmptyString => runs | _ => run :: runs end.

(** [s[len(prefix):]] when [s.startswith(prefix)]. *)
Fixpoint strip_prefix (prefix s : string) : option string :=
  match prefix, s with
  | EmptyString, _ => Some s
  | String a prefix', String b s' =>
      if Ascii.eqb a b then strip_prefix prefix' s' else None
  | String _ _, EmptyString => None
  end.

(** The lines a text file yields when iterated: each ends with its
    newline, except possibly the last. *)
Fixpoint file_lines (s : string) : list string :=
  match s with
  | EmptyString => []
  | String c s' =>
      if Ascii.eqb c newline then String c EmptyString :: file_lines s'
      else
        match file_lines s' with
        | l :: ls => String c l :: ls
        | [] => [String c EmptyString]
        end
  end.

(** [int(s)] on a token without whitespace: an optional sign and decimal
    digits. *)
Definition digit_of (c : ascii) : option Z :=
  let n := N_of_ascii c in
  if andb (48 <=? n)%N (n <=? 57)%N then Some (Z.of_N n - 48) else None.

Fixpoint digits_value (s : string) (acc : Z) : option Z :=
  match s with
  | EmptyString => Some acc
  | String c s' =>
      match digit_of c with
      | Some d => digits_value s' (10 * acc + d)
      | None => None
      end
  end.

Definition natural_of_str (s : string) : option Z :=
  match s with
  | EmptyString => None
  | _ => digits_value s 0
  end.

Definition int_of_str (s : string) : result Z :=
  let signed :=
    match s with
    | String "-"%char s' => (λ z, - z) <$> natural_of_str s'
    | String "+"%char s' => natural_of_str s'
    | _ => natural_of_str s
    end in
  match signed with
  | Some z => Ok z
  | None => Error ValueError
  end.

(** ** NumPy's text for arrays *)

Fixpoint spaces (n : nat) : string :=
  match n with
  | O => EmptyString
  | S n' => String " "%char (spaces n')
  end.

(** [s.rjust(width)] and [s.ljust(width)] *)
Definition rjust (width : nat) (s : string) : string :=
  spaces (width - String.length s) +:+ s.

Definition ljust (width : nat) (s : string) : string :=
  s +:+ spaces (width - String.length s).

Definition linewidth : nat := 75.

(** [_extendLine]: the text [s] of the finished lines and the current
    [line], once [word] is added. *)
Definition extend_line (s line word : string) : string * string :=
  let line_width := (linewidth - 1)%nat in
  let needs_wrap :=
    andb (line_width <? String.length line + String.length word)%nat
         (negb (String.length line <=? 1)%nat) in
  if needs_wrap
  then (s +:+ rstrip line +:+ String newline EmptyString, " " +:+ word)
  else (s, line +:+ word).

(** The loop of [_formatArray] over the elements of a one-dimensional
    array: a separator follows every word but the last. *)
Fixpoint format_words (words : list string) (s line : string) : string :=
  match words with
  | [] => s +:+ line
  | [word] => let '(s, line) := extend_line s line word in s +:+ line
  | word :: rest =>
      let '(s, line) := extend_line s line word in
      format_words rest s (line +:+ " ")
  end.

Definition string_tail (s : string) : string :=
  match s with
  | EmptyString => EmptyString
  | String _ s' => s'
  end.

(** [str(a)] for a one-dimensional array whose elements print as [words]. *)
Definition array_text (words : list string) : string :=
  match words with
  | [] => "[]"
  | _ => "[" +:+ string_tail (format_words words EmptyString " ") +:+ "]"
  end.

Definition max_width (words : list string) : nat :=
  foldr (λ w, Nat.max (String.length w)) 0%nat words.

(** [str(np.array(l))] for a list of integers: the elements right
    justified to the widest of them; beyond 1000 elements only the first
    and the last three are printed, around an ellipsis. *)
Definition str_int_array (l : list Z) : string :=
  if (1000 <? length l)%nat then
    let shown := take 3 l ++ drop (length l - 3) l in
    let width := max_width (pretty <$> shown) in
    array_text ((rjust width ∘ pretty <$> take 3 l) ++ ["..."%string]
                ++ (rjust width ∘ pretty <$> drop (length l - 3) l))
  else
    let width := max_width (pretty <$> l) in
    array_text (rjust width ∘ pretty <$> l).


(** ** The metrics file *)

(** The nearest integer to [q], ties to the even one. *)
Definition round_half_even (q : Q) : Z :=
  let f := Qfloor q in
  match (q - inject_Z f ?= 1 # 2)%Q with
  | Lt => f
  | Gt => f + 1
  | Eq => if Z.even f then f else f + 1
  end.

(** [np.rint] on binary64: the nearest integer, ties to the even one.  A
    float whose exponent is not negative is an integer already; a zero
    result has the sign of the argument; infinities and NaN are returned
    as they are. *)
Definition np_rint (x : float) : float :=
  match Prim2SF x with
  | S754_finite s m e =>
      if 0 <=? e then x
      else
        let d := 2 ^ (- e) in
        let a := Z.pos m / d in
        let r := Z.pos m mod d in
        let z :=
          match 2 * r ?= d with
          | Lt => a
          | Gt => a + 1
          | Eq => if Z.even a then a else a + 1
          end in
        if z =? 0 then (if s then PrimFloat.neg_zero else PrimFloat.zero)
        else float_of_Z (if s then - z else z)
  | _ => x
  end.

(** [np.around(x, decimals=2)] on binary64: NumPy multiplies by [100.0],
    rounds to the nearest integer and divides by [100.0]. *)
Definition np_around2 (x : float) : float :=
  (np_rint (x * 100) / 100)%float.

Definition nl : string := String newline EmptyString.

(** The order of [sorted] on strings: by character code, then by length. *)
Definition str_le (a b : string) : Prop := String.leb a b = true.

#[export] Instance str_le_dec : RelDecision str_le.
Proof. intros a b. unfold str_le. apply _. Defined.

Section MetricsFile.
(** The text of a float64 scalar, the text of a float64 array and
    [float(s)] are those of NumPy and of the interpreter; they are taken
    as given. *)
Variable str_float64 : float → string.
Variable str_float_array : list float → string.
Variable float_of_str : string → result float.

(** The text of one call of [f.write] in [SaveMetricsFile]. *)
Definition metrics_block (k : string) (ap : float) (ps rs : list float)
    (pr_ranks : list Z) : string :=
  k +:+ nl +:+
  "  mAP=" +:+ str_float64 (np_around2 (ap * 100)) +:+ nl +:+
  "  mP@k" +:+ str_int_array pr_ranks +:+ " " +:+
    str_float_array (np_around2 <$> ((λ x, x * 100)%float <$> ps)) +:+ nl +:+
  "  mR@k" +:+ str_int_array pr_ranks +:+ " " +:+
    str_float_array (np_around2 <$> ((λ x, x * 100)%float <$> rs)) +:+ nl.

(** The loop of [SaveMetricsFile] over the sorted protocols.  [file] is
    what the call has written to [output_path] so far: [None] as long as
    there was no [f.write], in which case no file is created.  The
    arguments of [format] are evaluated before [f.write] is called, so a
    missing key leaves the file as the earlier turns made it. *)
Fixpoint save_loop (keys : list string)
    (mean_average_precision : gmap string float)
    (mean_precisions mean_recalls : gmap string (list float))
    (pr_ranks : list Z) (file : option string)
  : option string * result () :=
  match keys with
  | [] => (file, Ok ())
  | k :: rest =>
      let text :=
        ap ←! getitem mean_average_precision k;
        ps ←! getitem mean_precisions k;
        rs ←! getitem mean_recalls k;
        Ok (metrics_block k ap ps rs pr_ranks) in
      match text with
      | Ok block =>
          save_loop rest mean_average_precision mean_precisions mean_recalls
            pr_ranks (Some (default EmptyString file +:+ block))
      | Error e => (file, Error e)
      end
  end.

(** Returns what the call has written to [output_path], and how it
    ended. *)
Definition SaveMetricsFile (mean_average_precision : gmap string float)
    (mean_precisions mean_recalls : gmap string (list float))
    (pr_ranks : list Z) : option string * result () :=
  let keys :=
    merge_sort str_le
      (elements (dom mean_average_precision)) in
  save_loop keys mean_average_precision mean_precisions mean_recalls
    pr_ranks None.

Fixpoint find_prefix (prefixes : list string) (line : string) : result string :=
  match prefixes with
  | [] => Error ValueError
  | prefix :: rest =>
      match strip_prefix prefix line with
      | Some line' => Ok line'
      | None => find_prefix rest line
      end
  end.

Definition _ParseSpaceSeparatedStringsInBrackets (line : string)
    (prefixes : list string) (ind : nat) : result (list string) :=
  line ←! find_prefix prefixes line;
  piece ←! list_getitem (split_on "["%char line) ind;
  inner ←! list_getitem (split_on "]"%char piece) 0;
  Ok (split_whitespace inner).

(** [[f(x) for x in entries if x]] *)
Fixpoint convert_entries {A} (f : string → result A) (entries : list string)
  : result (list A) :=
  match entries with
  | [] => Ok []
  | entry :: rest =>
      match entry with
      | EmptyString => convert_entries f rest
      | _ =>
          x ←! f entry;
          xs ←! convert_entries f rest;
          Ok (x :: xs)
      end
  end.

Definition _ParsePrRanks (line : string) : result (list Z) :=
  entries ←! _ParseSpaceSeparatedStringsInBrackets line ["  mP@k["%string] 0;
  convert_entries int_of_str entries.

Definition _ParsePrScores (line : string) (num_pr_ranks : nat)
  : result (list float) :=
  entries ←! _ParseSpaceSeparatedStringsInBrackets line
               ["  mP@k["%string; "  mR@k["%string] 1;
  pr_scores ←! convert_entries float_of_str entries;
  if bool_decide (length pr_scores ≠ num_pr_ranks) then Error ValueError
  else Ok pr_scores.

Record read_state : Type := {
  rd_mean_average_precision : gmap string float;
  rd_pr_ranks : list Z;
  rd_mean_precisions : gmap string (list float);
  rd_mean_recalls : gmap string (list float);
  rd_protocols : gset string;
}.

(** [for i in range(0, len(file_contents_stripped), 4)], on the lines
    from index [i] on. *)
Fixpoint read_loop (lines : list string) (st : read_state) : result read_state :=
  match lines with
  | protocol :: map_line :: mp_line :: mr_line :: rest =>
      if bool_decide (protocol ∈ rd_protocols st) then Error ValueError
      else
        map_text ←! list_getitem (split_on "="%char map_line) 1;
        map_value ←! float_of_str map_text;
        parsed_pr_ranks ←! _ParsePrRanks mp_line;
        pr_ranks ←!
          match rd_pr_ranks st with
          | [] => Ok parsed_pr_ranks
          | _ =>
              if bool_decide (parsed_pr_ranks ≠ rd_pr_ranks st)
              then Error ValueError
              else Ok (rd_pr_ranks st)
          end;
        ps ←! _ParsePrScores mp_line (length pr_ranks);
        rs ←! _ParsePrScores mr_line (length pr_ranks);
        read_loop rest
          {| rd_mean_average_precision :=
               <[protocol := (map_value / 100)%float]>
                 (rd_mean_average_precision st);
             rd_pr_ranks := pr_ranks;
             rd_mean_precisions :=
               <[protocol := (λ x, x / 100)%float <$> ps]>
                 (rd_mean_precisions st);
             rd_mean_recalls :=
               <[protocol := (λ x, x / 100)%float <$> rs]>
                 (rd_mean_recalls st);
             rd_protocols := {[protocol]} ∪ rd_protocols st |}
  | _ => Ok st
  end.

(** Reads the text found at [metrics_path]. *)
Definition ReadMetricsFile (contents : string) : result read_state :=
  let file_contents_stripped := rstrip <$> file_lines contents in
  if bool_decide (length file_contents_stripped `mod` 4 ≠ 0)%nat
  then Error ValueError
  else
    read_loop file_contents_stripped
      {| rd_mean_average_precision := ∅; rd_pr_ranks := [];
         rd_mean_precisions := ∅; rd_mean_recalls := ∅; rd_protocols := ∅ |}.

End MetricsFile.


(** * Notions used in the statements *)

(** The number of junk ranks strictly below [r], and the rank [r] once
    they are removed from the ranking. *)
Definition count_lt (junk_ranks : list Z) (r : Z) : nat :=
  length (List.filter (λ x, bool_decide (x < r)) junk_ranks).

Definition adjusted_rank (junk_ranks : list Z) (r : Z) : Z :=
  r - Z.of_nat (count_lt junk_ranks r).

(** What the loop of [AdjustPositiveRanks] leaves in the part of the array
    it has not visited yet, as a function of the junk pointer [j]. *)
Fixpoint adjust_seq (junk_ranks : list Z) (j : nat) (rest : list Z) : list Z :=
  match rest with
  | [] => []
  | x :: rest' =>
      let j' := skip_junk (drop j junk_ranks) x j in
      wrap64 (x - Z.of_nat j') :: adjust_seq junk_ranks j' rest'
  end.

(** A zero-indexed rank held in an [int64] array whose successor is
    still an [int64]. *)
Definition is_rank (r : Z) : Prop := 0 ≤ r < int64_max.

(** A query has ground truth when its ['ok'] array is not empty. *)
Definition has_ground_truth (g : gmap string (list Z)) : bool :=
  match g !! "ok"%string with
  | Some (_ :: _) => true
  | _ => false
  end.

Definition num_empty (ground_truth : list (gmap string (list Z))) : nat :=
  length (List.filter (λ g, negb (has_ground_truth g)) ground_truth).

(** A [shape0]-by-[shape1] matrix. *)
Definition is_matrix (a : ndarray2) : Prop :=
  length (rows a) = shape0 a ∧ Forall (λ row, length row = shape1 a) (rows a).

(** A per-protocol ground-truth record: both keys are there. *)
Definition is_protocol_entry (g : gmap string (list Z)) : Prop :=
  is_Some (g !! "ok"%string) ∧ is_Some (g !! "junk"%string).

(** A per-query record of the dataset: the three keys are there. *)
Definition has_keys (g : gmap string (list Z)) : Prop :=
  Forall (λ key, is_Some (g !! key)) _GROUND_TRUTH_KEYS.

(** [d] is a protocol record whose arrays are, as sets, [ok] and [junk]. *)
Definition protocol_sets (d : gmap string (list Z)) (ok junk : gset Z) : Prop :=
  ∃ ok_array junk_array,
    d !! "ok"%string = Some ok_array ∧ d !! "junk"%string = Some junk_array ∧
    list_to_set ok_array = ok ∧ list_to_set junk_array = junk.

Section Formulas.
Context {F : Type} `{Arith F}.

(** The sum of a sequence of floats, from [0.0], in order. *)
Definition f_sum (l : list F) : F := foldl f_add (f_of_Z 0) l.

(** The trapezoid of the precision-recall curve at position [i], for the
    rank [r] found there, among [n] positives:
    [((1.0 if r == 0 else i/r) + (i+1)/(r+1)) / 2 * (1/n)]. *)
Definition trapezoid (n i : nat) (r : Z) : F :=
  f_mul
    (f_div
       (f_add
          (if bool_decide (r = 0) then f_of_Z 1
           else f_div (f_of_Z (Z.of_nat i)) (f_of_Z r))
          (f_div (f_of_Z (Z.of_nat i + 1)) (f_of_Z (r + 1))))
       (f_of_Z 2))
    (f_div (f_of_Z 1) (f_of_Z (Z.of_nat n))).

(** Average precision as the specification words it. *)
Definition average_precision_spec (positive_ranks : list Z) : F :=
  match positive_ranks with
  | [] => f_of_Z 0
  | _ => f_sum (imap (trapezoid (length positive_ranks)) positive_ranks)
  end.


(** Recall and precision at rank [k] from the one-indexed positives [p],
    [mx] being the largest of them, with the count of the code. *)
Definition recall_at (p : list Z) (k : Z) : F :=
  f_div (f_of_Z (Z.of_nat (count_le p k))) (f_of_Z (Z.of_nat (length p))).

Definition precision_at (p : list Z) (mx k : Z) : F :=
  let m := Z.min mx k in
  f_div (f_of_Z (Z.of_nat (count_le p m))) (f_of_Z m).

(** The specification's count [|{x in p : x <= k}|], written with the
    filter of lists on the proposition [x <= k]; it does not go through
    [count_le], the count the code computes. *)
Definition positives_upto (p : list Z) (k : Z) : nat :=
  length (filter (λ x, x ≤ k) p).

(** Recall and precision at rank [k] as the specification states them,
    for the one-indexed positives [p] and their largest element [mx]:
    [|{x in p : x <= k}| / len(p)] and [|{x in p : x <= m}| / m] with
    [m = min(mx, k)]. *)
Definition recall_formula (p : list Z) (k : Z) : F :=
  f_div (f_of_Z (Z.of_nat (positives_upto p k)))
    (f_of_Z (Z.of_nat (length p))).

Definition precision_formula (p : list Z) (mx k : Z) : F :=
  let m := Z.min mx k in
  f_div (f_of_Z (Z.of_nat (positives_upto p m))) (f_of_Z m).

(** The sum of a per-query array over the queries that have ground truth:
    [valid_cells] pairs each query with its cell and keeps the cells of the
    queries whose ['ok'] array is not empty. *)
Definition valid_cells (ground_truth : list (gmap string (list Z)))
    (cells : list (option F)) : list F :=
  (λ gc, default (f_of_Z 0) gc.2) <$>
    List.filter (λ gc, has_ground_truth gc.1) (zip ground_truth cells).

Definition sum_valid (ground_truth : list (gmap string (list Z)))
    (cells : list (option F)) : F :=
  f_sum (valid_cells ground_truth cells).

(** Column [c] of a per-query matrix. *)
Definition column (c : nat) (m : list (list (option F))) : list (option F) :=
  (λ row, match row !! c with Some cell => cell | None => None end) <$> m.

(** The adjusted positive ranks of query [i], whose ground truth is [g]. *)
Definition adjusted_ranks_of (sorted_index_ids : ndarray2)
    (g : gmap string (list Z)) (i : nat) : list Z :=
  match g !! "ok"%string, g !! "junk"%string, rows sorted_index_ids !! i with
  | Some ok_index_images, Some junk_index_images, Some row =>
      AdjustPositiveRanks_fresh
        (ranks_in (shape1 sorted_index_ids) row ok_index_images)
        (ranks_in (shape1 sorted_index_ids) row junk_index_images)
  | _, _, _ => []
  end.

(** What holds of the loop state of [ComputeMetrics] once the queries
    before [i] have been handled. *)
Record loop_inv (sorted_index_ids : ndarray2)
    (ground_truth : list (gmap string (list Z))) (desired_pr_ranks : list Z)
    (i : nat) (st : loop_state F) : Prop := {
  inv_aps_len : length (st_average_precisions st) = shape0 sorted_index_ids;
  inv_ps_len : length (st_precisions st) = shape0 sorted_index_ids;
  inv_rs_len : length (st_recalls st) = shape0 sorted_index_ids;
  inv_empty : st_num_empty_gt_queries st = num_empty (take i ground_truth);
  inv_nan : ∀ k g, (k < i)%nat → ground_truth !! k = Some g →
      has_ground_truth g = false →
      st_average_precisions st !! k = Some None ∧
      st_precisions st !! k = Some (replicate (length desired_pr_ranks) None) ∧
      st_recalls st !! k = Some (replicate (length desired_pr_ranks) None);
  inv_val : ∀ k g, (k < i)%nat → ground_truth !! k = Some g →
      has_ground_truth g = true →
      let ranks := adjusted_ranks_of sorted_index_ids g k in
      st_average_precisions st !! k
      = Some (Some (ComputeAveragePrecision ranks)) ∧
      st_precisions st !! k
      = Some (Some <$> (ComputePRAtRanks ranks desired_pr_ranks).1) ∧
      st_recalls st !! k
      = Some (Some <$> (ComputePRAtRanks ranks desired_pr_ranks).2);
  inv_map : st_mean_average_precision st
            = sum_valid (take i ground_truth) (take i (st_average_precisions st));
  inv_mp : st_mean_precisions st
           = (λ c, sum_valid (take i ground_truth)
                     (column c (take i (st_precisions st))))
               <$> seq 0 (length desired_pr_ranks);
  inv_mr : st_mean_recalls st
           = (λ c, sum_valid (take i ground_truth)
                     (column c (take i (st_recalls st))))
               <$> seq 0 (length desired_pr_ranks);
}.
End Formulas.

(** The entries [ParseEasyMediumHardGroundTruth] builds for one query. *)
Definition gt_field (g : gmap string (list Z)) (key : string) : list Z :=
  default [] (g !! key).

Definition easy_entry (g : gmap string (list Z)) : gmap string (list Z) :=
  _ParseGroundTruth [gt_field g "easy"] [gt_field g "junk"; gt_field g "hard"].
Definition medium_entry (g : gmap string (list Z)) : gmap string (list Z) :=
  _ParseGroundTruth [gt_field g "easy"; gt_field g "hard"] [gt_field g "junk"].
Definition hard_entry (g : gmap string (list Z)) : gmap string (list Z) :=
  _ParseGroundTruth [gt_field g "hard"] [gt_field g "junk"; gt_field g "easy"].

(** A batch of three queries over three index images; the second query
    has no ground truth. *)
Definition example_ids : ndarray2 :=
  {| shape0 := 3; shape1 := 3; rows := [[0; 1; 2]; [2; 1; 0]; [1; 2; 0]] |}.

Definition example_ground_truth : list (gmap string (list Z)) :=
  [ <["ok"%string := [1]]> {["junk"%string := [0]]};
    <["ok"%string := []]> {["junk"%string := [0]]};
    <["ok"%string := [0; 2]]> {["junk"%string := []]} ].

(** A single query without ground truth. *)
Definition empty_ids : ndarray2 :=
  {| shape0 := 1; shape1 := 2; rows := [[0; 1]] |}.

Definition empty_ground_truth : list (gmap string (list Z)) :=
  [ <["ok"%string := []]> {["junk"%string := [0]]} ].

(** ** Printers for numbers with two decimals *)

(** The rational number a finite float stands for. *)
Definition float_value (x : float) : option Q :=
  match Prim2SF x with
  | S754_zero _ => Some 0%Q
  | S754_finite s m e =>
      Some (inject_Z (if s then Z.neg m else Z.pos m) * 2 ^ e)%Q
  | _ => None
  end.

(** The integer part and the fraction, without its trailing zeros, of the
    multiple of [1/100] nearest to [q]. *)
Definition decimal_parts (q : Q) : string * string :=
  let h := round_half_even (q * 100) in
  let a := Z.abs h in
  let f := a mod 100 in
  ((if h <? 0 then "-" else "") +:+ pretty (a / 100),
   if f =? 0 then ""
   else if f mod 10 =? 0 then pretty (f / 10)
   else (if f <? 10 then "0" else "") +:+ pretty f).

Definition float_parts (x : float) : string * string :=
  match float_value x with
  | Some q => decimal_parts q
  | None => ("nan"%string, EmptyString)
  end.

(** The shortest text that reads back as the float, for the nearest float
    to a number with two decimals: ["50.0"], ["50.5"], ["50.25"]. *)
Definition positional_float64 (x : float) : string :=
  let '(i, f) := float_parts x in
  i +:+ "." +:+ (match f with EmptyString => "0" | _ => f end).

(** NumPy's positional layout of an array of such floats:
    ["[90.  70.5]"]. *)
Definition positional_float_array (l : list float) : string :=
  let parts := float_parts <$> l in
  let wi := max_width (fst <$> parts) in
  let wf := max_width (snd <$> parts) in
  array_text ((λ p, rjust wi p.1 +:+ "." +:+ ljust wf p.2) <$> parts).

(** [float(s)] on an optional sign, digits, a point and digits, of at most
    fifteen digits in all: the integer the digits spell, divided by the
    power of ten, is then rounded once, as [float] rounds. *)
Definition decimal_float (s : string) : result float :=
  let '(neg, body) :=
    match s with
    | String "-"%char s' => (true, s')
    | String "+"%char s' => (false, s')
    | _ => (false, s)
    end in
  let value :=
    match split_on "."%char body with
    | [i] => float_of_Z <$> natural_of_str i
    | [i; f] =>
        match i, f with
        | EmptyString, EmptyString => None
        | _, _ =>
            v ← digits_value (i +:+ f) 0;
            Some (float_of_Z v / float_of_Z (10 ^ Z.of_nat (String.length f)))%float
        end
    | _ => None
    end in
  match value with
  | Some v => Ok (if neg then - v else v)%float
  | None => Error ValueError
  end.

(** The scenario of the specification: two protocols, the ranks [[1, 5]]. *)
Definition scenario_ap : gmap string float :=
  <["easy"%string := 0.8%float]> {["hard"%string := 0.5%float]}.
Definition scenario_ps : gmap string (list float) :=
  <["easy"%string := [0.9; 0.7]%float]> {["hard"%string := [0.4; 0.3]%float]}.

(** One protocol, the thirty ranks [[1, ..., 30]] and thirty values. *)
Definition long_ranks : list Z := Z.of_nat <$> seq 1 30.
Definition long_ap : gmap string float := {["easy"%string := 0.5%float]}.
Definition long_ps : gmap string (list float) :=
  {["easy"%string := replicate 30 0.5%float]}.


(** Whether a text holds a newline. *)
Fixpoint has_newline (s : string) : bool :=
  match s with
  | EmptyString => false
  | String c s' => orb (Ascii.eqb c newline) (has_newline s')
  end.

(** The text before the first newline of [s] and the text after it. *)
Fixpoint cut_line (s : string) : option (string * string) :=
  match s with
  | EmptyString => None
  | String c s' =>
      if Ascii.eqb c newline then Some (EmptyString, s')
      else
        match cut_line s' with
        | Some (a, rest) => Some (String c a, rest)
        | None => None
        end
  end.



(** A protocol record whose positives and junk images do not overlap. *)
Definition disjoint_entry (g : gmap string (list Z)) : Prop :=
  ∀ ok junk, g !! "ok"%string = Some ok → g !! "junk"%string = Some junk →
             ∀ x, x ∈ ok → x ∉ junk.

(** A raw record in which no image is in two of the three lists. *)
Definition pairwise_disjoint (g : gmap string (list Z)) : Prop :=
  ∀ x, (x ∈ gt_field g "easy" → x ∉ gt_field g "hard") ∧
       (x ∈ gt_field g "easy" → x ∉ gt_field g "junk") ∧
       (x ∈ gt_field g "hard" → x ∉ gt_field g "junk").

(** The lists of the three protocols, in the order they are returned. *)
Definition protocols_of (s : subsets) : list (list (gmap string (list Z))) :=
  [easy_ground_truth s; medium_ground_truth s; hard_ground_truth s].

(** The outcome of [ComputeMetrics] on a protocol whose positives for the
    query [g] are [positives g]: metrics when some query has a positive,
    [ZeroDivisionError] when none has, and no other exception. *)
Definition fails_only_without_positives {F : Type} (r : result (metrics F))
    (positives : gmap string (list Z) → list Z)
    (ground_truth : list (gmap string (list Z))) : Prop :=
  match r with
  | Ok _ => Exists (λ g, positives g ≠ []) ground_truth
  | Error e =>
      e = ZeroDivisionError ∧ Forall (λ g, positives g = []) ground_truth
  end.

(** The blocks of four lines that [ReadMetricsFile] goes through: the
    protocol, the line of the mAP, the line of the mean precisions and the
    line of the mean recalls. *)
Fixpoint file_blocks (lines : list string)
  : list (string * string * string * string) :=
  match lines with
  | protocol :: map_line :: mp_line :: mr_line :: rest =>
      (protocol, map_line, mp_line, mr_line) :: file_blocks rest
  | _ => []
  end.

Definition block_protocol (b : string * string * string * string) : string :=
  b.1.1.1.

(** The lines of the file at [metrics_path], stripped. *)
Definition stripped_lines (contents : string) : list string :=
  rstrip <$> file_lines contents.

(** What [ReadMetricsFile] keeps of one block in its result [st]: the
    values parsed from the three lines, under the block's protocol. *)
Definition block_read (float_of_str : string → result float) (st : read_state)
    (b : string * string * string * string) : Prop :=
  let '(protocol, map_line, mp_line, mr_line) := b in
  ∃ (map_text : string) (map_value : float) (ranks : list Z)
    (ps rs : list float),
    list_getitem (split_on "="%char map_line) 1 = Ok map_text ∧
    float_of_str map_text = Ok map_value ∧
    _ParsePrRanks mp_line = Ok ranks ∧
    _ParsePrScores float_of_str mp_line (length ranks) = Ok ps ∧
    _ParsePrScores float_of_str mr_line (length ranks) = Ok rs ∧
    (ranks = rd_pr_ranks st ∨ ranks = []) ∧
    rd_mean_average_precision st !! protocol = Some (map_value / 100)%float ∧
    rd_mean_precisions st !! protocol = Some ((λ x, x / 100)%float <$> ps) ∧
    rd_mean_recalls st !! protocol = Some ((λ x, x / 100)%float <$> rs).

(** A metrics file with one protocol and the ranks [[1, 5]]. *)
Definition example_metrics_text : string :=
  "easy" +:+ nl +:+ "  mAP=80.0" +:+ nl +:+
  "  mP@k[1 5] [90. 70.]" +:+ nl +:+ "  mR@k[1 5] [40. 60.5]" +:+ nl.

(** [c in s] for a character [c]. *)
Fixpoint has_char (c : ascii) (s : string) : bool :=
  match s with
  | EmptyString => false
  | String c' s' => orb (Ascii.eqb c' c) (has_char c s')
  end.

(** [all(p(c) for c in s)] *)
Fixpoint string_forall (p : ascii → bool) (s : string) : bool :=
  match s with
  | EmptyString => true
  | String c s' => andb (p c) (string_forall p s')
  end.

Definition is_digit (c : ascii) : bool :=
  match digit_of c with Some _ => true | None => false end.

(** [' '.join(words)] *)
Fixpoint join_words (words : list string) : string :=
  match words with
  | [] => EmptyString
  | [word] => word
  | word :: rest => word +:+ " " +:+ join_words rest
  end.

(** The text of the array [l] fits on one line of NumPy's output. *)
Definition fits_one_line (l : list Z) : Prop :=
  (length l * (max_width (pretty <$> l) + 1) ≤ linewidth - 1)%nat.

(** ** What reading back asks of the printed numbers *)







(** The text written for the protocols [keys], in this order, each of
    them with its entries; [None] when there is none, as no file is
    created then. *)
Definition written_text (str_float64 : float → string)
    (str_float_array : list float → string)
    (mean_average_precision : gmap string float)
    (mean_precisions mean_recalls : gmap string (list float))
    (pr_ranks : list Z) (keys : list string) : option string :=
  match keys with
  | [] => None
  | _ =>
      Some (foldr
              (λ k text,
                 metrics_block str_float64 str_float_array k
                   (default 0%float (mean_average_precision !! k))
                   (default [] (mean_precisions !! k))
                   (default [] (mean_recalls !! k)) pr_ranks +:+ text)
              EmptyString keys)
  end.

(** * Properties *)

(** ** Rank adjustment *)

Lemma wrap64_id z : is_int64 z → wrap64 z = z.
Proof.
  unfold is_int64, int64_min, int64_max, wrap64. intros Hz.
  rewrite Z.mod_small; lia.
Qed.

Lemma wrap64_range z : is_int64 (wrap64 z).
Proof.
  unfold is_int64, int64_min, int64_max, wrap64.
  pose proof (Z.mod_pos_bound (z + 2 ^ 63) (2 ^ 64)). lia.
Qed.

Lemma count_lt_cons x l r :
  count_lt (x :: l) r = if bool_decide (x < r) then S (count_lt l r) else count_lt l r.
Proof. unfold count_lt. simpl. by destruct (bool_decide (x < r)). Qed.

Lemma count_lt_app l1 l2 r : count_lt (l1 ++ l2) r = (count_lt l1 r + count_lt l2 r)%nat.
Proof. unfold count_lt. by rewrite List.filter_app, length_app. Qed.

Lemma count_lt_all l r : Forall (λ x, x < r) l → count_lt l r = length l.
Proof.
  induction 1 as [|x l Hx _ IH]; [done|].
  rewrite count_lt_cons, bool_decide_true by done. simpl. by rewrite IH.
Qed.

Lemma count_lt_none l r : Forall (λ x, r ≤ x) l → count_lt l r = 0%nat.
Proof.
  induction 1 as [|x l Hx _ IH]; [done|].
  rewrite count_lt_cons, bool_decide_false by lia. done.
Qed.

Lemma skip_junk_sorted rest x j :
  StronglySorted Z.le rest → skip_junk rest x j = (j + count_lt rest x)%nat.
Proof.
  intros Hs. revert j. induction Hs as [|y rest Hs IH Hall]; intros j; simpl.
  - unfold count_lt. simpl. lia.
  - rewrite count_lt_cons. case_bool_decide as Hgt.
    + rewrite bool_decide_true by lia. rewrite IH. lia.
    + rewrite bool_decide_false by lia.
      rewrite count_lt_none; [lia|].
      eapply Forall_impl; [exact Hall|]. simpl. intros; lia.
Qed.

Lemma take_count_lt junk x :
  StronglySorted Z.le junk → Forall (λ y, y < x) (take (count_lt junk x) junk).
Proof.
  induction 1 as [|y l Hs IH Hall].
  - constructor.
  - rewrite count_lt_cons. case_bool_decide as Hlt.
    + simpl. constructor; done.
    + rewrite count_lt_none; [constructor|].
      eapply Forall_impl; [exact Hall|]. simpl. intros; lia.
Qed.

Lemma StronglySorted_drop {A} (R : relation A) (l : list A) n :
  StronglySorted R l → StronglySorted R (drop n l).
Proof.
  intros Hs. revert n. induction Hs as [|y l Hs IH Hall]; intros [|n]; simpl; try constructor; auto.
Qed.

Lemma skip_junk_count junk x j :
  StronglySorted Z.le junk → Forall (λ y, y < x) (take j junk) → (j ≤ length junk)%nat →
  skip_junk (drop j junk) x j = count_lt junk x.
Proof.
  intros Hs Hall Hj.
  rewrite skip_junk_sorted by by apply StronglySorted_drop.
  rewrite <- (take_drop j junk) at 2. rewrite count_lt_app.
  rewrite (count_lt_all (take j junk)) by done. rewrite length_take. lia.
Qed.

Lemma count_lt_length l r : (count_lt l r ≤ length l)%nat.
Proof. unfold count_lt. apply List.filter_length_le. Qed.

Lemma count_lt_bound l lo x :
  StronglySorted Z.lt l → Forall (λ y, lo ≤ y) l → lo ≤ x →
  Z.of_nat (count_lt l x) ≤ x - lo.
Proof.
  intros Hs. revert lo. induction Hs as [|y l Hs IH Hall]; intros lo Hlo Hx.
  - unfold count_lt; simpl. lia.
  - apply Forall_cons in Hlo as [Hy Hlo]. rewrite count_lt_cons.
    case_bool_decide as Hlt.
    + assert (Z.of_nat (count_lt l x) ≤ x - (y + 1)); [|lia].
      apply IH; [|lia]. eapply Forall_impl; [exact Hall|]. simpl; intros; lia.
    + by apply IH.
Qed.

Lemma StronglySorted_lt_le l : StronglySorted Z.lt l → StronglySorted Z.le l.
Proof.
  induction 1 as [|y l Hs IH Hall]; constructor; auto.
  eapply Forall_impl; [exact Hall|]. simpl; intros; lia.
Qed.

Lemma adjust_seq_sorted junk j rest :
  StronglySorted Z.lt junk → Forall is_int64 junk →
  StronglySorted Z.le rest → Forall is_int64 rest →
  (j ≤ length junk)%nat →
  Forall (λ x, Forall (λ y, y < x) (take j junk)) rest →
  adjust_seq junk j rest = adjusted_rank junk <$> rest.
Proof.
  intros Hjs Hji Hrs. revert j. induction Hrs as [|x rest Hrs IH Hall]; intros j Hri Hj Hinv; [done|].
  apply Forall_cons in Hri as [Hx Hri]. apply Forall_cons in Hinv as [Hjx Hinv].
  pose proof (StronglySorted_lt_le _ Hjs) as Hjs'.
  simpl. rewrite skip_junk_count by done.
  f_equal.
  - apply wrap64_id. pose proof (count_lt_bound junk int64_min x Hjs) as Hb.
    unfold is_int64 in *.
    assert (Z.of_nat (count_lt junk x) ≤ x - int64_min).
    { apply Hb; [|lia]. eapply Forall_impl; [exact Hji|]. simpl. unfold is_int64. intros; lia. }
    unfold adjusted_rank. lia.
  - apply IH; [done|apply count_lt_length|].
    apply Forall_forall. intros x' Hx'.
    eapply Forall_impl; [apply (take_count_lt junk x Hjs')|]. simpl.
    intros y Hy. rewrite Forall_forall in Hall. specialize (Hall _ Hx'). lia.
Qed.

Lemma adjust_loop_distinct (h : heap) p jl junk done rest j :
  p ≠ jl → h !! jl = Some junk → h !! p = Some (done ++ rest) →
  adjust_loop (length rest) (length done) j p jl h
  = <[p := done ++ adjust_seq junk j rest]> h.
Proof.
  intros Hne. revert done j h.
  induction rest as [|x rest IH]; intros done j h Hjl Hp; simpl.
  - by rewrite insert_id.
  - rewrite Hp, Hjl, list_lookup_middle by done.
    set (v := wrap64 _).
    replace (<[length done := v]> (done ++ x :: rest)) with ((done ++ [v]) ++ rest).
    2:{ rewrite <- (Nat.add_0_r (length done)), insert_app_r. simpl.
        by rewrite <- app_assoc. }
    replace (S (length done)) with (length (done ++ [v])).
    2:{ rewrite length_app. simpl. lia. }
    rewrite (IH (done ++ [v])).
    + rewrite insert_insert_eq. by rewrite <- app_assoc.
    + by rewrite lookup_insert_ne.
    + by rewrite lookup_insert_eq.
Qed.

Lemma AdjustPositiveRanks_distinct (h : heap) p jl positive junk :
  p ≠ jl → h !! p = Some positive → h !! jl = Some junk →
  AdjustPositiveRanks h p jl
  = Some (p, if bool_decide (length junk = 0%nat) then h
             else <[p := adjust_seq junk 0 positive]> h).
Proof.
  intros Hne Hp Hjl. unfold AdjustPositiveRanks. rewrite Hp, Hjl.
  case_bool_decide; [done|].
  pose proof (adjust_loop_distinct h p jl junk [] positive 0 Hne Hjl Hp) as E.
  simpl in E. by rewrite E.
Qed.

Lemma adjust_seq_nil_junk rest :
  Forall is_int64 rest → adjust_seq [] 0 rest = rest.
Proof.
  induction 1 as [|x rest Hx _ IH]; [done|]. simpl.
  rewrite IH. f_equal. rewrite Z.sub_0_r. by apply wrap64_id.
Qed.

Lemma AdjustPositiveRanks_fresh_eq positive junk :
  AdjustPositiveRanks_fresh positive junk
  = if bool_decide (length junk = 0%nat) then positive else adjust_seq junk 0 positive.
Proof.
  unfold AdjustPositiveRanks_fresh.
  rewrite (AdjustPositiveRanks_distinct _ 1%positive 2%positive positive junk); [|done|done|done].
  case_bool_decide; simpl.
  - by rewrite lookup_insert_eq.
  - by rewrite lookup_insert_eq.
Qed.

Lemma adjusted_sorted positive junk :
  Forall is_int64 positive → Forall is_int64 junk →
  StronglySorted Z.le positive → StronglySorted Z.lt junk →
  AdjustPositiveRanks_fresh positive junk = adjusted_rank junk <$> positive.
Proof.
  intros Hpi Hji Hps Hjs. rewrite AdjustPositiveRanks_fresh_eq.
  case_bool_decide as Hlen.
  - destruct junk; [|done]. clear.
    rewrite <- (list_fmap_id positive) at 1. apply list_fmap_ext.
    intros i x _. unfold adjusted_rank, count_lt. simpl. lia.
  - apply adjust_seq_sorted; try done; [lia|].
    apply Forall_forall. intros; simpl. constructor.
Qed.

Lemma adjust_loop_other n i j p jl (h : heap) l :
  l ≠ p → adjust_loop n i j p jl h !! l = h !! l.
Proof.
  intros Hl. revert i j h.
  induction n as [|n IH]; intros i j h; simpl; [done|].
  destruct (h !! p) as [positive|] eqn:Hp; [|done].
  destruct (h !! jl) as [junk|] eqn:Hjl; [|done].
  destruct (positive !! i) as [x|]; [|done].
  by rewrite IH, lookup_insert_ne.
Qed.

(** C3: on sorted, strictly increasing, disjoint arrays of 64-bit ranks the
    returned array has the length of [positive_ranks], its element [i] is
    [positive_ranks[i]] minus the number of junk ranks strictly below it,
    it is [positive_ranks] itself when [junk_ranks] is empty, and
    [[0,2]] with junk [[1]] gives [[0,1]]. *)
Theorem AdjustPositiveRanks_adjusts
    (h : heap) (p jl : loc) (positive_ranks junk_ranks : list Z) :
  h !! p = Some positive_ranks → h !! jl = Some junk_ranks →
  Forall is_int64 positive_ranks → Forall is_int64 junk_ranks →
  StronglySorted Z.lt positive_ranks → StronglySorted Z.lt junk_ranks →
  (∀ x, x ∈ positive_ranks → x ∉ junk_ranks) →
  (∃ r h' out,
     AdjustPositiveRanks h p jl = Some (r, h') ∧ h' !! r = Some out ∧
     length out = length positive_ranks ∧
     (∀ i x, positive_ranks !! i = Some x →
             out !! i = Some (x - Z.of_nat (count_lt junk_ranks x))) ∧
     (junk_ranks = [] → out = positive_ranks)) ∧
  AdjustPositiveRanks_fresh [0; 2] [1] = [0; 1].
Proof.
  intros Hp Hjl Hpi Hji Hps Hjs Hdisj. split; [|done].
  assert (out_ok : ∀ out : list Z,
            out = adjusted_rank junk_ranks <$> positive_ranks →
            length out = length positive_ranks ∧
            (∀ i x, positive_ranks !! i = Some x →
                    out !! i = Some (x - Z.of_nat (count_lt junk_ranks x))) ∧
            (junk_ranks = [] → out = positive_ranks)).
  { intros out ->. split; [by rewrite length_fmap|]. split.
    - intros i x Hx. by rewrite list_lookup_fmap, Hx.
    - intros ->. rewrite <- (list_fmap_id positive_ranks) at 2.
      apply list_fmap_ext. intros i x _.
      unfold adjusted_rank, count_lt. simpl. lia. }
  destruct (decide (p = jl)) as [->|Hne].
  - assert (positive_ranks = []) as ->.
    { destruct positive_ranks as [|x l]; [done|].
      exfalso. apply (Hdisj x); [left|].
      rewrite Hp in Hjl. injection Hjl as <-. left. }
    rewrite Hp in Hjl. injection Hjl as <-.
    exists jl, h, []. unfold AdjustPositiveRanks. rewrite Hp.
    split; [done|]. split; [done|]. by apply (out_ok []).
  - rewrite (AdjustPositiveRanks_distinct h p jl positive_ranks junk_ranks)
      by done.
    pose proof (adjusted_sorted positive_ranks junk_ranks Hpi Hji
                  (StronglySorted_lt_le _ Hps) Hjs) as Hout.
    rewrite AdjustPositiveRanks_fresh_eq in Hout.
    case_bool_decide.
    + exists p, h, positive_ranks. split; [done|]. split; [done|].
      by apply out_ok.
    + eexists p, _, _. split; [done|]. rewrite lookup_insert_eq.
      split; [done|]. by apply out_ok.
Qed.

Lemma AdjustPositiveRanks_adjusts_witness :
  (∃ r h' out,
     AdjustPositiveRanks
       (<[1%positive := [0; 2; 6; 10; 20]]> {[2%positive := [1; 8; 9; 30]]})
       1%positive 2%positive = Some (r, h') ∧ h' !! r = Some out ∧
     length out = length [0; 2; 6; 10; 20] ∧
     (∀ i x, [0; 2; 6; 10; 20] !! i = Some x →
             out !! i = Some (x - Z.of_nat (count_lt [1; 8; 9; 30] x))) ∧
     ([1; 8; 9; 30] = [] → out = [0; 2; 6; 10; 20])) ∧
  AdjustPositiveRanks_fresh [0; 2] [1] = [0; 1].
Proof.
  apply (AdjustPositiveRanks_adjusts
           (<[1%positive := [0; 2; 6; 10; 20]]> {[2%positive := [1; 8; 9; 30]]})
           1%positive 2%positive [0; 2; 6; 10; 20] [1; 8; 9; 30]).
  - reflexivity.
  - reflexivity.
  - repeat constructor; vm_compute; congruence.
  - repeat constructor; vm_compute; congruence.
  - repeat constructor; lia.
  - repeat constructor; lia.
  - intros x Hx Hj. apply list_elem_of_In in Hx, Hj. simpl in Hx, Hj. lia.
Defined.

(** C8, as the code has it: [AdjustPositiveRanks] allocates nothing.  It
    returns the array it was given for [positive_ranks] and touches no
    other array; that array is left as it is when [junk_ranks] is empty,
    and is otherwise overwritten in place with the adjusted ranks. *)
Theorem AdjustPositiveRanks_in_place
    (h : heap) (p jl : loc) (positive_ranks junk_ranks : list Z) :
  h !! p = Some positive_ranks → h !! jl = Some junk_ranks →
  ∃ h', AdjustPositiveRanks h p jl = Some (p, h') ∧
        (∀ l, l ≠ p → h' !! l = h !! l) ∧
        (junk_ranks = [] → h' = h) ∧
        (junk_ranks ≠ [] → p ≠ jl →
         Forall is_int64 positive_ranks → Forall is_int64 junk_ranks →
         StronglySorted Z.lt positive_ranks → StronglySorted Z.lt junk_ranks →
         h' !! p = Some (adjusted_rank junk_ranks <$> positive_ranks)).
Proof.
  intros Hp Hjl. unfold AdjustPositiveRanks. rewrite Hp, Hjl.
  case_bool_decide as Hlen.
  - exists h. split; [done|]. split; [done|]. split; [done|].
    intros Hne. by destruct junk_ranks.
  - eexists. split; [done|]. split; [|split].
    + intros l Hl. by apply adjust_loop_other.
    + intros ->. done.
    + intros _ Hne Hpi Hji Hps Hjs.
      pose proof (adjust_loop_distinct h p jl junk_ranks [] positive_ranks 0
                    Hne Hjl Hp) as E.
      simpl in E. rewrite E, lookup_insert_eq. f_equal.
      apply adjust_seq_sorted; try done.
      * by apply StronglySorted_lt_le.
      * lia.
      * apply Forall_forall. intros; simpl. constructor.
Qed.

Lemma AdjustPositiveRanks_in_place_witness :
  ∃ h', AdjustPositiveRanks (<[1%positive := [0; 2]]> {[2%positive := [1]]})
          1%positive 2%positive = Some (1%positive, h') ∧
        (∀ l, l ≠ 1%positive →
              h' !! l = (<[1%positive := [0; 2]]> {[2%positive := [1]]} : heap) !! l) ∧
        ([1] = [] → h' = <[1%positive := [0; 2]]> {[2%positive := [1]]}) ∧
        ([1] ≠ [] → 1%positive ≠ 2%positive →
         Forall is_int64 [0; 2] → Forall is_int64 [1] →
         StronglySorted Z.lt [0; 2] → StronglySorted Z.lt [1] →
         h' !! 1%positive = Some (adjusted_rank [1] <$> [0; 2])).
Proof.
  apply (AdjustPositiveRanks_in_place
           (<[1%positive := [0; 2]]> {[2%positive := [1]]})
           1%positive 2%positive [0; 2] [1]); reflexivity.
Defined.

(** C8, as stated, fails: after the call on [[0,2]] and [[1]] the array
    passed as [positive_ranks] holds [[0,1]], and the returned array is
    that same array. *)
Lemma AdjustPositiveRanks_overwrites_input :
  let h : heap := <[1%positive := [0; 2]]> {[2%positive := [1]]} in
  ∃ h', AdjustPositiveRanks h 1%positive 2%positive = Some (1%positive, h') ∧
        h' !! 1%positive = Some [0; 1] ∧
        h' !! 1%positive ≠ h !! 1%positive.
Proof. simpl. eexists. split; [reflexivity|]. split; [reflexivity|]. discriminate. Qed.

(** ** Average precision *)

Lemma is_rank_int64 r : is_rank r → is_int64 r.
Proof. unfold is_rank, is_int64, int64_min, int64_max. lia. Qed.

Lemma wrap64_succ r : is_rank r → wrap64 (r + 1) = r + 1.
Proof.
  intros Hr. apply wrap64_id. unfold is_rank, is_int64, int64_min, int64_max in *. lia.
Qed.

Lemma foldl_Qplus_proper (l : list Q) (a b : Q) :
  (a == b)%Q → (foldl Qplus a l == foldl Qplus b l)%Q.
Proof.
  revert a b. induction l as [|x l IH]; intros a b Hab; simpl; [done|].
  apply IH. by rewrite Hab.
Qed.






(** The same agreement on binary64, where the two expressions differ in
    the order of the multiplication and of the halving. *)
Example trapezoids_agree_on_binary64 :
  ComputeAveragePrecision (F:=float) [1; 4] = average_precision_spec [1; 4] ∧
  ComputeAveragePrecision (F:=float) [0; 3; 4; 9; 11]
  = average_precision_spec [0; 3; 4; 9; 11].
Proof. split; vm_compute; reflexivity. Qed.

Section Unit_interval.
Local Open Scope Q_scope.


Lemma inject_Z_nonneg (a : Z) : (0 ≤ a)%Z → 0 <= inject_Z a.
Proof. intros Ha. change (inject_Z 0 <= inject_Z a). by rewrite <- Zle_Qle. Qed.

Lemma inject_Z_pos (a : Z) : (0 < a)%Z → 0 < inject_Z a.
Proof. intros Ha. change (inject_Z 0 < inject_Z a). by rewrite <- Zlt_Qlt. Qed.

Lemma ratio_unit (a b : Z) : (0 ≤ a)%Z → (a ≤ b)%Z → (0 < b)%Z →
  0 <= inject_Z a / inject_Z b <= 1.
Proof.
  intros Ha Hab Hb.
  assert (0 < inject_Z b) as Hb' by (by apply inject_Z_pos).
  split.
  - apply Qle_shift_div_l; [done|]. rewrite Qmult_0_l. by apply inject_Z_nonneg.
  - apply Qle_shift_div_r; [done|]. rewrite Qmult_1_l. by rewrite <- Zle_Qle.
Qed.

Lemma ap_loop_bounds (positive_ranks : list Z) (i : nat) (step acc : Q) :
  0 <= step → Forall is_rank positive_ranks → StronglySorted Z.lt positive_ranks →
  Forall (λ r, (Z.of_nat i ≤ r)%Z) positive_ranks →
  acc <= ap_loop i positive_ranks step acc
      <= acc + inject_Z (Z.of_nat (length positive_ranks)) * step.
Proof.
  intros Hstep Hr Hs. revert i acc.
  induction Hs as [|r rest Hs IH Hall]; intros i acc Hi.
  - simpl. split; [apply Qle_refl|]. rewrite Qmult_0_l, Qplus_0_r. apply Qle_refl.
  - apply Forall_cons in Hr as [Hr Hrest]. apply Forall_cons in Hi as [Hir Hi].
    cbn [ap_loop length]. rewrite wrap64_succ by done.
    set (l := if bool_decide (r = 0%Z) then _ else _).
    set (rp := f_div (f_of_Z (Z.of_nat i + 1)) _).
    assert (0 <= l <= 1) as Hl.
    { subst l. case_bool_decide; [by split|]. simpl.
      unfold is_rank in Hr. apply ratio_unit; lia. }
    assert (0 <= rp <= 1) as Hrp.
    { subst rp. simpl. unfold is_rank in Hr. apply ratio_unit; lia. }
    specialize (IH Hrest (S i) (f_add acc (f_div (f_mul (f_add l rp) step) (f_of_Z 2)))).
    destruct IH as [IH1 IH2].
    { eapply Forall_impl; [exact Hall|]. simpl. intros; lia. }
    revert IH1 IH2. simpl. set (res := ap_loop _ _ _ _).
    rewrite Nat2Z.inj_succ. unfold Z.succ. rewrite inject_Z_plus.
    set (len := inject_Z (Z.of_nat (length rest))).
    assert (0 <= len) as Hlen by (apply inject_Z_nonneg; lia).
    unfold Qdiv. change (/ inject_Z 2) with (1 # 2). change (inject_Z 1) with 1.
    intros. split; nra.
Qed.



End Unit_interval.


(** ** Precision and recall at fixed ranks *)

Lemma py_max_spec (x : Z) (rest : list Z) :
  py_max x rest ∈ x :: rest ∧ Forall (λ y, y ≤ py_max x rest) (x :: rest).
Proof.
  unfold py_max. revert x. induction rest as [|y rest IH]; intros x; simpl.
  - split; [left|]. repeat constructor. lia.
  - destruct (IH (Z.max x y)) as [Hin Hall].
    apply Forall_cons in Hall as [Hxy Hall]. split.
    + apply elem_of_cons in Hin as [Hin|Hin].
      * rewrite Hin. destruct (Z.max_spec x y) as [[_ ->]|[_ ->]].
        -- right; left.
        -- left.
      * right; by right.
    + constructor; [lia|]. constructor; [lia|done].
Qed.

Section PR.
Context {F : Type} `{Arith F}.

Lemma pr_loop_spec (desired_pr_ranks : list Z) (first : Z) (others : list Z)
    (n : nat) (i : nat) (precisions recalls : list F) :
  (i + length desired_pr_ranks ≤ length precisions)%nat →
  (i + length desired_pr_ranks ≤ length recalls)%nat →
  ∃ precisions' recalls',
    pr_loop i desired_pr_ranks first others n precisions recalls
    = (precisions', recalls') ∧
    length precisions' = length precisions ∧
    length recalls' = length recalls ∧
    (∀ k, (k < i)%nat → precisions' !! k = precisions !! k ∧
                        recalls' !! k = recalls !! k) ∧
    (∀ k d, desired_pr_ranks !! k = Some d →
       recalls' !! (i + k)%nat
       = Some (f_div (f_of_Z (Z.of_nat (count_le (first :: others) d)))
                 (f_of_Z (Z.of_nat n))) ∧
       precisions' !! (i + k)%nat
       = Some (precision_at (first :: others) (py_max first others) d)).
Proof.
  revert i precisions recalls.
  induction desired_pr_ranks as [|d rest IH]; intros i precisions recalls Hp Hr.
  - exists precisions, recalls. simpl. repeat split; done.
  - simpl in Hp, Hr. cbn [pr_loop].
    set (rv := f_div (f_of_Z (Z.of_nat (count_le (first :: others) d))) _).
    set (pv := f_div _ (f_of_Z (Z.min _ d))).
    destruct (IH (S i) (<[i := pv]> precisions) (<[i := rv]> recalls))
      as (ps & rs & Heq & Hlp & Hlr & Hold & Hnew).
    { rewrite length_insert. lia. }
    { rewrite length_insert. lia. }
    exists ps, rs. rewrite length_insert in Hlp, Hlr.
    split; [done|]. split; [done|]. split; [done|]. split.
    + intros k Hk. destruct (Hold k) as [E1 E2]; [lia|].
      rewrite E1, E2, !list_lookup_insert_ne by lia. done.
    + intros [|k] d' Hd'.
      * simpl in Hd'. injection Hd' as <-. rewrite Nat.add_0_r.
        destruct (Hold i) as [E1 E2]; [lia|].
        rewrite E1, E2, !list_lookup_insert_eq by lia. done.
      * simpl in Hd'. replace (i + S k)%nat with (S i + k)%nat by lia.
        by apply Hnew.
Qed.

End PR.

(** The count the code computes is the number of elements of [a] that
    are at most [k]. *)
Lemma count_le_positives_upto (a : list Z) (k : Z) :
  count_le a k = positives_upto a k.
Proof.
  unfold count_le, positives_upto. induction a as [|x a IH]; [done|].
  rewrite filter_cons. cbn [List.filter].
  case_bool_decide as Hx.
  - rewrite decide_True by done. cbn [length]. by rewrite IH.
  - by rewrite decide_False by done.
Qed.

(** C4: on zero-indexed ranks and positive desired ranks both outputs have
    the length of [desired_pr_ranks]; they are all zeros when
    [positive_ranks] is empty; otherwise, [p] being the one-indexed
    positives and [mx] their maximum, the recall at [k] is
    [|{x in p : x <= k}| / len(p)] and the precision at [k] is
    [|{x in p : x <= m}| / m] with [m = min(mx, k)], in any float
    arithmetic; and on binary64 [[0,7]] at rank [10] gives precision
    [0.25] and recall [1.0], and at rank [1] precision [1.0] and recall
    [0.5]. *)
Theorem ComputePRAtRanks_formulas {F : Type} `{Arith F}
    (positive_ranks desired_pr_ranks : list Z) :
  Forall is_rank positive_ranks → Forall (λ k, 0 < k) desired_pr_ranks →
  let p := (λ r, r + 1) <$> positive_ranks in
  (∃ precisions recalls,
    ComputePRAtRanks positive_ranks desired_pr_ranks = (precisions, recalls) ∧
    length precisions = length desired_pr_ranks ∧
    length recalls = length desired_pr_ranks ∧
    (positive_ranks = [] →
       precisions = replicate (length desired_pr_ranks) (f_of_Z 0) ∧
       recalls = replicate (length desired_pr_ranks) (f_of_Z 0)) ∧
    (positive_ranks ≠ [] →
       ∃ mx, mx ∈ p ∧ Forall (λ x, x ≤ mx) p ∧
         ∀ i k, desired_pr_ranks !! i = Some k →
           recalls !! i = Some (recall_formula p k) ∧
           precisions !! i = Some (precision_formula p mx k))) ∧
  ComputePRAtRanks (F:=float) [0; 7] [10] = ([0.25%float], [1%float]) ∧
  ComputePRAtRanks (F:=float) [0; 7] [1] = ([1%float], [0.5%float]).
Proof.
  intros Hr Hd p. split; [|by vm_compute]. unfold ComputePRAtRanks.
  assert ((λ r, wrap64 (r + 1)) <$> positive_ranks = p) as ->.
  { apply list_fmap_ext. intros i r Hi. apply wrap64_succ.
    rewrite Forall_forall in Hr. apply Hr. by eapply list_elem_of_lookup_2. }
  destruct p as [|first others] eqn:Hp.
  - assert (positive_ranks = []) as -> by (by destruct positive_ranks).
    eexists _, _. split; [done|]. rewrite !length_replicate. repeat split; done.
  - destruct (pr_loop_spec desired_pr_ranks first others (length positive_ranks) 0
                (replicate (length desired_pr_ranks) (f_of_Z 0))
                (replicate (length desired_pr_ranks) (f_of_Z 0)))
      as (ps & rs & Heq & Hlp & Hlr & _ & Hnew).
    { rewrite length_replicate. lia. }
    { rewrite length_replicate. lia. }
    rewrite length_replicate in Hlp, Hlr.
    exists ps, rs. split; [done|]. split; [done|]. split; [done|]. split.
    + intros ->. done.
    + intros _. exists (py_max first others).
      destruct (py_max_spec first others) as [Hin Hall].
      split; [done|]. split; [done|].
      intros i k Hk. destruct (Hnew i k Hk) as [E1 E2]. simpl in E1, E2.
      split.
      * rewrite E1. unfold recall_formula.
        rewrite <- count_le_positives_upto. do 3 f_equal.
        rewrite <- Hp. unfold p. by rewrite length_fmap.
      * rewrite E2. unfold precision_at, precision_formula.
        by rewrite <- count_le_positives_upto.
Qed.

Lemma ComputePRAtRanks_formulas_witness :
  let p := (λ r, r + 1) <$> [0; 7] in
  (∃ precisions recalls : list Q,
    ComputePRAtRanks [0; 7] [10; 1] = (precisions, recalls) ∧
    length precisions = length [10; 1] ∧
    length recalls = length [10; 1] ∧
    ([0; 7] = [] →
       precisions = replicate (length [10; 1]) (f_of_Z 0) ∧
       recalls = replicate (length [10; 1]) (f_of_Z 0)) ∧
    ([0; 7] ≠ [] →
       ∃ mx, mx ∈ p ∧ Forall (λ x, x ≤ mx) p ∧
         ∀ i k, [10; 1] !! i = Some k →
           recalls !! i = Some (recall_formula p k) ∧
           precisions !! i = Some (precision_formula p mx k))) ∧
  ComputePRAtRanks (F:=float) [0; 7] [10] = ([0.25%float], [1%float]) ∧
  ComputePRAtRanks (F:=float) [0; 7] [1] = ([1%float], [0.5%float]).
Proof.
  apply (ComputePRAtRanks_formulas (F:=Q) [0; 7] [10; 1]).
  - repeat constructor; vm_compute; congruence.
  - repeat constructor.
Defined.

(** ** Ground-truth subsets *)

Lemma has_keys_lookup g :
  has_keys g →
  g !! "easy"%string = Some (gt_field g "easy") ∧
  g !! "hard"%string = Some (gt_field g "hard") ∧
  g !! "junk"%string = Some (gt_field g "junk").
Proof.
  unfold has_keys, _GROUND_TRUTH_KEYS, gt_field. intros Hk.
  apply Forall_cons in Hk as [[e He] Hk].
  apply Forall_cons in Hk as [[h Hh] Hk].
  apply Forall_cons in Hk as [[j Hj] _].
  by rewrite He, Hh, Hj.
Qed.

Lemma parse_loop_total ground_truth acc :
  Forall has_keys ground_truth →
  parse_loop ground_truth acc
  = Ok {| easy_ground_truth := easy_ground_truth acc ++ (easy_entry <$> ground_truth);
          medium_ground_truth := medium_ground_truth acc ++ (medium_entry <$> ground_truth);
          hard_ground_truth := hard_ground_truth acc ++ (hard_entry <$> ground_truth) |}.
Proof.
  intros Hk. revert acc. induction Hk as [|g rest Hg _ IH]; intros acc.
  - simpl. rewrite !app_nil_r. by destruct acc.
  - destruct (has_keys_lookup g Hg) as (He & Hh & Hj).
    cbn [parse_loop]. unfold getitem. rewrite He, Hh, Hj. cbn [bind].
    rewrite IH. cbn [easy_ground_truth medium_ground_truth hard_ground_truth].
    rewrite !fmap_cons, <- !app_assoc. done.
Qed.

Lemma parse_loop_missing ground_truth acc g key :
  g ∈ ground_truth → key ∈ _GROUND_TRUTH_KEYS → g !! key = None →
  parse_loop ground_truth acc = Error KeyError.
Proof.
  intros Hg Hkey Hnone. revert acc.
  induction ground_truth as [|g' rest IH]; intros acc.
  - by apply elem_of_nil in Hg.
  - cbn [parse_loop]. unfold getitem.
    destruct (g' !! "easy"%string) as [e|] eqn:He; [|done].
    destruct (g' !! "junk"%string) as [j|] eqn:Hj; [|done].
    destruct (g' !! "hard"%string) as [h|] eqn:Hh; [|done].
    cbn [bind]. apply elem_of_cons in Hg as [->|Hg].
    + exfalso. unfold _GROUND_TRUTH_KEYS in Hkey.
      repeat (apply elem_of_cons in Hkey as [->|Hkey]; [congruence|]).
      by apply elem_of_nil in Hkey.
    + by apply IH.
Qed.

Lemma read_query_ground_truth_lookup raw key :
  key ∈ _GROUND_TRUTH_KEYS →
  read_query_ground_truth raw !! key = fmap (λ x, x - 1) <$> raw !! key.
Proof.
  unfold read_query_ground_truth, _GROUND_TRUTH_KEYS. intros Hkey. simpl.
  destruct (raw !! "easy"%string) as [e|] eqn:He;
  destruct (raw !! "hard"%string) as [h|] eqn:Hh;
  destruct (raw !! "junk"%string) as [j|] eqn:Hj;
  repeat (apply elem_of_cons in Hkey as [->|Hkey];
          [rewrite ?He, ?Hh, ?Hj, ?lookup_insert_eq;
           rewrite ?lookup_insert_ne, ?lookup_insert_eq, ?lookup_empty by done;
           rewrite ?lookup_insert_ne, ?lookup_insert_eq, ?lookup_empty by done;
           done|]);
  by apply elem_of_nil in Hkey.
Qed.


Lemma _ParseGroundTruth_sets (ok_list junk_list : list (list Z)) :
  protocol_sets (_ParseGroundTruth ok_list junk_list)
    (list_to_set (concat ok_list)) (list_to_set (concat junk_list)).
Proof.
  exists (concat ok_list), (concat junk_list). unfold _ParseGroundTruth.
  split; [|split; [|done]].
  - rewrite lookup_insert_ne by done. apply lookup_insert_eq.
  - apply lookup_insert_eq.
Qed.

(** C6: on records that carry the three keys the function returns three
    lists with one entry per query, in the order of the input, where, as
    sets, the easy entry has ok = easy and junk = hard ∪ junk, the medium
    entry has ok = easy ∪ hard and junk = junk, and the hard entry has
    ok = hard and junk = junk ∪ easy. *)
Theorem ParseEasyMediumHardGroundTruth_subsets
    (ground_truth : list (gmap string (list Z))) :
  Forall has_keys ground_truth →
  ∃ s, ParseEasyMediumHardGroundTruth ground_truth = Ok s ∧
    length (easy_ground_truth s) = length ground_truth ∧
    length (medium_ground_truth s) = length ground_truth ∧
    length (hard_ground_truth s) = length ground_truth ∧
    ∀ i g, ground_truth !! i = Some g →
      ∃ (easy hard junk : list Z) (e m h : gmap string (list Z)),
        g !! "easy"%string = Some easy ∧ g !! "hard"%string = Some hard ∧
        g !! "junk"%string = Some junk ∧
        easy_ground_truth s !! i = Some e ∧
        medium_ground_truth s !! i = Some m ∧
        hard_ground_truth s !! i = Some h ∧
        protocol_sets e (list_to_set easy)
          (list_to_set hard ∪ list_to_set junk) ∧
        protocol_sets m (list_to_set easy ∪ list_to_set hard)
          (list_to_set junk) ∧
        protocol_sets h (list_to_set hard)
          (list_to_set junk ∪ list_to_set easy).
Proof.
  intros Hk. unfold ParseEasyMediumHardGroundTruth.
  rewrite parse_loop_total by done. eexists. split; [done|].
  cbn [easy_ground_truth medium_ground_truth hard_ground_truth app].
  rewrite !length_fmap. do 3 (split; [done|]).
  intros i g Hi.
  assert (has_keys g) as Hg.
  { rewrite Forall_forall in Hk. apply Hk. by eapply list_elem_of_lookup_2. }
  destruct (has_keys_lookup g Hg) as (He & Hh & Hj).
  exists (gt_field g "easy"), (gt_field g "hard"), (gt_field g "junk").
  exists (easy_entry g), (medium_entry g), (hard_entry g).
  rewrite !list_lookup_fmap, Hi. do 6 (split; [done|]).
  unfold easy_entry, medium_entry, hard_entry.
  split; [|split].
  - pose proof (_ParseGroundTruth_sets [gt_field g "easy"]
                  [gt_field g "junk"; gt_field g "hard"]) as Hs.
    simpl in Hs. rewrite !app_nil_r, list_to_set_app_L in Hs.
    by rewrite (comm_L (∪) (list_to_set (gt_field g "hard"))).
  - pose proof (_ParseGroundTruth_sets [gt_field g "easy"; gt_field g "hard"]
                  [gt_field g "junk"]) as Hs.
    simpl in Hs. by rewrite !app_nil_r, list_to_set_app_L in Hs.
  - pose proof (_ParseGroundTruth_sets [gt_field g "hard"]
                  [gt_field g "junk"; gt_field g "easy"]) as Hs.
    simpl in Hs. by rewrite !app_nil_r, list_to_set_app_L in Hs.
Qed.

Lemma ParseEasyMediumHardGroundTruth_subsets_witness :
  let ground_truth : list (gmap string (list Z)) :=
    [ <["easy"%string := [1]]> (<["hard"%string := [2; 3]]>
        {["junk"%string := [0]]}) ] in
  ∃ s, ParseEasyMediumHardGroundTruth ground_truth = Ok s ∧
    length (easy_ground_truth s) = length ground_truth ∧
    length (medium_ground_truth s) = length ground_truth ∧
    length (hard_ground_truth s) = length ground_truth ∧
    ∀ i g, ground_truth !! i = Some g →
      ∃ (easy hard junk : list Z) (e m h : gmap string (list Z)),
        g !! "easy"%string = Some easy ∧ g !! "hard"%string = Some hard ∧
        g !! "junk"%string = Some junk ∧
        easy_ground_truth s !! i = Some e ∧
        medium_ground_truth s !! i = Some m ∧
        hard_ground_truth s !! i = Some h ∧
        protocol_sets e (list_to_set easy)
          (list_to_set hard ∪ list_to_set junk) ∧
        protocol_sets m (list_to_set easy ∪ list_to_set hard)
          (list_to_set junk) ∧
        protocol_sets h (list_to_set hard)
          (list_to_set junk ∪ list_to_set easy).
Proof.
  apply (ParseEasyMediumHardGroundTruth_subsets
           [ <["easy"%string := [1]]> (<["hard"%string := [2; 3]]>
               {["junk"%string := [0]]}) ]).
  repeat constructor; vm_compute; eexists; reflexivity.
Defined.

(** C10: a record without one of the keys ['easy'], ['hard'], ['junk'] makes
    [ParseEasyMediumHardGroundTruth] fail with [KeyError]; and
    [ReadDatasetFile] produces such a record from a raw record without
    that field (it copies the recognised fields that are present, and
    nothing else). *)
Theorem ParseEasyMediumHardGroundTruth_missing_key
    (ground_truth : list (gmap string (list Z)))
    (g : gmap string (list Z)) (key : string) :
  key ∈ _GROUND_TRUTH_KEYS → g ∈ ground_truth → g !! key = None →
  ParseEasyMediumHardGroundTruth ground_truth = Error KeyError ∧
  (∀ raw : gmap string (list Z),
     raw !! key = None → read_query_ground_truth raw !! key = None).
Proof.
  intros Hkey Hg Hnone. split.
  - by apply (parse_loop_missing _ _ g key).
  - intros raw Hraw. by rewrite read_query_ground_truth_lookup, Hraw.
Qed.

Lemma ParseEasyMediumHardGroundTruth_missing_key_witness :
  let raw : gmap string (list Z) :=
    <["easy"%string := [2]]> {["junk"%string := [1]]} in
  ParseEasyMediumHardGroundTruth [read_query_ground_truth raw] = Error KeyError ∧
  (∀ raw : gmap string (list Z),
     raw !! "hard"%string = None →
     read_query_ground_truth raw !! "hard"%string = None).
Proof.
  apply (ParseEasyMediumHardGroundTruth_missing_key
           [read_query_ground_truth
              (<["easy"%string := [2]]> {["junk"%string := [1]]})]
           (read_query_ground_truth
              (<["easy"%string := [2]]> {["junk"%string := [1]]}))
           "hard"%string).
  - unfold _GROUND_TRUTH_KEYS. right; left.
  - left.
  - reflexivity.
Defined.

(** ** Aggregated metrics *)

Section Aggregation.
Context {F : Type} `{Arith F}.

Lemma ComputePRAtRanks_length (positive_ranks desired_pr_ranks : list Z) :
  length (ComputePRAtRanks (F:=F) positive_ranks desired_pr_ranks).1
  = length desired_pr_ranks ∧
  length (ComputePRAtRanks (F:=F) positive_ranks desired_pr_ranks).2
  = length desired_pr_ranks.
Proof.
  unfold ComputePRAtRanks.
  destruct ((λ r, wrap64 (r + 1)) <$> positive_ranks) as [|first others].
  - simpl. by rewrite length_replicate.
  - destruct (pr_loop_spec desired_pr_ranks first others (length positive_ranks) 0
                (replicate (length desired_pr_ranks) (f_of_Z 0))
                (replicate (length desired_pr_ranks) (f_of_Z 0)))
      as (ps & rs & Heq & Hlp & Hlr & _).
    { rewrite length_replicate. lia. }
    { rewrite length_replicate. lia. }
    rewrite Heq. simpl. by rewrite Hlp, Hlr, length_replicate.
Qed.

Lemma take_insert_snoc {A} (l : list A) (i : nat) (v : A) :
  (i < length l)%nat → take (S i) (<[i := v]> l) = take i l ++ [v].
Proof.
  intros Hi. rewrite (take_S_r _ _ v) by by apply list_lookup_insert_eq.
  by rewrite take_insert_ge by lia.
Qed.

Lemma valid_cells_snoc (gts : list (gmap string (list Z))) (cells : list (option F)) g c :
  length gts = length cells →
  valid_cells (gts ++ [g]) (cells ++ [c])
  = valid_cells gts cells
      ++ (if has_ground_truth g then [default (f_of_Z 0) c] else []).
Proof.
  intros Hlen. unfold valid_cells.
  rewrite zip_with_app by done. rewrite List.filter_app, fmap_app. simpl.
  by destruct (has_ground_truth g).
Qed.

Lemma sum_valid_snoc (gts : list (gmap string (list Z))) (cells : list (option F)) g c :
  length gts = length cells →
  sum_valid (gts ++ [g]) (cells ++ [c])
  = if has_ground_truth g then f_add (sum_valid gts cells) (default (f_of_Z 0) c)
    else sum_valid gts cells.
Proof.
  intros Hlen. unfold sum_valid, f_sum. rewrite valid_cells_snoc by done.
  rewrite foldl_app. by destruct (has_ground_truth g).
Qed.

Lemma num_empty_snoc gts g :
  num_empty (gts ++ [g])
  = (num_empty gts + if has_ground_truth g then 0 else 1)%nat.
Proof.
  unfold num_empty. rewrite List.filter_app, length_app. simpl.
  by destruct (has_ground_truth g).
Qed.

Lemma column_snoc c (m : list (list (option F))) row :
  column c (m ++ [row])
  = column c m ++ [match row !! c with Some cell => cell | None => None end].
Proof. unfold column. by rewrite fmap_app. Qed.

Variables (sorted_index_ids : ndarray2)
          (ground_truth : list (gmap string (list Z)))
          (desired_pr_ranks : list Z).

Lemma zip_with_add_columns (f : nat → F) (p : list F) (n : nat) :
  length p = n →
  zip_with f_add (f <$> seq 0 n) p
  = (λ c, f_add (f c)
            (default (f_of_Z 0)
               (match (Some <$> p) !! c with Some cell => cell | None => None end)))
      <$> seq 0 n.
Proof.
  intros Hlen. apply list_eq. intros c.
  rewrite lookup_zip_with, !list_lookup_fmap.
  destruct (decide (c < n)%nat) as [Hc|Hc].
  - rewrite lookup_seq_lt by done. simpl.
    destruct (lookup_lt_is_Some_2 p c) as [x Hx]; [lia|].
    rewrite list_lookup_fmap, Hx. done.
  - rewrite lookup_seq_ge by lia. done.
Qed.

Lemma metrics_step_inv (i : nat) (st : loop_state F) :
  length ground_truth = shape0 sorted_index_ids →
  length (rows sorted_index_ids) = shape0 sorted_index_ids →
  Forall is_protocol_entry ground_truth →
  loop_inv sorted_index_ids ground_truth desired_pr_ranks i st → (i < shape0 sorted_index_ids)%nat →
  ∃ st', metrics_step sorted_index_ids ground_truth desired_pr_ranks i st = Ok st' ∧
         loop_inv sorted_index_ids ground_truth desired_pr_ranks (S i) st'.
Proof.
  intros Hgt Hrows Hkeys [Hal Hpl Hrl Hne Hnan Hval Hmap Hmp Hmr] Hi.
  destruct (lookup_lt_is_Some_2 ground_truth i) as [g Hg]; [lia|].
  destruct (lookup_lt_is_Some_2 (rows sorted_index_ids) i) as [row Hrow]; [lia|].
  assert (is_protocol_entry g) as [[ok Hok] [junk Hjunk]].
  { rewrite Forall_forall in Hkeys. apply Hkeys. by eapply list_elem_of_lookup_2. }
  assert (length (take i ground_truth) = i) as Htg by (rewrite !length_take; lia).
  unfold metrics_step, list_getitem, getitem. rewrite Hg. cbn [bind].
  rewrite Hok, Hjunk. cbn [bind].
  pose proof (take_S_r _ _ _ Hg) as Htake.
  case_bool_decide as Hempty.
  - assert (has_ground_truth g = false) as Hgf.
    { unfold has_ground_truth. rewrite Hok. by destruct ok. }
    eexists. split; [done|].
    constructor; cbn [st_average_precisions st_precisions st_recalls
      st_num_empty_gt_queries st_mean_average_precision st_mean_precisions
      st_mean_recalls]; rewrite ?Htake.
    + by rewrite length_insert.
    + by rewrite length_insert.
    + by rewrite length_insert.
    + rewrite num_empty_snoc, Hgf, Hne. lia.
    + intros k g' Hk Hg' Hf. destruct (decide (k = i)) as [->|Hki].
      * rewrite !list_lookup_insert_eq by lia. done.
      * rewrite !list_lookup_insert_ne by lia. apply (Hnan k g'); [lia|done|done].
    + intros k g' Hk Hg' Hf. destruct (decide (k = i)) as [->|Hki].
      * congruence.
      * rewrite !list_lookup_insert_ne by lia. apply (Hval k g'); [lia|done|done].
    + rewrite take_insert_snoc by lia.
      rewrite sum_valid_snoc, Hgf by (rewrite !length_take; lia). done.
    + rewrite Hmp. apply list_fmap_ext. intros _ c _.
      rewrite take_insert_snoc by lia.
      rewrite column_snoc, sum_valid_snoc, Hgf; [done|].
      unfold column. rewrite length_fmap, !length_take. lia.
    + rewrite Hmr. apply list_fmap_ext. intros _ c _.
      rewrite take_insert_snoc by lia.
      rewrite column_snoc, sum_valid_snoc, Hgf; [done|].
      unfold column. rewrite length_fmap, !length_take. lia.
  - assert (has_ground_truth g = true) as Hgf.
    { unfold has_ground_truth. rewrite Hok. by destruct ok. }
    rewrite Hrow. cbn [bind].
    set (adj := AdjustPositiveRanks_fresh _ _).
    destruct (ComputePRAtRanks_length adj desired_pr_ranks) as [Hlp Hlr].
    eexists. split; [done|].
    constructor; cbn [st_average_precisions st_precisions st_recalls
      st_num_empty_gt_queries st_mean_average_precision st_mean_precisions
      st_mean_recalls]; rewrite ?Htake.
    + by rewrite length_insert.
    + by rewrite length_insert.
    + by rewrite length_insert.
    + rewrite num_empty_snoc, Hgf, Hne. lia.
    + intros k g' Hk Hg' Hf. destruct (decide (k = i)) as [->|Hki].
      * congruence.
      * rewrite !list_lookup_insert_ne by lia. apply (Hnan k g'); [lia|done|done].
    + intros k g' Hk Hg' Hf. destruct (decide (k = i)) as [->|Hki].
      * rewrite !list_lookup_insert_eq by lia.
        assert (g' = g) as -> by congruence.
        unfold adjusted_ranks_of. rewrite Hok, Hjunk, Hrow. done.
      * rewrite !list_lookup_insert_ne by lia. apply (Hval k g'); [lia|done|done].
    + rewrite take_insert_snoc by lia.
      rewrite sum_valid_snoc, Hgf by (rewrite !length_take; lia).
      by rewrite Hmap.
    + rewrite Hmp, zip_with_add_columns by done.
      apply list_fmap_ext. intros _ c _.
      rewrite take_insert_snoc by lia.
      rewrite column_snoc, sum_valid_snoc, Hgf; [done|].
      unfold column. rewrite length_fmap, !length_take. lia.
    + rewrite Hmr, zip_with_add_columns by done.
      apply list_fmap_ext. intros _ c _.
      rewrite take_insert_snoc by lia.
      rewrite column_snoc, sum_valid_snoc, Hgf; [done|].
      unfold column. rewrite length_fmap, !length_take. lia.
Qed.
End Aggregation.

Section Aggregates.
Context {F : Type} `{Arith F}.
Variables (sorted_index_ids : ndarray2)
          (ground_truth : list (gmap string (list Z)))
          (desired_pr_ranks : list Z).
Hypothesis Hgt : length ground_truth = shape0 sorted_index_ids.
Hypothesis Hrows : length (rows sorted_index_ids) = shape0 sorted_index_ids.
Hypothesis Hkeys : Forall is_protocol_entry ground_truth.

Lemma metrics_loop_inv (n i : nat) (st : loop_state F) :
  loop_inv sorted_index_ids ground_truth desired_pr_ranks i st →
  (i + n = shape0 sorted_index_ids)%nat →
  ∃ st',
    metrics_loop sorted_index_ids ground_truth desired_pr_ranks n i st = Ok st' ∧
    loop_inv sorted_index_ids ground_truth desired_pr_ranks
      (shape0 sorted_index_ids) st'.
Proof.
  revert i st. induction n as [|n IH]; intros i st Hinv Hin.
  - exists st. split; [done|]. by replace (shape0 sorted_index_ids) with i by lia.
  - destruct (metrics_step_inv sorted_index_ids ground_truth desired_pr_ranks
                i st Hgt Hrows Hkeys Hinv) as (st1 & Hstep & Hinv1); [lia|].
    cbn [metrics_loop]. rewrite Hstep. cbn [bind]. apply IH; [done|lia].
Qed.

Lemma replicate_seq {A} (n : nat) (x : A) :
  replicate n x = (λ _, x) <$> seq 0 n.
Proof.
  generalize 0%nat. induction n as [|n IH]; intros k; simpl; [done|].
  by rewrite (IH (S k)).
Qed.

Lemma loop_inv_init :
  loop_inv (F:=F) sorted_index_ids ground_truth desired_pr_ranks 0
    {| st_mean_average_precision := f_of_Z 0;
       st_mean_precisions := replicate (length desired_pr_ranks) (f_of_Z 0);
       st_mean_recalls := replicate (length desired_pr_ranks) (f_of_Z 0);
       st_average_precisions :=
         replicate (shape0 sorted_index_ids) (Some (f_of_Z 0));
       st_precisions :=
         replicate (shape0 sorted_index_ids)
           (replicate (length desired_pr_ranks) (Some (f_of_Z 0)));
       st_recalls :=
         replicate (shape0 sorted_index_ids)
           (replicate (length desired_pr_ranks) (Some (f_of_Z 0)));
       st_num_empty_gt_queries := 0 |}.
Proof.
  constructor; cbn [st_average_precisions st_precisions st_recalls
    st_num_empty_gt_queries st_mean_average_precision st_mean_precisions
    st_mean_recalls]; rewrite ?length_replicate, ?take_0; try done.
  - intros k g Hk. lia.
  - intros k g Hk. lia.
  - apply replicate_seq.
  - apply replicate_seq.
Qed.

Lemma largest_desired_rank :
  desired_pr_ranks ≠ [] →
  Forall (λ k, k ≤ Z.of_nat (shape1 sorted_index_ids)) desired_pr_ranks →
  ∃ largest, last (merge_sort Z.le desired_pr_ranks) = Some largest ∧
             largest ≤ Z.of_nat (shape1 sorted_index_ids).
Proof.
  intros Hne Hall.
  pose proof (merge_sort_Permutation Z.le desired_pr_ranks) as Hperm.
  destruct (last (merge_sort Z.le desired_pr_ranks)) as [largest|] eqn:Hlast.
  - exists largest. split; [done|].
    rewrite Forall_forall in Hall. apply Hall. rewrite <- Hperm.
    apply last_Some in Hlast as [l' ->]. apply elem_of_app. right. left.
  - apply last_None in Hlast. rewrite Hlast in Hperm.
    apply Permutation_nil_l in Hperm. done.
Qed.

(** The run of [ComputeMetrics] on well-formed arguments: the loop ends
    in a state that satisfies the invariant for all queries, and the
    result is decided by the number of queries without ground truth. *)
Lemma ComputeMetrics_run :
  desired_pr_ranks ≠ [] →
  Forall (λ k, k ≤ Z.of_nat (shape1 sorted_index_ids)) desired_pr_ranks →
  ∃ st : loop_state F,
    loop_inv sorted_index_ids ground_truth desired_pr_ranks
      (shape0 sorted_index_ids) st ∧
    ComputeMetrics sorted_index_ids ground_truth desired_pr_ranks
    = let num_valid_queries :=
        Z.of_nat (shape0 sorted_index_ids) - Z.of_nat (num_empty ground_truth) in
      if bool_decide (num_valid_queries = 0) then Error ZeroDivisionError
      else
        Ok {| mean_average_precision :=
                f_div (st_mean_average_precision st) (f_of_Z num_valid_queries);
              mean_precisions :=
                (λ x, f_div x (f_of_Z num_valid_queries)) <$> st_mean_precisions st;
              mean_recalls :=
                (λ x, f_div x (f_of_Z num_valid_queries)) <$> st_mean_recalls st;
              average_precisions := st_average_precisions st;
              precisions := st_precisions st;
              recalls := st_recalls st |}.
Proof.
  intros Hne Hall.
  destruct (largest_desired_rank Hne Hall) as (largest & Hlast & Hle).
  destruct (metrics_loop_inv (shape0 sorted_index_ids) 0 _ loop_inv_init)
    as (st & Hloop & Hinv); [done|].
  exists st. split; [done|].
  unfold ComputeMetrics. rewrite Hlast, bool_decide_false by lia.
  rewrite Hloop. cbn [bind].
  rewrite (inv_empty _ _ _ _ _ Hinv), <- Hgt, firstn_all. done.
Qed.

End Aggregates.

Lemma num_empty_all (ground_truth : list (gmap string (list Z))) :
  Forall (λ g, has_ground_truth g = false) ground_truth →
  num_empty ground_truth = length ground_truth.
Proof.
  induction 1 as [|g l Hg _ IH]; [done|].
  change (g :: l) with ([g] ++ l). unfold num_empty in *.
  rewrite List.filter_app, !length_app, IH. simpl. by rewrite Hg.
Qed.

Lemma num_empty_some (ground_truth : list (gmap string (list Z))) :
  Exists (λ g, has_ground_truth g = true) ground_truth →
  (num_empty ground_truth < length ground_truth)%nat.
Proof.
  induction 1 as [g l Hg|g l _ IH].
  - change (g :: l) with ([g] ++ l). unfold num_empty.
    rewrite List.filter_app, !length_app. simpl. rewrite Hg. simpl.
    pose proof (List.filter_length_le (λ g, negb (has_ground_truth g)) l). lia.
  - change (g :: l) with ([g] ++ l). unfold num_empty in *.
    rewrite List.filter_app, !length_app. simpl.
    destruct (has_ground_truth g); simpl; lia.
Qed.

(** C2, as the code has it: on a [Q]-by-[N] matrix, [Q] ground-truth
    records and desired ranks of maximum at most [N], with at least one
    query that has ground truth, [ComputeMetrics] returns; the per-query
    outputs of every query without ground truth are NaN, those of the
    other queries are the average precision and the precisions and recalls
    of its adjusted positive ranks, and each mean is the sum of the per-query
    values over the queries with ground truth, divided by [Q] minus the
    number of queries without. *)
Theorem ComputeMetrics_means {F : Type} `{Arith F}
    (sorted_index_ids : ndarray2) (ground_truth : list (gmap string (list Z)))
    (desired_pr_ranks : list Z) :
  is_matrix sorted_index_ids →
  length ground_truth = shape0 sorted_index_ids →
  Forall is_protocol_entry ground_truth →
  desired_pr_ranks ≠ [] →
  Forall (λ k, k ≤ Z.of_nat (shape1 sorted_index_ids)) desired_pr_ranks →
  Exists (λ g, has_ground_truth g = true) ground_truth →
  let num_valid_queries :=
    Z.of_nat (shape0 sorted_index_ids) - Z.of_nat (num_empty ground_truth) in
  ∃ m : metrics F,
    ComputeMetrics sorted_index_ids ground_truth desired_pr_ranks = Ok m ∧
    length (average_precisions m) = shape0 sorted_index_ids ∧
    length (precisions m) = shape0 sorted_index_ids ∧
    length (recalls m) = shape0 sorted_index_ids ∧
    (∀ i g, ground_truth !! i = Some g → has_ground_truth g = false →
       average_precisions m !! i = Some None ∧
       precisions m !! i = Some (replicate (length desired_pr_ranks) None) ∧
       recalls m !! i = Some (replicate (length desired_pr_ranks) None)) ∧
    (∀ i g, ground_truth !! i = Some g → has_ground_truth g = true →
       let ranks := adjusted_ranks_of sorted_index_ids g i in
       average_precisions m !! i
       = Some (Some (ComputeAveragePrecision ranks)) ∧
       precisions m !! i
       = Some (Some <$> (ComputePRAtRanks ranks desired_pr_ranks).1) ∧
       recalls m !! i
       = Some (Some <$> (ComputePRAtRanks ranks desired_pr_ranks).2)) ∧
    mean_average_precision m
    = f_div (sum_valid ground_truth (average_precisions m))
        (f_of_Z num_valid_queries) ∧
    mean_precisions m
    = (λ c, f_div (sum_valid ground_truth (column c (precisions m)))
              (f_of_Z num_valid_queries))
        <$> seq 0 (length desired_pr_ranks) ∧
    mean_recalls m
    = (λ c, f_div (sum_valid ground_truth (column c (recalls m)))
              (f_of_Z num_valid_queries))
        <$> seq 0 (length desired_pr_ranks).
Proof.
  intros [Hrows _] Hgt Hkeys Hne Hall Hsome num_valid_queries.
  destruct (ComputeMetrics_run (F:=F) sorted_index_ids ground_truth
              desired_pr_ranks Hgt Hrows Hkeys Hne Hall) as (st & Hinv & Hrun).
  pose proof (num_empty_some ground_truth Hsome) as Hlt.
  rewrite Hrun. cbn zeta. fold num_valid_queries.
  rewrite bool_decide_false by (unfold num_valid_queries; lia).
  destruct Hinv as [Hal Hpl Hrl _ Hnan Hval Hmap Hmp Hmr].
  rewrite <- Hgt, firstn_all in Hmap, Hmp, Hmr.
  rewrite Hgt in Hmap, Hmp, Hmr.
  rewrite <- Hal, firstn_all in Hmap.
  rewrite <- Hpl, firstn_all in Hmp.
  rewrite <- Hrl, firstn_all in Hmr.
  eexists. split; [done|].
  cbn [average_precisions precisions recalls mean_average_precision
       mean_precisions mean_recalls].
  do 3 (split; [done|]). split; [|split; [|split; [|split]]].
  - intros i g Hi Hf. apply (Hnan i g); [|done|done].
    apply lookup_lt_Some in Hi. lia.
  - intros i g Hi Hf. apply (Hval i g); [|done|done].
    apply lookup_lt_Some in Hi. lia.
  - by rewrite Hmap.
  - rewrite Hmp, <- list_fmap_compose. done.
  - rewrite Hmr, <- list_fmap_compose. done.
Qed.

Lemma ComputeMetrics_means_witness :
  ∃ m : metrics Q,
    ComputeMetrics example_ids example_ground_truth [1; 2] = Ok m ∧
    average_precisions m !! 1%nat = Some None ∧
    mean_average_precision m
    = f_div (sum_valid example_ground_truth (average_precisions m)) (f_of_Z 2).
Proof.
  destruct (ComputeMetrics_means (F:=Q) example_ids example_ground_truth [1; 2])
    as (m & Hm & _ & _ & _ & Hnan & _ & Hmean & _).
  - split; [reflexivity|]. repeat constructor.
  - reflexivity.
  - repeat constructor; eexists; reflexivity.
  - discriminate.
  - repeat constructor; vm_compute; congruence.
  - left. reflexivity.
  - exists m. split; [exact Hm|]. split; [|exact Hmean].
    apply (Hnan 1%nat _ eq_refl). reflexivity.
Defined.

(** C2, as stated, fails where no query has ground truth: the function
    raises instead of returning means. *)
Lemma ComputeMetrics_all_empty_raises :
  is_matrix empty_ids ∧
  length empty_ground_truth = shape0 empty_ids ∧
  ComputeMetrics (F:=float) empty_ids empty_ground_truth [1]
  = Error ZeroDivisionError.
Proof. split; [|split]; [|reflexivity|vm_compute; reflexivity].
  split; [reflexivity|]. repeat constructor.
Qed.

(** C9: when no query has ground truth (and the arguments are otherwise
    well formed) [ComputeMetrics] raises [ZeroDivisionError]. *)
Theorem ComputeMetrics_no_valid_query {F : Type} `{Arith F}
    (sorted_index_ids : ndarray2) (ground_truth : list (gmap string (list Z)))
    (desired_pr_ranks : list Z) :
  is_matrix sorted_index_ids →
  length ground_truth = shape0 sorted_index_ids →
  Forall (λ g, g !! "ok"%string = Some [] ∧ is_Some (g !! "junk"%string))
    ground_truth →
  desired_pr_ranks ≠ [] →
  Forall (λ k, k ≤ Z.of_nat (shape1 sorted_index_ids)) desired_pr_ranks →
  ComputeMetrics (F:=F) sorted_index_ids ground_truth desired_pr_ranks
  = Error ZeroDivisionError.
Proof.
  intros [Hrows _] Hgt Hempty Hne Hall.
  assert (Forall is_protocol_entry ground_truth) as Hkeys.
  { eapply Forall_impl; [exact Hempty|]. intros g [Hok Hjunk].
    split; [by rewrite Hok|done]. }
  assert (Forall (λ g, has_ground_truth g = false) ground_truth) as Hnone.
  { eapply Forall_impl; [exact Hempty|]. intros g [Hok _].
    unfold has_ground_truth. by rewrite Hok. }
  destruct (ComputeMetrics_run (F:=F) sorted_index_ids ground_truth
              desired_pr_ranks Hgt Hrows Hkeys Hne Hall) as (st & _ & Hrun).
  rewrite Hrun. cbn zeta. rewrite num_empty_all, Hgt by done.
  by rewrite bool_decide_true by lia.
Qed.

Lemma ComputeMetrics_no_valid_query_witness :
  ComputeMetrics (F:=float) empty_ids empty_ground_truth [1; 2]
  = Error ZeroDivisionError.
Proof.
  apply (ComputeMetrics_no_valid_query (F:=float) empty_ids empty_ground_truth [1; 2]).
  - split; [reflexivity|]. repeat constructor.
  - reflexivity.
  - repeat constructor. eexists; reflexivity.
  - discriminate.
  - repeat constructor; vm_compute; congruence.
Defined.

(** ** The metrics file *)

Lemma file_lines_cons (c : ascii) (s : string) :
  file_lines (String c s)
  = if Ascii.eqb c newline then String c EmptyString :: file_lines s
    else match file_lines s with
         | l :: ls => String c l :: ls
         | [] => [String c EmptyString]
         end.
Proof. reflexivity. Qed.

Lemma file_lines_line (a s : string) :
  has_newline a = false → file_lines (a +:+ nl +:+ s) = (a +:+ nl) :: file_lines s.
Proof.
  induction a as [|c a IH]; intros Ha.
  - reflexivity.
  - simpl in Ha. apply orb_false_elim in Ha as [Hc Ha].
    change (String c a +:+ nl +:+ s) with (String c (a +:+ nl +:+ s)).
    rewrite file_lines_cons, Hc, IH by done. done.
Qed.

Lemma file_lines_line_after (pre a s : string) :
  has_newline pre = false → has_newline a = false →
  file_lines (pre +:+ a +:+ nl +:+ s) = (pre +:+ a +:+ nl) :: file_lines s.
Proof.
  intros Hpre Ha. induction pre as [|c pre IH].
  - by apply file_lines_line.
  - simpl in Hpre. apply orb_false_elim in Hpre as [Hc Hpre].
    change (String c pre +:+ a +:+ nl +:+ s)
      with (String c (pre +:+ a +:+ nl +:+ s)).
    rewrite file_lines_cons, Hc, IH by done. done.
Qed.

Lemma file_lines_cut (t a s : string) :
  cut_line t = Some (a, s) → file_lines t = (a +:+ nl) :: file_lines s.
Proof.
  revert a. induction t as [|c t IH]; intros a Hcut; [done|].
  rewrite file_lines_cons. simpl in Hcut.
  destruct (Ascii.eqb c newline) eqn:Hc.
  - injection Hcut as <- <-. apply Ascii.eqb_eq in Hc as ->. done.
  - destruct (cut_line t) as [[a' rest]|]; [|done].
    injection Hcut as <- <-. by rewrite (IH a').
Qed.

Lemma file_lines_nonempty (c : ascii) (s : string) : file_lines (String c s) ≠ [].
Proof.
  rewrite file_lines_cons. destruct (Ascii.eqb c newline); [done|].
  by destruct (file_lines s).
Qed.

Section LongRanks.
Variable str_float64 : float → string.
Variable str_float_array : list float → string.
Variable float_of_str : string → result float.

(** C5 fails on a list of thirty ranks: NumPy breaks the text of an array
    after 75 columns, so the line that starts with [mP@k] ends after the
    24th rank; the block takes more than four lines, and the reader, which
    finds no second bracket on that line, raises.  This holds whatever the
    text of the floats is, as long as the mean average precision is
    printed on one line. *)
Theorem SaveMetricsFile_long_ranks_unreadable :
  has_newline (str_float64 (np_around2 (0.5 * 100))) = false →
  ∃ text,
    SaveMetricsFile str_float64 str_float_array long_ap long_ps long_ps long_ranks
    = (Some text, Ok ()) ∧
    ∃ e, ReadMetricsFile float_of_str text = Error e.
Proof.
  intros HA.
  exists (metrics_block str_float64 str_float_array "easy" 0.5
            (replicate 30 0.5%float) (replicate 30 0.5%float) long_ranks).
  split; [reflexivity|].
  unfold ReadMetricsFile, metrics_block.
  set (A := str_float64 _) in *. set (P := str_float_array _).
  rewrite (file_lines_line "easy") by reflexivity.
  rewrite (file_lines_line_after "  mAP=" A) by done.
  clearbody A P.
  match goal with
  | |- context [file_lines ?t] =>
      let c := eval vm_compute in (cut_line t) in
      lazymatch c with
      | Some (?a, ?s) =>
          rewrite (file_lines_cut t a s) by (vm_compute; reflexivity);
          destruct (file_lines s) as [|mr_line rest] eqn:Hrest;
          [by apply file_lines_nonempty in Hrest|]
      end
  end.
  case_bool_decide; [by eexists|].
  rewrite !fmap_cons. cbn [read_loop rd_protocols rd_pr_ranks].
  rewrite bool_decide_false by set_solver.
  destruct (list_getitem _ 1) as [map_text|e]; [|by eexists].
  cbn [bind]. destruct (float_of_str map_text) as [map_value|e]; [|by eexists].
  cbn [bind].
  match goal with
  | |- context [_ParsePrRanks ?l] =>
      let r := eval vm_compute in (_ParsePrRanks l) in
      change (_ParsePrRanks l) with r
  end.
  cbn [bind].
  exists IndexError. reflexivity.
Qed.
End LongRanks.

Lemma SaveMetricsFile_long_ranks_unreadable_witness :
  ∃ text,
    SaveMetricsFile positional_float64 positional_float_array
      long_ap long_ps long_ps long_ranks = (Some text, Ok ()) ∧
    ∃ e, ReadMetricsFile decimal_float text = Error e.
Proof.
  apply (SaveMetricsFile_long_ranks_unreadable positional_float64
           positional_float_array decimal_float).
  reflexivity.
Defined.


(** With the positional printers the file written for the thirty ranks has
    eight lines, and reading it ends in [IndexError]. *)
Example SaveMetricsFile_long_ranks_text :
  ∃ text,
    SaveMetricsFile positional_float64 positional_float_array
      long_ap long_ps long_ps long_ranks = (Some text, Ok ()) ∧
    length (file_lines text) = 8%nat ∧
    (rstrip <$> file_lines text) !! 2%nat
    = Some "  mP@k[ 1  2  3  4  5  6  7  8  9 10 11 12 13 14 15 16 17 18 19 20 21 22 23 24"%string ∧
    ReadMetricsFile decimal_float text = Error IndexError.
Proof. eexists. split; [vm_compute; reflexivity|]. by vm_compute. Qed.

(** The scenario of the specification, two protocols and the ranks
    [[1, 5]], is read back: same protocols, same ranks, and the values
    rounded to two decimals of their percentage. *)
Example metrics_file_scenario :
  ∃ text st,
    SaveMetricsFile positional_float64 positional_float_array
      scenario_ap scenario_ps scenario_ps [1; 5] = (Some text, Ok ()) ∧
    ReadMetricsFile decimal_float text = Ok st ∧
    rd_pr_ranks st = [1; 5] ∧
    map_to_list (rd_mean_average_precision st)
    = [("easy"%string, 0.8%float); ("hard"%string, 0.5%float)] ∧
    map_to_list (rd_mean_precisions st)
    = [("easy"%string, [0.9; 0.7]%float); ("hard"%string, [0.4; 0.3]%float)].
Proof.
  eexists _, _. split; [vm_compute; reflexivity|].
  split; [vm_compute; reflexivity|].
  vm_compute. repeat split.
Qed.

(** ** More on the rank adjustment *)

Lemma count_lt_diff l a b :
  StronglySorted Z.lt l → a ≤ b →
  Z.of_nat (count_lt l b) ≤ Z.of_nat (count_lt l a) + (b - a).
Proof.
  intros Hs Hab. induction Hs as [|y l Hs IH Hall].
  - unfold count_lt. simpl. lia.
  - rewrite !count_lt_cons.
    destruct (decide (y < a)) as [Hya|Hya].
    + rewrite !bool_decide_true by lia. lia.
    + rewrite (bool_decide_false (y < a)) by done.
      assert (count_lt l a = 0%nat) as E.
      { apply count_lt_none.
        eapply Forall_impl; [exact Hall|]. simpl; intros; lia. }
      rewrite E in *.
      case_bool_decide as Hyb; [|lia].
      assert (Z.of_nat (count_lt l b) ≤ b - (y + 1)); [|lia].
      apply count_lt_bound; [done| |lia].
      eapply Forall_impl; [exact Hall|]. simpl; intros; lia.
Qed.

Lemma count_lt_succ_notin l x :
  x ∉ l → count_lt l (x + 1) = count_lt l x.
Proof.
  induction l as [|y l IH]; intros Hx; [done|].
  apply not_elem_of_cons in Hx as [Hxy Hx].
  rewrite !count_lt_cons, IH by done.
  repeat case_bool_decide; try done; lia.
Qed.

Lemma adjusted_rank_mono junk x y :
  StronglySorted Z.lt junk → x ≤ y →
  adjusted_rank junk x ≤ adjusted_rank junk y.
Proof.
  intros Hs Hxy. unfold adjusted_rank.
  pose proof (count_lt_diff junk x y Hs Hxy). lia.
Qed.

Lemma adjusted_rank_strict junk x y :
  StronglySorted Z.lt junk → x ∉ junk → x < y →
  adjusted_rank junk x < adjusted_rank junk y.
Proof.
  intros Hs Hx Hxy. unfold adjusted_rank.
  pose proof (count_lt_diff junk (x + 1) y Hs).
  rewrite (count_lt_succ_notin junk x) in * by done. lia.
Qed.

Lemma adjusted_rank_nonneg junk x :
  StronglySorted Z.lt junk → Forall (λ y, 0 ≤ y) junk → 0 ≤ x →
  0 ≤ adjusted_rank junk x ≤ x.
Proof.
  intros Hs Hj Hx. unfold adjusted_rank.
  pose proof (count_lt_bound junk 0 x Hs Hj Hx). lia.
Qed.

Lemma adjusted_ranks_increasing junk positive :
  StronglySorted Z.lt junk → StronglySorted Z.lt positive →
  (∀ x, x ∈ positive → x ∉ junk) →
  StronglySorted Z.lt (adjusted_rank junk <$> positive).
Proof.
  intros Hj Hp Hdisj. induction Hp as [|x l Hp IH Hall]; [constructor|].
  rewrite fmap_cons. constructor.
  - apply IH. intros y Hy. apply Hdisj. by right.
  - apply Forall_fmap. eapply Forall_impl; [exact Hall|]. simpl.
    intros y Hy. apply adjusted_rank_strict; [done| |done].
    apply Hdisj. left.
Qed.

(** X1: on strictly increasing, disjoint arrays of zero-indexed ranks the
    adjusted ranks are again strictly increasing, none is negative and
    none exceeds the rank it comes from. *)
Theorem AdjustPositiveRanks_keeps_order
    (h : heap) (p jl : loc) (positive_ranks junk_ranks : list Z) :
  h !! p = Some positive_ranks → h !! jl = Some junk_ranks →
  Forall is_rank positive_ranks → Forall is_rank junk_ranks →
  StronglySorted Z.lt positive_ranks → StronglySorted Z.lt junk_ranks →
  (∀ x, x ∈ positive_ranks → x ∉ junk_ranks) →
  ∃ h' out,
    AdjustPositiveRanks h p jl = Some (p, h') ∧ h' !! p = Some out ∧
    StronglySorted Z.lt out ∧
    Forall2 (λ a r, 0 ≤ a ≤ r) out positive_ranks.
Proof.
  intros Hp Hjl Hpr Hjr Hps Hjs Hdisj.
  assert (Forall is_int64 positive_ranks) as Hpi.
  { eapply Forall_impl; [exact Hpr|]. apply is_rank_int64. }
  assert (Forall is_int64 junk_ranks) as Hji.
  { eapply Forall_impl; [exact Hjr|]. apply is_rank_int64. }
  assert (Forall2 (λ a r, 0 ≤ a ≤ r) (adjusted_rank junk_ranks <$> positive_ranks)
            positive_ranks) as Hbound.
  { apply Forall2_fmap_l, Forall_Forall2_diag.
    eapply Forall_impl; [exact Hpr|]. simpl. intros x Hx.
    apply adjusted_rank_nonneg; [done| |unfold is_rank in Hx; lia].
    eapply Forall_impl; [exact Hjr|]. unfold is_rank. simpl. intros; lia. }
  pose proof (adjusted_ranks_increasing junk_ranks positive_ranks Hjs Hps Hdisj)
    as Hinc.
  pose proof (adjusted_sorted positive_ranks junk_ranks Hpi Hji
                (StronglySorted_lt_le _ Hps) Hjs) as Hout.
  rewrite AdjustPositiveRanks_fresh_eq in Hout.
  destruct (decide (p = jl)) as [->|Hne].
  - assert (positive_ranks = []) as ->.
    { destruct positive_ranks as [|x l]; [done|].
      exfalso. apply (Hdisj x); [left|].
      rewrite Hp in Hjl. injection Hjl as <-. left. }
    exists h, []. unfold AdjustPositiveRanks. rewrite Hp.
    split; [done|]. split; [done|]. split; constructor.
  - rewrite (AdjustPositiveRanks_distinct h p jl positive_ranks junk_ranks)
      by done.
    destruct (bool_decide (length junk_ranks = 0%nat)).
    + exists h, positive_ranks. split; [done|]. split; [done|].
      split; [done|]. apply Forall_Forall2_diag.
      eapply Forall_impl; [exact Hpr|]. unfold is_rank. simpl. intros; lia.
    + eexists _, _. split; [done|]. rewrite lookup_insert_eq.
      split; [done|]. rewrite Hout. done.
Qed.

Lemma AdjustPositiveRanks_keeps_order_witness :
  ∃ h' out,
    AdjustPositiveRanks
      (<[1%positive := [0; 2; 6; 10; 20]]> {[2%positive := [1; 8; 9; 30]]})
      1%positive 2%positive = Some (1%positive, h') ∧
    h' !! 1%positive = Some out ∧
    StronglySorted Z.lt out ∧
    Forall2 (λ a r, 0 ≤ a ≤ r) out [0; 2; 6; 10; 20].
Proof.
  apply (AdjustPositiveRanks_keeps_order
           (<[1%positive := [0; 2; 6; 10; 20]]> {[2%positive := [1; 8; 9; 30]]})
           1%positive 2%positive [0; 2; 6; 10; 20] [1; 8; 9; 30]).
  - reflexivity.
  - reflexivity.
  - repeat constructor; vm_compute; congruence.
  - repeat constructor; vm_compute; congruence.
  - repeat constructor; lia.
  - repeat constructor; lia.
  - intros x Hx Hj. apply list_elem_of_In in Hx, Hj. simpl in Hx, Hj. lia.
Defined.

(** ** More on the average precision *)

Section Perfect_ranking.
Local Open Scope Q_scope.

(** The trapezoid the loop adds at position [i] for rank [r]. *)
Lemma ap_term_bounds (i : nat) (r : Z) (step : Q) :
  0 < step → is_rank r → (Z.of_nat i ≤ r)%Z →
  let t :=
    f_div
      (f_mul
         (f_add
            (if bool_decide (r = 0%Z) then f_of_Z 1
             else f_div (f_of_Z (Z.of_nat i)) (f_of_Z r))
            (f_div (f_of_Z (Z.of_nat i + 1)) (f_of_Z (r + 1))))
         step)
      (f_of_Z 2) in
  0 < t ∧ t <= step ∧ (t == step ↔ r = Z.of_nat i).
Proof.
  intros Hstep Hr Hir. unfold is_rank in Hr.
  set (l := if bool_decide (r = 0%Z) then _ else _).
  set (rp := f_div (f_of_Z (Z.of_nat i + 1)) _).
  assert (0 <= l <= 1) as Hl.
  { subst l. case_bool_decide; [by split|]. simpl. apply ratio_unit; lia. }
  assert (0 < inject_Z (r + 1)) as Hr1 by (apply inject_Z_pos; lia).
  assert (0 < rp <= 1) as Hrp.
  { subst rp. simpl. split; [|apply ratio_unit; lia].
    apply Qlt_shift_div_l; [done|]. rewrite Qmult_0_l. apply inject_Z_pos. lia. }
  assert (rp == 1 ↔ r = Z.of_nat i) as Hrp1.
  { subst rp. simpl. split.
    - intros E.
      assert (inject_Z (Z.of_nat i + 1) == inject_Z (r + 1)) as E'.
      { rewrite <- (Qmult_1_l (inject_Z (r + 1))), <- E. field.
        intros Hz. rewrite Hz in Hr1. by apply Qlt_irrefl in Hr1. }
      unfold Qeq, inject_Z in E'. cbn [Qnum Qden] in E'. lia.
    - intros ->. field. intros Hz. rewrite Hz in Hr1. by apply Qlt_irrefl in Hr1. }
  assert (r = Z.of_nat i → l == 1) as Hl1.
  { intros ->. subst l. case_bool_decide; [done|]. simpl. field.
    intros Hz. unfold Qeq, inject_Z in Hz. cbn [Qnum Qden] in Hz. lia. }
  clearbody l rp. simpl. unfold Qdiv. change (/ inject_Z 2) with (1 # 2).
  assert (0 <= (1 - l) * step) as Hn1 by (apply Qmult_le_0_compat; lra).
  assert (0 <= (1 - rp) * step) as Hn2 by (apply Qmult_le_0_compat; lra).
  assert (0 <= l * step) as Hn3 by (apply Qmult_le_0_compat; lra).
  assert (0 < rp * step) as Hn4 by (apply Qmult_lt_0_compat; lra).
  split; [lra|]. split; [lra|]. split.
  - intros E. apply Hrp1.
    assert (l + rp == 2) as E2.
    { apply (Qmult_inj_r _ _ step); [intros Hz; rewrite Hz in Hstep; by apply Qlt_irrefl in Hstep|].
      lra. }
    lra.
  - intros E. pose proof (Hl1 E) as E1. apply Hrp1 in E. rewrite E, E1. ring.
Qed.

Lemma ap_loop_perfect (positive_ranks : list Z) (i : nat) (step acc : Q) :
  0 < step → Forall is_rank positive_ranks →
  StronglySorted Z.lt positive_ranks →
  Forall (λ r, (Z.of_nat i ≤ r)%Z) positive_ranks →
  (positive_ranks ≠ [] → acc < ap_loop i positive_ranks step acc) ∧
  (ap_loop i positive_ranks step acc
   == acc + inject_Z (Z.of_nat (length positive_ranks)) * step
   ↔ positive_ranks = Z.of_nat <$> seq i (length positive_ranks)).
Proof.
  intros Hstep Hr Hs. revert i acc.
  induction Hs as [|r rest Hs IH Hall]; intros i acc Hi.
  - split; [done|]. simpl. split; [done|]. intros _. ring.
  - apply Forall_cons in Hr as [Hr Hrest]. apply Forall_cons in Hi as [Hir Hi].
    assert (Forall (λ r0, (Z.of_nat (S i) ≤ r0)%Z) rest) as Hi'.
    { eapply Forall_impl; [exact Hall|]. simpl. intros; lia. }
    destruct (ap_term_bounds i r step Hstep Hr Hir) as (Ht0 & Ht1 & Ht).
    cbn [ap_loop length seq fmap list_fmap]. rewrite wrap64_succ by done.
    set (t := f_div (f_mul (f_add _ _) step) (f_of_Z 2)) in *.
    destruct (ap_loop_bounds rest (S i) step (f_add acc t)) as [Hlo Hhi];
      [lra|done|done|done|].
    destruct (IH Hrest (S i) (f_add acc t) Hi') as [_ IHiff].
    set (res := ap_loop (S i) rest step (f_add acc t)) in *.
    rewrite Nat2Z.inj_succ. unfold Z.succ. rewrite inject_Z_plus.
    set (len := inject_Z (Z.of_nat (length rest))) in *.
    assert (0 <= len) as Hlen by (apply inject_Z_nonneg; lia).
    assert (0 <= len * step) as Hls by (apply Qmult_le_0_compat; lra).
    revert Hlo Hhi IHiff. simpl. change (inject_Z 1) with 1. intros Hlo Hhi IHiff.
    split; [intros _; lra|]. split.
    + intros E.
      assert (t == step) as Et by lra.
      apply Ht in Et as ->. f_equal. apply IHiff. lra.
    + intros E. injection E as Er Erest.
      apply Ht in Er. apply IHiff in Erest. lra.
Qed.

(** X2: for a non-empty sequence of strictly increasing zero-indexed
    ranks the average precision is positive, and it is 1 exactly when the
    positives occupy the ranks [0 .. n-1] (exact arithmetic). *)
Theorem ComputeAveragePrecision_perfect (positive_ranks : list Z) :
  positive_ranks ≠ [] → Forall is_rank positive_ranks →
  StronglySorted Z.lt positive_ranks →
  0 < ComputeAveragePrecision (F:=Q) positive_ranks ∧
  (ComputeAveragePrecision (F:=Q) positive_ranks == 1
   ↔ positive_ranks = Z.of_nat <$> seq 0 (length positive_ranks)).
Proof.
  intros Hne Hr Hs. unfold ComputeAveragePrecision.
  rewrite bool_decide_false by (by destruct positive_ranks).
  set (n := length positive_ranks) in *.
  assert (0 < inject_Z (Z.of_nat n)) as Hn.
  { apply inject_Z_pos. subst n. destruct positive_ranks; [done|simpl; lia]. }
  assert (0 < f_div (f_of_Z 1) (f_of_Z (Z.of_nat n))) as Hstep.
  { simpl. apply Qlt_shift_div_l; [done|]. by rewrite Qmult_0_l. }
  destruct (ap_loop_perfect positive_ranks 0 _ (f_of_Z 0) Hstep Hr Hs)
    as [Hpos Hiff].
  { eapply Forall_impl; [exact Hr|]. unfold is_rank. simpl. intros; lia. }
  split; [by apply Hpos|].
  assert (f_of_Z 0 + inject_Z (Z.of_nat n) * f_div (f_of_Z 1) (f_of_Z (Z.of_nat n)) == 1)
    as E.
  { simpl. field. intros Hz. rewrite Hz in Hn. by apply Qlt_irrefl in Hn. }
  fold n in Hiff. split.
  - intros H1. apply Hiff. rewrite H1. symmetry. exact E.
  - intros H1. apply Hiff in H1. rewrite H1. exact E.
Qed.

Lemma ComputeAveragePrecision_perfect_witness :
  0 < ComputeAveragePrecision (F:=Q) [0; 1; 2]%Z ∧
  (ComputeAveragePrecision (F:=Q) [0; 1; 2]%Z == 1
   ↔ [0; 1; 2]%Z = Z.of_nat <$> seq 0 (length [0; 1; 2]%Z)).
Proof.
  apply (ComputeAveragePrecision_perfect [0; 1; 2]%Z).
  - discriminate.
  - repeat constructor; vm_compute; congruence.
  - repeat constructor; lia.
Defined.
End Perfect_ranking.

(** ** More on precision and recall at fixed ranks *)

Lemma count_le_lt (l : list Z) (k : Z) : count_le l k = count_lt l (k + 1).
Proof.
  unfold count_le, count_lt. induction l as [|x l IH]; [done|].
  simpl. repeat case_bool_decide; simpl; try lia; by rewrite IH.
Qed.

Lemma count_le_length (l : list Z) (k : Z) : (count_le l k ≤ length l)%nat.
Proof. rewrite count_le_lt. apply count_lt_length. Qed.

Lemma count_le_all (l : list Z) (k : Z) :
  Forall (λ x, x ≤ k) l → count_le l k = length l.
Proof.
  intros Hall. rewrite count_le_lt. apply count_lt_all.
  eapply Forall_impl; [exact Hall|]. simpl. intros; lia.
Qed.

Lemma one_indexed_sorted (positive_ranks : list Z) :
  StronglySorted Z.lt positive_ranks →
  StronglySorted Z.lt ((λ r, r + 1) <$> positive_ranks).
Proof. apply StronglySorted_fmap. intros x y. lia. Qed.

Lemma py_max_last (first : Z) (others : list Z) :
  StronglySorted Z.le (first :: others) →
  last (first :: others) = Some (py_max first others).
Proof.
  unfold py_max. revert first. induction others as [|y others IH]; intros first Hs.
  - done.
  - apply StronglySorted_inv in Hs as [Hs Hall].
    apply Forall_cons in Hall as [Hxy _].
    cbn [foldl]. rewrite Z.max_r by done.
    rewrite <- IH by done. done.
Qed.

Section PR_values.
Context {F : Type} `{Arith F}.

(** The entries of the two outputs, for a non-empty [positive_ranks]. *)
Lemma ComputePRAtRanks_lookup (positive_ranks desired_pr_ranks : list Z)
    (first : Z) (others : list Z) (i : nat) (k : Z) :
  Forall is_rank positive_ranks →
  (λ r, r + 1) <$> positive_ranks = first :: others →
  desired_pr_ranks !! i = Some k →
  (ComputePRAtRanks (F:=F) positive_ranks desired_pr_ranks).2 !! i
  = Some (recall_at (first :: others) k) ∧
  (ComputePRAtRanks (F:=F) positive_ranks desired_pr_ranks).1 !! i
  = Some (precision_at (first :: others) (py_max first others) k).
Proof.
  intros Hr Hp Hk. unfold ComputePRAtRanks.
  assert ((λ r, wrap64 (r + 1)) <$> positive_ranks = first :: others) as ->.
  { rewrite <- Hp. apply list_fmap_ext. intros j r Hj. apply wrap64_succ.
    rewrite Forall_forall in Hr. apply Hr. by eapply list_elem_of_lookup_2. }
  destruct (pr_loop_spec desired_pr_ranks first others (length positive_ranks) 0
              (replicate (length desired_pr_ranks) (f_of_Z 0))
              (replicate (length desired_pr_ranks) (f_of_Z 0)))
    as (ps & rs & Heq & Hlp & Hlr & _ & Hnew).
  { rewrite length_replicate. lia. }
  { rewrite length_replicate. lia. }
  rewrite Heq. destruct (Hnew i k Hk) as [E1 E2]. simpl in E1, E2.
  split; [|done]. simpl. rewrite E1. unfold recall_at. do 3 f_equal.
  rewrite <- Hp. by rewrite length_fmap.
Qed.

(** X4: at every desired rank at or beyond the one-indexed position of the
    last positive the recall is [n/n] and the precision is [n/(last+1)],
    [n] being the number of positives: the precision does not depend on
    the desired rank any more (any float arithmetic). *)
Theorem ComputePRAtRanks_beyond_last (positive_ranks desired_pr_ranks : list Z)
    (last_rank : Z) (i : nat) (k : Z) :
  Forall is_rank positive_ranks → StronglySorted Z.lt positive_ranks →
  last positive_ranks = Some last_rank →
  desired_pr_ranks !! i = Some k → last_rank + 1 ≤ k →
  let n := Z.of_nat (length positive_ranks) in
  (ComputePRAtRanks (F:=F) positive_ranks desired_pr_ranks).2 !! i
  = Some (f_div (f_of_Z n) (f_of_Z n)) ∧
  (ComputePRAtRanks (F:=F) positive_ranks desired_pr_ranks).1 !! i
  = Some (f_div (f_of_Z n) (f_of_Z (last_rank + 1))).
Proof.
  intros Hr Hs Hlast Hk Hle n.
  destruct ((λ r, r + 1) <$> positive_ranks) as [|first others] eqn:Hp.
  { destruct positive_ranks; done. }
  destruct (ComputePRAtRanks_lookup positive_ranks desired_pr_ranks first others
              i k Hr Hp Hk) as [E1 E2].
  assert (py_max first others = last_rank + 1) as Hmx.
  { pose proof (py_max_last first others) as Hl. rewrite <- Hp in Hl at 1 2.
    rewrite fmap_last, Hlast in Hl. simpl in Hl.
    assert (Some (last_rank + 1) = Some (py_max first others)) as E; [|congruence].
    apply Hl. apply StronglySorted_lt_le, one_indexed_sorted, Hs. }
  assert (Forall (λ x, x ≤ last_rank + 1) (first :: others)) as Hall.
  { rewrite <- Hmx. apply py_max_spec. }
  assert (length (first :: others) = length positive_ranks) as Hlen.
  { rewrite <- Hp. by rewrite length_fmap. }
  rewrite E1, E2. unfold recall_at, precision_at. rewrite Hmx.
  rewrite Z.min_l by done.
  rewrite !count_le_all, Hlen; [done|done|].
  eapply Forall_impl; [exact Hall|]. simpl. intros; lia.
Qed.
End PR_values.

Lemma ComputePRAtRanks_beyond_last_witness :
  (ComputePRAtRanks (F:=float) [0; 7] [1; 10; 50]).2 !! 2%nat
  = Some (f_div (f_of_Z 2) (f_of_Z 2)) ∧
  (ComputePRAtRanks (F:=float) [0; 7] [1; 10; 50]).1 !! 2%nat
  = Some (f_div (f_of_Z 2) (f_of_Z (7 + 1))).
Proof.
  apply (ComputePRAtRanks_beyond_last (F:=float) [0; 7] [1; 10; 50] 7 2 50).
  - repeat constructor; vm_compute; congruence.
  - repeat constructor; lia.
  - reflexivity.
  - reflexivity.
  - lia.
Defined.

Section PR_unit.
Local Open Scope Q_scope.

Lemma count_ratio_unit (c : nat) (d : Z) :
  (0 < d)%Z → (Z.of_nat c ≤ d)%Z →
  0 <= inject_Z (Z.of_nat c) / inject_Z d <= 1.
Proof. intros Hd Hc. apply ratio_unit; lia. Qed.

Lemma pr_unit_interval (positive_ranks desired_pr_ranks : list Z) :
  Forall is_rank positive_ranks → StronglySorted Z.lt positive_ranks →
  Forall (λ k, (0 < k)%Z) desired_pr_ranks →
  Forall (λ x, 0 <= x <= 1)
    (ComputePRAtRanks (F:=Q) positive_ranks desired_pr_ranks).1 ∧
  Forall (λ x, 0 <= x <= 1)
    (ComputePRAtRanks (F:=Q) positive_ranks desired_pr_ranks).2.
Proof.
  intros Hr Hs Hd.
  destruct (ComputePRAtRanks_length (F:=Q) positive_ranks desired_pr_ranks)
    as [Hlp Hlr].
  destruct ((λ r, (r + 1)%Z) <$> positive_ranks) as [|first others] eqn:Hp.
  { assert (positive_ranks = []) as -> by (by destruct positive_ranks).
    unfold ComputePRAtRanks. simpl.
    split; apply Forall_replicate; by split. }
  assert (StronglySorted Z.lt (first :: others)) as Hps.
  { rewrite <- Hp. by apply one_indexed_sorted. }
  assert (Forall (λ x, (1 ≤ x)%Z) (first :: others)) as Hp1.
  { rewrite <- Hp. apply Forall_fmap. eapply Forall_impl; [exact Hr|].
    unfold is_rank. simpl. intros; lia. }
  destruct (py_max_spec first others) as [Hin _].
  assert (1 ≤ py_max first others)%Z as Hmx.
  { rewrite Forall_forall in Hp1. by apply Hp1. }
  assert (∀ i k, desired_pr_ranks !! i = Some k →
            ∃ p r, (ComputePRAtRanks (F:=Q) positive_ranks desired_pr_ranks).1 !! i
                   = Some p ∧
                   (ComputePRAtRanks (F:=Q) positive_ranks desired_pr_ranks).2 !! i
                   = Some r ∧ 0 <= p <= 1 ∧ 0 <= r <= 1) as Hcell.
  { intros i k Hk.
    destruct (ComputePRAtRanks_lookup (F:=Q) positive_ranks desired_pr_ranks
                first others i k Hr Hp Hk) as [E1 E2].
    assert (0 < k)%Z as Hk0.
    { rewrite Forall_forall in Hd. apply Hd. by eapply list_elem_of_lookup_2. }
    eexists _, _. split; [exact E2|]. split; [exact E1|]. split.
    - unfold precision_at. apply count_ratio_unit; [lia|].
      rewrite count_le_lt.
      pose proof (count_lt_bound (first :: others) 1
                    (Z.min (py_max first others) k + 1)%Z Hps Hp1). lia.
    - unfold recall_at. apply count_ratio_unit; [simpl; lia|].
      pose proof (count_le_length (first :: others) k). lia. }
  split; apply Forall_lookup; intros i x Hx.
  - destruct (lookup_lt_is_Some_2 desired_pr_ranks i) as [k Hk].
    { apply lookup_lt_Some in Hx. lia. }
    destruct (Hcell i k Hk) as (p & r & E1 & E2 & Hpb & Hrb). congruence.
  - destruct (lookup_lt_is_Some_2 desired_pr_ranks i) as [k Hk].
    { apply lookup_lt_Some in Hx. lia. }
    destruct (Hcell i k Hk) as (p & r & E1 & E2 & Hpb & Hrb). congruence.
Qed.

(** X3: for strictly increasing zero-indexed ranks and positive desired
    ranks every precision and every recall lies in [[0,1]] (exact
    arithmetic). *)
Theorem ComputePRAtRanks_unit (positive_ranks desired_pr_ranks : list Z) :
  Forall is_rank positive_ranks → StronglySorted Z.lt positive_ranks →
  Forall (λ k, (0 < k)%Z) desired_pr_ranks →
  Forall (λ x, 0 <= x <= 1)
    (ComputePRAtRanks (F:=Q) positive_ranks desired_pr_ranks).1 ∧
  Forall (λ x, 0 <= x <= 1)
    (ComputePRAtRanks (F:=Q) positive_ranks desired_pr_ranks).2.
Proof. apply pr_unit_interval. Qed.

Lemma ComputePRAtRanks_unit_witness :
  Forall (λ x, 0 <= x <= 1) (ComputePRAtRanks (F:=Q) [0; 7]%Z [1; 10]%Z).1 ∧
  Forall (λ x, 0 <= x <= 1) (ComputePRAtRanks (F:=Q) [0; 7]%Z [1; 10]%Z).2.
Proof.
  apply (ComputePRAtRanks_unit [0; 7]%Z [1; 10]%Z).
  - repeat constructor; vm_compute; congruence.
  - repeat constructor; lia.
  - repeat constructor.
Defined.
End PR_unit.

(** ** Errors of [ComputeMetrics] *)

Lemma sorted_last_largest (l : list Z) (x : Z) :
  StronglySorted Z.le l → last l = Some x → Forall (λ y, y ≤ x) l.
Proof.
  induction 1 as [|y l Hs IH Hall]; intros Hlast; [constructor|].
  destruct l as [|z l'].
  - injection Hlast as <-. repeat constructor. lia.
  - change (last (y :: z :: l')) with (last (z :: l')) in Hlast.
    pose proof (IH Hlast) as Hle. constructor; [|done].
    apply Forall_cons in Hall as [Hyz _]. apply Forall_cons in Hle as [Hzx _]. lia.
Qed.

Lemma largest_of_sorted (desired_pr_ranks : list Z) (k : Z) :
  k ∈ desired_pr_ranks →
  ∃ largest, last (merge_sort Z.le desired_pr_ranks) = Some largest ∧ k ≤ largest.
Proof.
  intros Hk.
  pose proof (merge_sort_Permutation Z.le desired_pr_ranks) as Hperm.
  pose proof (StronglySorted_merge_sort Z.le desired_pr_ranks) as Hs.
  destruct (last (merge_sort Z.le desired_pr_ranks)) as [largest|] eqn:Hlast.
  - exists largest. split; [done|].
    pose proof (sorted_last_largest _ _ Hs Hlast) as Hall.
    rewrite Forall_forall in Hall. apply Hall. by rewrite Hperm.
  - apply last_None in Hlast. rewrite Hlast in Hperm.
    apply Permutation_nil_l in Hperm. subst. by apply elem_of_nil in Hk.
Qed.

Section Errors.
Context {F : Type} `{Arith F}.

(** X5: the desired ranks are checked before anything else: whatever the
    ground truth, a desired rank above the number of index images raises
    [ValueError], and an empty list of desired ranks raises [IndexError]. *)
Theorem ComputeMetrics_checks_ranks_first (sorted_index_ids : ndarray2)
    (ground_truth : list (gmap string (list Z))) (desired_pr_ranks : list Z)
    (k : Z) :
  k ∈ desired_pr_ranks → k > Z.of_nat (shape1 sorted_index_ids) →
  ComputeMetrics (F:=F) sorted_index_ids ground_truth desired_pr_ranks
  = Error ValueError ∧
  ComputeMetrics (F:=F) sorted_index_ids ground_truth [] = Error IndexError.
Proof.
  intros Hk Hgt. split; [|done].
  destruct (largest_of_sorted desired_pr_ranks k Hk) as (largest & Hlast & Hle).
  unfold ComputeMetrics. rewrite Hlast. by rewrite bool_decide_true by lia.
Qed.

Lemma metrics_step_total (sorted_index_ids : ndarray2)
    (ground_truth : list (gmap string (list Z))) (desired_pr_ranks : list Z)
    (i : nat) (st : loop_state F) (g : gmap string (list Z)) :
  ground_truth !! i = Some g → is_protocol_entry g →
  is_Some (rows sorted_index_ids !! i) →
  ∃ st', metrics_step sorted_index_ids ground_truth desired_pr_ranks i st = Ok st'.
Proof.
  intros Hg [[ok Hok] [junk Hjunk]] [row Hrow].
  unfold metrics_step, list_getitem, getitem. rewrite Hg. cbn [bind].
  rewrite Hok, Hjunk. cbn [bind]. case_bool_decide; [by eexists|].
  rewrite Hrow. cbn [bind]. by eexists.
Qed.

Lemma metrics_step_fails (sorted_index_ids : ndarray2)
    (ground_truth : list (gmap string (list Z))) (desired_pr_ranks : list Z)
    (i : nat) (st : loop_state F) :
  match ground_truth !! i with
  | None =>
      metrics_step sorted_index_ids ground_truth desired_pr_ranks i st
      = Error IndexError
  | Some g =>
      ¬ is_protocol_entry g →
      metrics_step sorted_index_ids ground_truth desired_pr_ranks i st
      = Error KeyError
  end.
Proof.
  unfold metrics_step, list_getitem, getitem.
  destruct (ground_truth !! i) as [g|]; [|done]. cbn [bind].
  intros Hg. destruct (g !! "ok"%string) as [ok|] eqn:Hok; [|done].
  cbn [bind]. destruct (g !! "junk"%string) as [junk|] eqn:Hjunk; [|done].
  exfalso. apply Hg. split; by eexists.
Qed.

Lemma metrics_loop_fails (sorted_index_ids : ndarray2)
    (ground_truth : list (gmap string (list Z))) (desired_pr_ranks : list Z)
    (j : nat) (e : exn) (n i : nat) (st : loop_state F) :
  (i ≤ j < i + n)%nat →
  (∀ k st, (i ≤ k < j)%nat →
     ∃ st', metrics_step sorted_index_ids ground_truth desired_pr_ranks k st
            = Ok st') →
  (∀ st, metrics_step sorted_index_ids ground_truth desired_pr_ranks j st
         = Error e) →
  metrics_loop sorted_index_ids ground_truth desired_pr_ranks n i st = Error e.
Proof.
  intros Hj Hgood Hbad. revert i st Hj Hgood.
  induction n as [|n IH]; intros i st Hj Hgood; [lia|].
  cbn [metrics_loop]. destruct (decide (i = j)) as [->|Hij].
  - by rewrite Hbad.
  - destruct (Hgood i st) as [st' Hst]; [lia|]. rewrite Hst. cbn [bind].
    apply IH; [lia|]. intros k st0 Hk. apply Hgood. lia.
Qed.

Lemma ComputeMetrics_first_failure (sorted_index_ids : ndarray2)
    (ground_truth : list (gmap string (list Z))) (desired_pr_ranks : list Z)
    (j : nat) (e : exn) :
  is_matrix sorted_index_ids →
  desired_pr_ranks ≠ [] →
  Forall (λ k, k ≤ Z.of_nat (shape1 sorted_index_ids)) desired_pr_ranks →
  (j < shape0 sorted_index_ids)%nat → (j ≤ length ground_truth)%nat →
  Forall is_protocol_entry (take j ground_truth) →
  (∀ st, metrics_step sorted_index_ids ground_truth desired_pr_ranks j st
         = Error e) →
  ComputeMetrics (F:=F) sorted_index_ids ground_truth desired_pr_ranks = Error e.
Proof.
  intros [Hrows _] Hne Hall Hj Hlen Hgood Hbad.
  destruct (largest_desired_rank sorted_index_ids desired_pr_ranks Hne Hall)
    as (largest & Hlast & Hle).
  unfold ComputeMetrics. rewrite Hlast, bool_decide_false by lia.
  rewrite (metrics_loop_fails sorted_index_ids ground_truth desired_pr_ranks
             j e); [done|lia| |done].
  intros k st Hk.
  destruct (lookup_lt_is_Some_2 ground_truth k) as [g Hg]; [lia|].
  apply (metrics_step_total _ _ _ _ _ g); [done| |].
  - rewrite Forall_forall in Hgood. apply Hgood.
    apply list_elem_of_lookup. exists k. rewrite lookup_take_lt by lia. done.
  - apply lookup_lt_is_Some_2. lia.
Qed.

(** X6: once the rank check has passed, the first query whose record is
    missing raises [IndexError] and the first whose record lacks ['ok'] or
    ['junk'] raises [KeyError], whether or not that query has positives. *)
Theorem ComputeMetrics_bad_ground_truth (sorted_index_ids : ndarray2)
    (ground_truth : list (gmap string (list Z))) (desired_pr_ranks : list Z)
    (j : nat) :
  is_matrix sorted_index_ids →
  desired_pr_ranks ≠ [] →
  Forall (λ k, k ≤ Z.of_nat (shape1 sorted_index_ids)) desired_pr_ranks →
  (j < shape0 sorted_index_ids)%nat →
  Forall is_protocol_entry (take j ground_truth) →
  match ground_truth !! j with
  | None =>
      ComputeMetrics (F:=F) sorted_index_ids ground_truth desired_pr_ranks
      = Error IndexError
  | Some g =>
      ¬ is_protocol_entry g →
      ComputeMetrics (F:=F) sorted_index_ids ground_truth desired_pr_ranks
      = Error KeyError
  end.
Proof.
  intros Hm Hne Hall Hj Hgood.
  destruct (ground_truth !! j) as [g|] eqn:Hg.
  - intros Hbad.
    apply (ComputeMetrics_first_failure _ _ _ j); try done.
    + apply lookup_lt_Some in Hg. lia.
    + intros st.
      pose proof (metrics_step_fails sorted_index_ids ground_truth
                    desired_pr_ranks j st) as Hs.
      rewrite Hg in Hs. by apply Hs.
  - apply lookup_ge_None in Hg.
    apply (ComputeMetrics_first_failure _ _ _ (length ground_truth));
      try done; [lia| |].
    + by rewrite take_ge in Hgood |- * by lia.
    + intros st.
      pose proof (metrics_step_fails sorted_index_ids ground_truth
                    desired_pr_ranks (length ground_truth) st) as Hs.
      by rewrite lookup_ge_None_2 in Hs by lia.
Qed.
End Errors.

Lemma ComputeMetrics_checks_ranks_first_witness :
  ComputeMetrics (F:=float) example_ids [] [1; 4] = Error ValueError ∧
  ComputeMetrics (F:=float) example_ids [] [] = Error IndexError.
Proof.
  apply (ComputeMetrics_checks_ranks_first (F:=float) example_ids [] [1; 4] 4).
  - right; left.
  - vm_compute. reflexivity.
Defined.

Lemma ComputeMetrics_bad_ground_truth_witness :
  ComputeMetrics (F:=float) example_ids
    [ <["ok"%string := [1]]> {["junk"%string := [0]]};
      {["ok"%string := [2]]} ] [1; 2]
  = Error KeyError.
Proof.
  apply (ComputeMetrics_bad_ground_truth (F:=float) example_ids
           [ <["ok"%string := [1]]> {["junk"%string := [0]]};
             {["ok"%string := [2]]} ] [1; 2] 1).
  - split; [reflexivity|]. repeat constructor.
  - discriminate.
  - repeat constructor; vm_compute; congruence.
  - vm_compute. lia.
  - repeat constructor; eexists; reflexivity.
  - intros [_ [junk Hjunk]]. vm_compute in Hjunk. discriminate.
Defined.

(** ** The ranks [ComputeMetrics] hands on *)

Lemma filter_seq_sorted (f : nat → bool) (start len : nat) :
  StronglySorted lt (List.filter f (seq start len)) ∧
  Forall (λ r, (start ≤ r < start + len)%nat) (List.filter f (seq start len)).
Proof.
  revert start. induction len as [|len IH]; intros start; simpl.
  - split; constructor.
  - destruct (IH (S start)) as [Hs Hb].
    assert (Forall (λ r, (start ≤ r < start + S len)%nat)
              (List.filter f (seq (S start) len))) as Hb'.
    { eapply Forall_impl; [exact Hb|]. simpl. intros; lia. }
    destruct (f start); [|done]. split.
    + constructor; [done|]. eapply Forall_impl; [exact Hb|]. simpl. intros; lia.
    + constructor; [lia|done].
Qed.

Lemma ranks_in_sorted (num_index_images : nat) (row ids : list Z) :
  StronglySorted Z.lt (ranks_in num_index_images row ids) ∧
  Forall (λ r, 0 ≤ r < Z.of_nat num_index_images)
    (ranks_in num_index_images row ids).
Proof.
  unfold ranks_in. set (f := λ r : nat, _).
  destruct (filter_seq_sorted f 0 num_index_images) as [Hs Hb]. split.
  - eapply StronglySorted_fmap; [|exact Hs]. intros x y. lia.
  - apply Forall_fmap. eapply Forall_impl; [exact Hb|]. simpl. intros; lia.
Qed.

Lemma ranks_in_elem (num_index_images : nat) (row ids : list Z) (r : Z) :
  r ∈ ranks_in num_index_images row ids ↔
  ∃ i x, r = Z.of_nat i ∧ (i < num_index_images)%nat ∧
         row !! i = Some x ∧ x ∈ ids.
Proof.
  unfold ranks_in. rewrite list_elem_of_fmap. split.
  - intros (i & -> & Hi). apply list_elem_of_In, List.filter_In in Hi as [Hi Hf].
    apply List.in_seq in Hi. destruct (row !! i) as [x|] eqn:Hx; [|done].
    apply bool_decide_eq_true in Hf. exists i, x. split; [done|]. split; [lia|]. by split.
  - intros (i & x & -> & Hi & Hx & Hin). exists i. split; [done|].
    apply list_elem_of_In, List.filter_In. split.
    + apply List.in_seq. lia.
    + rewrite Hx. by apply bool_decide_eq_true.
Qed.

Lemma ranks_in_disjoint (num_index_images : nat) (row ok junk : list Z) :
  (∀ x, x ∈ ok → x ∉ junk) →
  ∀ r, r ∈ ranks_in num_index_images row ok →
       r ∉ ranks_in num_index_images row junk.
Proof.
  intros Hdisj r Hok Hjunk.
  apply ranks_in_elem in Hok as (i & x & -> & _ & Hx & Hin).
  apply ranks_in_elem in Hjunk as (i' & x' & E & _ & Hx' & Hin').
  assert (i' = i) as -> by lia. rewrite Hx in Hx'. injection Hx' as <-.
  by apply (Hdisj x).
Qed.

Lemma ranks_in_adjusted (sorted_index_ids : ndarray2)
    (g : gmap string (list Z)) (i : nat) (ok junk row : list Z) :
  Z.of_nat (shape1 sorted_index_ids) ≤ int64_max →
  g !! "ok"%string = Some ok → g !! "junk"%string = Some junk →
  rows sorted_index_ids !! i = Some row →
  adjusted_ranks_of sorted_index_ids g i
  = adjusted_rank (ranks_in (shape1 sorted_index_ids) row junk)
      <$> ranks_in (shape1 sorted_index_ids) row ok.
Proof.
  intros HN Hok Hjunk Hrow. unfold adjusted_ranks_of.
  rewrite Hok, Hjunk, Hrow.
  destruct (ranks_in_sorted (shape1 sorted_index_ids) row ok) as [Hs Hb].
  destruct (ranks_in_sorted (shape1 sorted_index_ids) row junk) as [Hs' Hb'].
  apply adjusted_sorted; [| |by apply StronglySorted_lt_le|done].
  - eapply Forall_impl; [exact Hb|]. unfold is_int64, int64_min. simpl.
    intros; lia.
  - eapply Forall_impl; [exact Hb'|]. unfold is_int64, int64_min. simpl.
    intros; lia.
Qed.

Section Query_values.
Context {F : Type} `{Arith F}.

(** X7: inside [ComputeMetrics] the positions of the positives and of the
    junk images of a query are strictly increasing, so the rank adjustment
    is applied within its precondition: the per-query outputs of a query
    with ground truth are the average precision and the precisions and
    recalls of the positive positions, each lowered by the number of junk
    positions before it. *)
Theorem ComputeMetrics_query_values
    (sorted_index_ids : ndarray2) (ground_truth : list (gmap string (list Z)))
    (desired_pr_ranks : list Z) :
  is_matrix sorted_index_ids →
  Z.of_nat (shape1 sorted_index_ids) ≤ int64_max →
  length ground_truth = shape0 sorted_index_ids →
  Forall is_protocol_entry ground_truth →
  desired_pr_ranks ≠ [] →
  Forall (λ k, k ≤ Z.of_nat (shape1 sorted_index_ids)) desired_pr_ranks →
  Exists (λ g, has_ground_truth g = true) ground_truth →
  ∃ m : metrics F,
    ComputeMetrics sorted_index_ids ground_truth desired_pr_ranks = Ok m ∧
    ∀ i g ok junk row,
      ground_truth !! i = Some g → rows sorted_index_ids !! i = Some row →
      g !! "ok"%string = Some ok → g !! "junk"%string = Some junk → ok ≠ [] →
      let positive_ranks := ranks_in (shape1 sorted_index_ids) row ok in
      let junk_ranks := ranks_in (shape1 sorted_index_ids) row junk in
      let adjusted := adjusted_rank junk_ranks <$> positive_ranks in
      StronglySorted Z.lt positive_ranks ∧ StronglySorted Z.lt junk_ranks ∧
      average_precisions m !! i = Some (Some (ComputeAveragePrecision adjusted)) ∧
      precisions m !! i
      = Some (Some <$> (ComputePRAtRanks adjusted desired_pr_ranks).1) ∧
      recalls m !! i
      = Some (Some <$> (ComputePRAtRanks adjusted desired_pr_ranks).2).
Proof.
  intros [Hrows Hcols] HN Hgt Hkeys Hne Hall Hsome.
  destruct (ComputeMetrics_run (F:=F) sorted_index_ids ground_truth
              desired_pr_ranks Hgt Hrows Hkeys Hne Hall) as (st & Hinv & Hrun).
  pose proof (num_empty_some ground_truth Hsome) as Hlt.
  rewrite Hrun. cbn zeta. rewrite bool_decide_false by lia.
  eexists. split; [done|].
  cbn [average_precisions precisions recalls].
  intros i g ok junk row Hg Hrow Hok Hjunk Hnonempty. cbn zeta.
  destruct (ranks_in_sorted (shape1 sorted_index_ids) row ok) as [Hs _].
  destruct (ranks_in_sorted (shape1 sorted_index_ids) row junk) as [Hs' _].
  split; [done|]. split; [done|].
  assert (has_ground_truth g = true) as Hvalid.
  { unfold has_ground_truth. rewrite Hok. by destruct ok. }
  pose proof (inv_val _ _ _ _ _ Hinv i g) as Hval. cbn zeta in Hval.
  rewrite (ranks_in_adjusted sorted_index_ids g i ok junk row) in Hval by done.
  apply Hval; [|done|done]. apply lookup_lt_Some in Hg. lia.
Qed.
End Query_values.

Lemma ComputeMetrics_query_values_witness :
  ∃ m : metrics float,
    ComputeMetrics example_ids example_ground_truth [1; 2] = Ok m ∧
    average_precisions m !! 0%nat
    = Some (Some (ComputeAveragePrecision (adjusted_rank [0] <$> [1]))).
Proof.
  destruct (ComputeMetrics_query_values (F:=float) example_ids
              example_ground_truth [1; 2]) as (m & Hm & Hq).
  - split; [reflexivity|]. repeat constructor.
  - vm_compute. congruence.
  - reflexivity.
  - repeat constructor; eexists; reflexivity.
  - discriminate.
  - repeat constructor; vm_compute; congruence.
  - left. reflexivity.
  - exists m. split; [exact Hm|].
    destruct (Hq 0%nat _ [1] [0] [0; 1; 2] eq_refl eq_refl eq_refl eq_refl)
      as (_ & _ & Hap & _); [discriminate|].
    exact Hap.
Defined.

(** ** Aggregated metrics in exact arithmetic *)

Section Means_unit.
Local Open Scope Q_scope.

Lemma ap_unit_interval (positive_ranks : list Z) :
  Forall is_rank positive_ranks → StronglySorted Z.lt positive_ranks →
  0 <= ComputeAveragePrecision (F:=Q) positive_ranks <= 1.
Proof.
  intros Hr Hs. unfold ComputeAveragePrecision. case_bool_decide as Hlen.
  - split; [apply Qle_refl|done].
  - set (n := length positive_ranks) in *.
    assert (0 < inject_Z (Z.of_nat n)) as Hn by (apply inject_Z_pos; lia).
    destruct (ap_loop_bounds positive_ranks 0 (f_div (f_of_Z 1) (f_of_Z (Z.of_nat n)))
                (f_of_Z 0)) as [Hlo Hhi]; try done.
    + simpl. apply Qle_shift_div_l; [done|]. by rewrite Qmult_0_l.
    + eapply Forall_impl; [exact Hr|]. unfold is_rank. simpl. intros; lia.
    + split; [exact Hlo|]. eapply Qle_trans; [exact Hhi|].
      fold n. simpl. apply Qle_lteq. right. field.
      intros Hz. rewrite Hz in Hn. by apply Qlt_irrefl in Hn.
Qed.

Lemma foldl_Qplus_bounds (l : list Q) (acc : Q) :
  Forall (λ x, 0 <= x <= 1) l →
  acc <= foldl Qplus acc l <= acc + inject_Z (Z.of_nat (length l)).
Proof.
  intros Hl. revert acc. induction Hl as [|x l Hx _ IH]; intros acc.
  - change (inject_Z (Z.of_nat (length (@nil Q)))) with 0. simpl. lra.
  - cbn [foldl length]. destruct (IH (acc + x)) as [H1 H2].
    rewrite Nat2Z.inj_succ. unfold Z.succ. rewrite inject_Z_plus.
    change (inject_Z 1) with 1. lra.
Qed.

Lemma valid_cells_length (ground_truth : list (gmap string (list Z)))
    (cells : list (option Q)) :
  length ground_truth = length cells →
  (length (valid_cells ground_truth cells) + num_empty ground_truth
   = length ground_truth)%nat.
Proof.
  revert cells. induction ground_truth as [|g gts IH]; intros [|c cells] Hlen;
    try done.
  injection Hlen as Hlen. specialize (IH cells Hlen).
  unfold valid_cells, num_empty in *. rewrite length_fmap in *. simpl.
  destruct (has_ground_truth g); simpl; lia.
Qed.

Lemma valid_cells_Forall (P : Q → Prop)
    (ground_truth : list (gmap string (list Z))) (cells : list (option Q)) :
  (∀ i g c, ground_truth !! i = Some g → has_ground_truth g = true →
            cells !! i = Some c → ∃ v, c = Some v ∧ P v) →
  Forall P (valid_cells ground_truth cells).
Proof.
  revert cells. induction ground_truth as [|g gts IH]; intros cells Hc.
  - constructor.
  - destruct cells as [|c cells]; [constructor|].
    assert (Forall P (valid_cells gts cells)) as Hrest.
    { apply IH. intros i g' c' Hg Hv Hcell. by apply (Hc (S i) g' c'). }
    unfold valid_cells in *. simpl.
    destruct (has_ground_truth g) eqn:Hv; [|done].
    simpl. constructor; [|done].
    destruct (Hc 0%nat g c eq_refl Hv eq_refl) as (v & -> & Hv'). done.
Qed.

Lemma sum_valid_unit (ground_truth : list (gmap string (list Z)))
    (cells : list (option Q)) :
  length ground_truth = length cells →
  (∀ i g c, ground_truth !! i = Some g → has_ground_truth g = true →
            cells !! i = Some c → ∃ v, c = Some v ∧ 0 <= v <= 1) →
  0 <= sum_valid ground_truth cells
    <= inject_Z (Z.of_nat (length ground_truth) - Z.of_nat (num_empty ground_truth)).
Proof.
  intros Hlen Hc. unfold sum_valid, f_sum.
  pose proof (valid_cells_length ground_truth cells Hlen) as Hl.
  destruct (foldl_Qplus_bounds (valid_cells ground_truth cells) (f_of_Z 0))
    as [H1 H2].
  { by apply valid_cells_Forall. }
  simpl in *. split; [done|]. eapply Qle_trans; [exact H2|].
  rewrite Qplus_0_l. rewrite <- Zle_Qle. lia.
Qed.

Lemma mean_unit (s : Q) (n : Z) :
  (0 < n)%Z → 0 <= s <= inject_Z n → 0 <= s / inject_Z n <= 1.
Proof.
  intros Hn [H0 H1]. assert (0 < inject_Z n) as Hn' by (by apply inject_Z_pos).
  split.
  - apply Qle_shift_div_l; [done|]. by rewrite Qmult_0_l.
  - apply Qle_shift_div_r; [done|]. by rewrite Qmult_1_l.
Qed.

(** The adjusted ranks of a query without overlap between positives and
    junk are again zero-indexed ranks in strictly increasing order. *)
Lemma adjusted_ranks_of_ranks (sorted_index_ids : ndarray2)
    (g : gmap string (list Z)) (i : nat) :
  Z.of_nat (shape1 sorted_index_ids) ≤ int64_max →
  is_protocol_entry g → disjoint_entry g →
  is_Some (rows sorted_index_ids !! i) →
  Forall is_rank (adjusted_ranks_of sorted_index_ids g i) ∧
  StronglySorted Z.lt (adjusted_ranks_of sorted_index_ids g i).
Proof.
  intros HN [[ok Hok] [junk Hjunk]] Hdisj [row Hrow].
  rewrite (ranks_in_adjusted sorted_index_ids g i ok junk row) by done.
  destruct (ranks_in_sorted (shape1 sorted_index_ids) row ok) as [Hs Hb].
  destruct (ranks_in_sorted (shape1 sorted_index_ids) row junk) as [Hs' Hb'].
  split.
  - apply Forall_fmap. eapply Forall_impl; [exact Hb|]. simpl. intros r Hr.
    pose proof (adjusted_rank_nonneg
                  (ranks_in (shape1 sorted_index_ids) row junk) r Hs') as Ha.
    unfold is_rank. destruct Ha; [|lia|lia].
    eapply Forall_impl; [exact Hb'|]. simpl. intros; lia.
  - apply adjusted_ranks_increasing; [done|done|].
    apply ranks_in_disjoint. by apply (Hdisj ok junk).
Qed.

(** X8: in exact arithmetic, on well-formed input with positive desired
    ranks where no query has an image that is both positive and junk and
    at least one query has a positive, [ComputeMetrics] returns and every
    aggregate lies in [[0,1]]: the mean average precision and each mean
    precision and mean recall. *)
Theorem ComputeMetrics_means_unit
    (sorted_index_ids : ndarray2) (ground_truth : list (gmap string (list Z)))
    (desired_pr_ranks : list Z) :
  is_matrix sorted_index_ids →
  (Z.of_nat (shape1 sorted_index_ids) ≤ int64_max)%Z →
  length ground_truth = shape0 sorted_index_ids →
  Forall is_protocol_entry ground_truth →
  Forall disjoint_entry ground_truth →
  desired_pr_ranks ≠ [] →
  Forall (λ k, (0 < k ≤ Z.of_nat (shape1 sorted_index_ids))%Z) desired_pr_ranks →
  Exists (λ g, has_ground_truth g = true) ground_truth →
  ∃ m : metrics Q,
    ComputeMetrics sorted_index_ids ground_truth desired_pr_ranks = Ok m ∧
    0 <= mean_average_precision m <= 1 ∧
    Forall (λ x, 0 <= x <= 1) (mean_precisions m) ∧
    Forall (λ x, 0 <= x <= 1) (mean_recalls m).
Proof.
  intros [Hrows Hcols] HN Hgt Hkeys Hdisj Hne Hall Hsome.
  assert (Forall (λ k, (k ≤ Z.of_nat (shape1 sorted_index_ids))%Z)
            desired_pr_ranks) as Hle.
  { eapply Forall_impl; [exact Hall|]. simpl. intros; lia. }
  assert (Forall (λ k, (0 < k)%Z) desired_pr_ranks) as Hpos.
  { eapply Forall_impl; [exact Hall|]. simpl. intros; lia. }
  destruct (ComputeMetrics_run (F:=Q) sorted_index_ids ground_truth
              desired_pr_ranks Hgt Hrows Hkeys Hne Hle) as (st & Hinv & Hrun).
  pose proof (num_empty_some ground_truth Hsome) as Hlt.
  rewrite Hrun. cbn zeta. rewrite bool_decide_false by lia.
  destruct Hinv as [Hal Hpl Hrl _ _ Hval Hmap Hmp Hmr].
  rewrite <- Hgt, firstn_all in Hmap, Hmp, Hmr.
  rewrite Hgt in Hmap, Hmp, Hmr.
  rewrite <- Hal, firstn_all in Hmap.
  rewrite <- Hpl, firstn_all in Hmp.
  rewrite <- Hrl, firstn_all in Hmr.
  set (nv := (Z.of_nat (shape0 sorted_index_ids)
              - Z.of_nat (num_empty ground_truth))%Z) in *.
  assert (0 < nv)%Z as Hnv by (unfold nv; lia).
  assert (∀ i g, ground_truth !! i = Some g → has_ground_truth g = true →
            Forall is_rank (adjusted_ranks_of sorted_index_ids g i) ∧
            StronglySorted Z.lt (adjusted_ranks_of sorted_index_ids g i))
    as Hranks.
  { intros i g Hg _. apply adjusted_ranks_of_ranks; [done| | |].
    - rewrite Forall_forall in Hkeys. apply Hkeys.
      by eapply list_elem_of_lookup_2.
    - rewrite Forall_forall in Hdisj. apply Hdisj.
      by eapply list_elem_of_lookup_2.
    - apply lookup_lt_is_Some_2. apply lookup_lt_Some in Hg. lia. }
  eexists. split; [done|].
  cbn [mean_average_precision mean_precisions mean_recalls].
  split; [|split].
  - rewrite Hmap. apply mean_unit; [done|]. subst nv. rewrite <- Hgt.
    apply sum_valid_unit; [lia|].
    intros i g c Hg Hv Hc. destruct (Hranks i g Hg Hv) as [Hr Hs].
    destruct (Hval i g) as (Hap & _ & _);
      [apply lookup_lt_Some in Hg; lia|done|done|].
    cbn zeta in Hap. rewrite Hc in Hap. injection Hap as ->.
    eexists. split; [done|]. by apply ap_unit_interval.
  - rewrite Hmp. rewrite !Forall_fmap, Forall_forall.
    intros c Hc%elem_of_seq. simpl. apply mean_unit; [done|].
    subst nv. rewrite <- Hgt.
    apply sum_valid_unit; [unfold column; rewrite length_fmap; lia|].
    intros i g cell Hg Hv Hcell. destruct (Hranks i g Hg Hv) as [Hr Hs].
    destruct (Hval i g) as (_ & Hp & _);
      [apply lookup_lt_Some in Hg; lia|done|done|].
    cbn zeta in Hp.
    unfold column in Hcell. rewrite list_lookup_fmap, Hp in Hcell.
    simpl in Hcell. injection Hcell as <-. rewrite list_lookup_fmap.
    destruct (pr_unit_interval _ desired_pr_ranks Hr Hs Hpos) as [HP _].
    destruct (ComputePRAtRanks_length (F:=Q)
                (adjusted_ranks_of sorted_index_ids g i) desired_pr_ranks)
      as [Hlp _].
    destruct (lookup_lt_is_Some_2
                (ComputePRAtRanks (F:=Q)
                   (adjusted_ranks_of sorted_index_ids g i)
                   desired_pr_ranks).1 c) as [v Hv']; [lia|].
    rewrite Hv'. simpl. exists v. split; [done|].
    rewrite Forall_forall in HP. apply HP. by eapply list_elem_of_lookup_2.
  - rewrite Hmr. rewrite !Forall_fmap, Forall_forall.
    intros c Hc%elem_of_seq. simpl. apply mean_unit; [done|].
    subst nv. rewrite <- Hgt.
    apply sum_valid_unit; [unfold column; rewrite length_fmap; lia|].
    intros i g cell Hg Hv Hcell. destruct (Hranks i g Hg Hv) as [Hr Hs].
    destruct (Hval i g) as (_ & _ & Hp);
      [apply lookup_lt_Some in Hg; lia|done|done|].
    cbn zeta in Hp.
    unfold column in Hcell. rewrite list_lookup_fmap, Hp in Hcell.
    simpl in Hcell. injection Hcell as <-. rewrite list_lookup_fmap.
    destruct (pr_unit_interval _ desired_pr_ranks Hr Hs Hpos) as [_ HP].
    destruct (ComputePRAtRanks_length (F:=Q)
                (adjusted_ranks_of sorted_index_ids g i) desired_pr_ranks)
      as [_ Hlp].
    destruct (lookup_lt_is_Some_2
                (ComputePRAtRanks (F:=Q)
                   (adjusted_ranks_of sorted_index_ids g i)
                   desired_pr_ranks).2 c) as [v Hv']; [lia|].
    rewrite Hv'. simpl. exists v. split; [done|].
    rewrite Forall_forall in HP. apply HP. by eapply list_elem_of_lookup_2.
Qed.
End Means_unit.

Lemma ComputeMetrics_means_unit_witness :
  ∃ m : metrics Q,
    ComputeMetrics example_ids example_ground_truth [1; 2] = Ok m ∧
    (0 <= mean_average_precision m <= 1)%Q ∧
    Forall (λ x, 0 <= x <= 1)%Q (mean_precisions m) ∧
    Forall (λ x, 0 <= x <= 1)%Q (mean_recalls m).
Proof.
  apply (ComputeMetrics_means_unit example_ids example_ground_truth [1; 2]).
  - split; [reflexivity|]. repeat constructor.
  - vm_compute. congruence.
  - reflexivity.
  - repeat constructor; eexists; reflexivity.
  - repeat constructor; intros ok junk Hok Hjunk x Hx Hx';
      vm_compute in Hok, Hjunk; injection Hok as <-; injection Hjunk as <-;
      apply list_elem_of_In in Hx, Hx'; simpl in Hx, Hx'; lia.
  - discriminate.
  - repeat constructor; vm_compute; congruence.
  - left. reflexivity.
Defined.

(** ** The three protocols and [ComputeMetrics] *)

Lemma _ParseGroundTruth_lookup (ok_list junk_list : list (list Z)) :
  _ParseGroundTruth ok_list junk_list !! "ok"%string = Some (concat ok_list) ∧
  _ParseGroundTruth ok_list junk_list !! "junk"%string
  = Some (concat junk_list) ∧
  ∀ key : string, key ≠ "ok"%string → key ≠ "junk"%string →
    _ParseGroundTruth ok_list junk_list !! key = None.
Proof.
  unfold _ParseGroundTruth. split; [|split].
  - rewrite lookup_insert_ne by done. apply lookup_insert_eq.
  - apply lookup_insert_eq.
  - intros key H1 H2. by rewrite !lookup_insert_ne by done.
Qed.

Lemma ParseEasyMediumHardGroundTruth_run
    (ground_truth : list (gmap string (list Z))) :
  Forall has_keys ground_truth →
  ParseEasyMediumHardGroundTruth ground_truth
  = Ok {| easy_ground_truth := easy_entry <$> ground_truth;
          medium_ground_truth := medium_entry <$> ground_truth;
          hard_ground_truth := hard_entry <$> ground_truth |}.
Proof.
  intros Hk. unfold ParseEasyMediumHardGroundTruth.
  by rewrite parse_loop_total by done.
Qed.

(** X9: the three protocols of a query hold the same images: in each of
    them the arrays under ['ok'] and ['junk'] together are a rearrangement
    of the query's easy, hard and junk images, and the record has no other
    key. *)
Theorem ParseEasyMediumHardGroundTruth_keeps_images
    (ground_truth : list (gmap string (list Z))) :
  Forall has_keys ground_truth →
  ∃ s, ParseEasyMediumHardGroundTruth ground_truth = Ok s ∧
    ∀ i g p, ground_truth !! i = Some g → p ∈ protocols_of s →
      ∃ d ok junk,
        p !! i = Some d ∧
        d !! "ok"%string = Some ok ∧ d !! "junk"%string = Some junk ∧
        ok ++ junk
        ≡ₚ gt_field g "easy" ++ gt_field g "hard" ++ gt_field g "junk" ∧
        ∀ key : string, key ≠ "ok"%string → key ≠ "junk"%string →
          d !! key = None.
Proof.
  intros Hk. rewrite ParseEasyMediumHardGroundTruth_run by done.
  eexists. split; [done|]. intros i g p Hg Hp.
  unfold protocols_of in Hp.
  cbn [easy_ground_truth medium_ground_truth hard_ground_truth] in Hp.
  set (e := gt_field g "easy"). set (h := gt_field g "hard").
  set (j := gt_field g "junk").
  apply elem_of_cons in Hp as [->|Hp]; [|apply elem_of_cons in Hp as [->|Hp];
    [|apply list_elem_of_singleton in Hp as ->]].
  - destruct (_ParseGroundTruth_lookup [e] [j; h]) as (Hok & Hjunk & Hno).
    exists (easy_entry g), (concat [e]), (concat [j; h]).
    rewrite list_lookup_fmap, Hg. repeat split; try done.
    simpl. rewrite !app_nil_r. f_equiv. apply Permutation_app_comm.
  - destruct (_ParseGroundTruth_lookup [e; h] [j]) as (Hok & Hjunk & Hno).
    exists (medium_entry g), (concat [e; h]), (concat [j]).
    rewrite list_lookup_fmap, Hg. repeat split; try done.
    simpl. by rewrite !app_nil_r, <- app_assoc.
  - destruct (_ParseGroundTruth_lookup [h] [j; e]) as (Hok & Hjunk & Hno).
    exists (hard_entry g), (concat [h]), (concat [j; e]).
    rewrite list_lookup_fmap, Hg. repeat split; try done.
    simpl. rewrite !app_nil_r.
    rewrite (Permutation_app_comm j e), app_assoc.
    rewrite (Permutation_app_comm h e). by rewrite <- app_assoc.
Qed.

Lemma ParseEasyMediumHardGroundTruth_keeps_images_witness :
  ∃ s, ParseEasyMediumHardGroundTruth
         [ {[ "easy"%string := [4]; "hard"%string := [7; 2];
              "junk"%string := [5] ]} ] = Ok s ∧
    ∀ i g p,
      [ ({[ "easy"%string := [4]; "hard"%string := [7; 2];
            "junk"%string := [5] ]} : gmap string (list Z)) ] !! i = Some g →
      p ∈ protocols_of s →
      ∃ d ok junk,
        p !! i = Some d ∧
        d !! "ok"%string = Some ok ∧ d !! "junk"%string = Some junk ∧
        ok ++ junk
        ≡ₚ gt_field g "easy" ++ gt_field g "hard" ++ gt_field g "junk" ∧
        ∀ key : string, key ≠ "ok"%string → key ≠ "junk"%string →
          d !! key = None.
Proof.
  apply ParseEasyMediumHardGroundTruth_keeps_images.
  repeat constructor; eexists; reflexivity.
Defined.

(** X10: when no image of a query is in two of its easy, hard and junk
    lists, no record of any of the three protocols has an image that is
    both positive and junk. *)
Theorem ParseEasyMediumHardGroundTruth_disjoint
    (ground_truth : list (gmap string (list Z))) :
  Forall has_keys ground_truth →
  Forall pairwise_disjoint ground_truth →
  ∃ s, ParseEasyMediumHardGroundTruth ground_truth = Ok s ∧
    Forall (λ p, Forall is_protocol_entry p ∧ Forall disjoint_entry p)
      (protocols_of s).
Proof.
  intros Hk Hd. rewrite ParseEasyMediumHardGroundTruth_run by done.
  eexists. split; [done|]. unfold protocols_of.
  cbn [easy_ground_truth medium_ground_truth hard_ground_truth].
  assert (∀ ok_list junk_list,
            is_protocol_entry (_ParseGroundTruth ok_list junk_list)) as Hentry.
  { intros ok_list junk_list.
    destruct (_ParseGroundTruth_lookup ok_list junk_list) as (Hok & Hjunk & _).
    split; by eexists. }
  assert (∀ ok_list junk_list,
            (∀ x, x ∈ concat ok_list → x ∉ concat junk_list) →
            disjoint_entry (_ParseGroundTruth ok_list junk_list)) as Hdis.
  { intros ok_list junk_list Hx ok junk Hok Hjunk.
    destruct (_ParseGroundTruth_lookup ok_list junk_list) as (Hok' & Hjunk' & _).
    rewrite Hok' in Hok. rewrite Hjunk' in Hjunk.
    injection Hok as <-. injection Hjunk as <-. exact Hx. }
  repeat apply Forall_cons_2; try apply Forall_nil_2.
  - split; apply Forall_fmap, Forall_forall; intros g Hg; [apply Hentry|].
    rewrite Forall_forall in Hd. specialize (Hd g Hg).
    apply Hdis. intros x. destruct (Hd x) as (H1 & H2 & H3).
    simpl. rewrite !app_nil_r, not_elem_of_app. tauto.
  - split; apply Forall_fmap, Forall_forall; intros g Hg; [apply Hentry|].
    rewrite Forall_forall in Hd. specialize (Hd g Hg).
    apply Hdis. intros x. destruct (Hd x) as (H1 & H2 & H3).
    simpl. rewrite !app_nil_r, elem_of_app. tauto.
  - split; apply Forall_fmap, Forall_forall; intros g Hg; [apply Hentry|].
    rewrite Forall_forall in Hd. specialize (Hd g Hg).
    apply Hdis. intros x. destruct (Hd x) as (H1 & H2 & H3).
    simpl. rewrite !app_nil_r, not_elem_of_app. tauto.
Qed.

Lemma ParseEasyMediumHardGroundTruth_disjoint_witness :
  ∃ s, ParseEasyMediumHardGroundTruth
         [ {[ "easy"%string := [4]; "hard"%string := [7; 2];
              "junk"%string := [5] ]} ] = Ok s ∧
    Forall (λ p, Forall is_protocol_entry p ∧ Forall disjoint_entry p)
      (protocols_of s).
Proof.
  apply ParseEasyMediumHardGroundTruth_disjoint.
  - repeat constructor; eexists; reflexivity.
  - repeat constructor; vm_compute; intros Hx Hx';
      apply list_elem_of_In in Hx, Hx'; simpl in Hx, Hx'; lia.
Defined.

Section Outcome.
Context {F : Type} `{Arith F}.

Lemma ComputeMetrics_outcome (sorted_index_ids : ndarray2)
    (ground_truth : list (gmap string (list Z))) (desired_pr_ranks : list Z) :
  is_matrix sorted_index_ids →
  length ground_truth = shape0 sorted_index_ids →
  Forall is_protocol_entry ground_truth →
  desired_pr_ranks ≠ [] →
  Forall (λ k, k ≤ Z.of_nat (shape1 sorted_index_ids)) desired_pr_ranks →
  match ComputeMetrics (F:=F) sorted_index_ids ground_truth desired_pr_ranks with
  | Ok _ => Exists (λ g, has_ground_truth g = true) ground_truth
  | Error e =>
      e = ZeroDivisionError ∧
      Forall (λ g, has_ground_truth g = false) ground_truth
  end.
Proof.
  intros [Hrows _] Hgt Hkeys Hne Hall.
  destruct (ComputeMetrics_run (F:=F) sorted_index_ids ground_truth
              desired_pr_ranks Hgt Hrows Hkeys Hne Hall) as (st & _ & Hrun).
  rewrite Hrun. cbn zeta.
  destruct (decide (Exists (λ g, has_ground_truth g = true) ground_truth))
    as [Hsome|Hnone].
  - pose proof (num_empty_some ground_truth Hsome).
    by rewrite bool_decide_false by lia.
  - apply not_Exists_Forall in Hnone; [|intros g; apply _].
    assert (Forall (λ g, has_ground_truth g = false) ground_truth) as Hall'.
    { eapply Forall_impl; [exact Hnone|]. simpl. intros g Hg.
      by destruct (has_ground_truth g). }
    rewrite num_empty_all, Hgt by done.
    by rewrite bool_decide_true by lia.
Qed.

Lemma has_ground_truth_parsed (ok_list junk_list : list (list Z)) :
  has_ground_truth (_ParseGroundTruth ok_list junk_list) = true
  ↔ concat ok_list ≠ [].
Proof.
  unfold has_ground_truth.
  destruct (_ParseGroundTruth_lookup ok_list junk_list) as (-> & _ & _).
  by destruct (concat ok_list).
Qed.

Lemma ComputeMetrics_parsed (sorted_index_ids : ndarray2)
    (ground_truth : list (gmap string (list Z))) (desired_pr_ranks : list Z)
    (ok_lists junk_lists : gmap string (list Z) → list (list Z))
    (positives : gmap string (list Z) → list Z) :
  (∀ g, concat (ok_lists g) = positives g) →
  is_matrix sorted_index_ids →
  length ground_truth = shape0 sorted_index_ids →
  desired_pr_ranks ≠ [] →
  Forall (λ k, k ≤ Z.of_nat (shape1 sorted_index_ids)) desired_pr_ranks →
  fails_only_without_positives
    (ComputeMetrics (F:=F) sorted_index_ids
       ((λ g, _ParseGroundTruth (ok_lists g) (junk_lists g)) <$> ground_truth)
       desired_pr_ranks)
    positives ground_truth.
Proof.
  intros Hpos Hm Hgt Hne Hall.
  pose proof (ComputeMetrics_outcome sorted_index_ids
    ((λ g, _ParseGroundTruth (ok_lists g) (junk_lists g)) <$> ground_truth)
    desired_pr_ranks Hm) as Hout.
  rewrite length_fmap in Hout. specialize (Hout Hgt).
  unfold fails_only_without_positives.
  destruct (ComputeMetrics _ _ _) as [m|e].
  - apply Exists_fmap in Hout; [|
      apply Forall_fmap, Forall_forall; intros g _;
      destruct (_ParseGroundTruth_lookup (ok_lists g) (junk_lists g))
        as (Hok & Hjunk & _); split; by eexists | done | done].
    eapply Exists_impl; [exact Hout|]. simpl. intros g Hg.
    apply has_ground_truth_parsed in Hg. by rewrite <- Hpos.
  - destruct Hout as [-> Hnone]; [|done|done|].
    { apply Forall_fmap, Forall_forall; intros g _;
      destruct (_ParseGroundTruth_lookup (ok_lists g) (junk_lists g))
        as (Hok & Hjunk & _); split; by eexists. }
    split; [done|]. apply Forall_fmap in Hnone.
    eapply Forall_impl; [exact Hnone|]. simpl. intros g Hg.
    rewrite <- Hpos.
    destruct (concat (ok_lists g)) as [|x l] eqn:E; [done|].
    assert (has_ground_truth (_ParseGroundTruth (ok_lists g) (junk_lists g))
            = true) as Ht by (apply has_ground_truth_parsed; by rewrite E).
    congruence.
Qed.

(** X11: [ComputeMetrics] on the output of
    [ParseEasyMediumHardGroundTruth] raises neither [KeyError] nor
    [IndexError]: for each protocol it either returns metrics, and then
    some query has a positive of that protocol, or it raises
    [ZeroDivisionError], and then no query has one.  The positives are the
    easy images, the easy and hard images, and the hard images. *)
Theorem ParseEasyMediumHardGroundTruth_then_ComputeMetrics
    (sorted_index_ids : ndarray2)
    (ground_truth : list (gmap string (list Z))) (desired_pr_ranks : list Z) :
  is_matrix sorted_index_ids →
  Forall has_keys ground_truth →
  length ground_truth = shape0 sorted_index_ids →
  desired_pr_ranks ≠ [] →
  Forall (λ k, k ≤ Z.of_nat (shape1 sorted_index_ids)) desired_pr_ranks →
  ∃ s, ParseEasyMediumHardGroundTruth ground_truth = Ok s ∧
    fails_only_without_positives
      (ComputeMetrics (F:=F) sorted_index_ids (easy_ground_truth s)
         desired_pr_ranks)
      (λ g, gt_field g "easy") ground_truth ∧
    fails_only_without_positives
      (ComputeMetrics (F:=F) sorted_index_ids (medium_ground_truth s)
         desired_pr_ranks)
      (λ g, gt_field g "easy" ++ gt_field g "hard") ground_truth ∧
    fails_only_without_positives
      (ComputeMetrics (F:=F) sorted_index_ids (hard_ground_truth s)
         desired_pr_ranks)
      (λ g, gt_field g "hard") ground_truth.
Proof.
  intros Hm Hk Hgt Hne Hall.
  rewrite ParseEasyMediumHardGroundTruth_run by done.
  eexists. split; [done|].
  cbn [easy_ground_truth medium_ground_truth hard_ground_truth].
  split; [|split].
  - apply (ComputeMetrics_parsed sorted_index_ids ground_truth
             desired_pr_ranks (λ g, [gt_field g "easy"])
             (λ g, [gt_field g "junk"; gt_field g "hard"])); try done.
    intros g. simpl. by rewrite app_nil_r.
  - apply (ComputeMetrics_parsed sorted_index_ids ground_truth
             desired_pr_ranks (λ g, [gt_field g "easy"; gt_field g "hard"])
             (λ g, [gt_field g "junk"])); try done.
    intros g. simpl. by rewrite app_nil_r.
  - apply (ComputeMetrics_parsed sorted_index_ids ground_truth
             desired_pr_ranks (λ g, [gt_field g "hard"])
             (λ g, [gt_field g "junk"; gt_field g "easy"])); try done.
    intros g. simpl. by rewrite app_nil_r.
Qed.
End Outcome.

Lemma ParseEasyMediumHardGroundTruth_then_ComputeMetrics_witness :
  ∃ s, ParseEasyMediumHardGroundTruth
         [ {[ "easy"%string := []; "hard"%string := [1];
              "junk"%string := [0] ]} ] = Ok s ∧
    ComputeMetrics (F:=float) empty_ids (easy_ground_truth s) [1]
    = Error ZeroDivisionError ∧
    (∃ m, ComputeMetrics (F:=float) empty_ids (hard_ground_truth s) [1]
          = Ok m).
Proof.
  destruct (ParseEasyMediumHardGroundTruth_then_ComputeMetrics (F:=float)
              empty_ids
              [ {[ "easy"%string := []; "hard"%string := [1];
                   "junk"%string := [0] ]} ] [1])
    as (s & Hs & He & _ & Hh).
  - split; [reflexivity|]. repeat constructor.
  - repeat constructor; eexists; reflexivity.
  - reflexivity.
  - discriminate.
  - repeat constructor; vm_compute; congruence.
  - exists s. split; [exact Hs|].
    unfold fails_only_without_positives in He, Hh. split.
    + destruct (ComputeMetrics empty_ids (easy_ground_truth s) [1]) as [m|e].
      * apply Exists_cons in He as [He|He]; [by destruct He|].
        by apply Exists_nil in He.
      * by destruct He as [-> _].
    + destruct (ComputeMetrics empty_ids (hard_ground_truth s) [1]) as [m|e].
      * by exists m.
      * destruct Hh as [_ Hh]. apply Forall_cons in Hh as [Hh _].
        discriminate Hh.
Defined.

(** ** Writing and reading the metrics file *)

Lemma four_lines_ind (P : list string → Prop) :
  (∀ lines, file_blocks lines = [] → (length lines < 4)%nat → P lines) →
  (∀ a b c d rest, P rest → P (a :: b :: c :: d :: rest)) →
  ∀ lines, P lines.
Proof.
  intros Hshort Hstep lines.
  assert (∀ n lines, (length lines ≤ n)%nat → P lines) as Hall;
    [|by apply (Hall (length lines))].
  clear lines. induction n as [|n IH]; intros lines Hn.
  - destruct lines; [|simpl in Hn; lia]. apply Hshort; [done|simpl; lia].
  - destruct lines as [|a [|b [|c [|d rest]]]];
      try (apply Hshort; [done|simpl; lia]).
    apply Hstep, IH. simpl in Hn. lia.
Qed.

Section Read_blocks.
Variable float_of_str : string → result float.

Lemma read_loop_blocks (lines : list string) :
  ∀ st st', read_loop float_of_str lines st = Ok st' →
    let names := block_protocol <$> file_blocks lines in
    (rd_pr_ranks st ≠ [] → rd_pr_ranks st' = rd_pr_ranks st) ∧
    NoDup names ∧
    (∀ p, p ∈ names → p ∉ rd_protocols st) ∧
    dom (rd_mean_average_precision st')
    = dom (rd_mean_average_precision st) ∪ list_to_set names ∧
    dom (rd_mean_precisions st')
    = dom (rd_mean_precisions st) ∪ list_to_set names ∧
    dom (rd_mean_recalls st')
    = dom (rd_mean_recalls st) ∪ list_to_set names ∧
    (∀ p, p ∉ names →
       rd_mean_average_precision st' !! p = rd_mean_average_precision st !! p ∧
       rd_mean_precisions st' !! p = rd_mean_precisions st !! p ∧
       rd_mean_recalls st' !! p = rd_mean_recalls st !! p) ∧
    Forall (block_read float_of_str st') (file_blocks lines).
Proof.
  induction lines as [lines Hnone Hshort|protocol map_line mp_line mr_line rest IH]
    using four_lines_ind; intros st st' Hrun; cbn zeta.
  - assert (st' = st) as ->.
    { destruct lines as [|a [|b [|c [|d rest]]]]; simpl in Hrun, Hshort;
        try (by injection Hrun); lia. }
    rewrite Hnone. simpl. rewrite !(right_id_L ∅ (∪)).
    repeat split; try done. { constructor. } intros p Hp. by apply elem_of_nil in Hp.
  - cbn [read_loop] in Hrun.
    case_bool_decide as Hnew; [done|].
    destruct (list_getitem (split_on "=" map_line) 1) as [map_text|]
      eqn:Htext; [|done].
    cbn [bind] in Hrun.
    destruct (float_of_str map_text) as [map_value|] eqn:Hvalue; [|done].
    cbn [bind] in Hrun.
    destruct (_ParsePrRanks mp_line) as [ranks|] eqn:Hranks; [|done].
    cbn [bind] in Hrun.
    set (pr_ranks := match rd_pr_ranks st with
                     | [] => Ok ranks
                     | _ => if bool_decide (ranks ≠ rd_pr_ranks st)
                            then Error ValueError else Ok (rd_pr_ranks st)
                     end) in Hrun.
    assert (pr_ranks = Error ValueError ∨
            pr_ranks = Ok ranks ∧ (rd_pr_ranks st ≠ [] → ranks = rd_pr_ranks st))
      as [Hpr|[Hpr Hsame]].
    { unfold pr_ranks. destruct (rd_pr_ranks st) as [|r rs'] eqn:Hst.
      - right. split; [done|]. by intros [].
      - case_bool_decide as Hne; [by left|]. right.
        by rewrite Hne. }
    { by rewrite Hpr in Hrun. }
    rewrite Hpr in Hrun. cbn [bind] in Hrun.
    destruct (_ParsePrScores float_of_str mp_line (length ranks)) as [ps|]
      eqn:Hps; [|done].
    cbn [bind] in Hrun.
    destruct (_ParsePrScores float_of_str mr_line (length ranks)) as [rs|]
      eqn:Hrs; [|done].
    cbn [bind] in Hrun.
    apply IH in Hrun. cbn zeta in Hrun.
    cbn [rd_pr_ranks rd_protocols rd_mean_average_precision
         rd_mean_precisions rd_mean_recalls] in Hrun.
    destruct Hrun as (Hkeep & Hnodup & Hfresh & Hd1 & Hd2 & Hd3 & Hother & Hblocks).
    cbn [file_blocks fmap list_fmap]. unfold block_protocol at 1 3 5 7 9 11.
    cbn [fst].
    set (names := block_protocol <$> file_blocks rest) in *.
    assert (protocol ∉ names) as Hhead.
    { intros Hin. apply (Hfresh _ Hin).
      by apply elem_of_union_l, elem_of_singleton. }
    split; [|split; [|split; [|split; [|split; [|split; [|split]]]]]].
    + intros Hst. rewrite <- Hsame in * by done. by apply Hkeep.
    + by constructor.
    + intros p [->|Hp]%elem_of_cons; [done|].
      intros Hin. apply (Hfresh p Hp). by apply elem_of_union_r.
    + rewrite Hd1, dom_insert_L. cbn [list_to_set].
      by rewrite (comm_L (∪) {[protocol]} (dom _)), <- (assoc_L (∪)).
    + rewrite Hd2, dom_insert_L. cbn [list_to_set].
      by rewrite (comm_L (∪) {[protocol]} (dom _)), <- (assoc_L (∪)).
    + rewrite Hd3, dom_insert_L. cbn [list_to_set].
      by rewrite (comm_L (∪) {[protocol]} (dom _)), <- (assoc_L (∪)).
    + intros p Hp. apply not_elem_of_cons in Hp as [Hne Hp].
      destruct (Hother p Hp) as (H1 & H2 & H3).
      rewrite H1, H2, H3. by rewrite !lookup_insert_ne by done.
    + constructor; [|done].
      destruct (Hother protocol Hhead) as (H1 & H2 & H3).
      exists map_text, map_value, ranks, ps, rs.
      rewrite H1, H2, H3, !lookup_insert_eq.
      repeat split; try done.
      destruct ranks as [|r ranks']; [by right|left].
      symmetry. by apply Hkeep.
Qed.
End Read_blocks.

Lemma file_blocks_length (lines : list string) :
  (length lines `mod` 4 = 0)%nat →
  (4 * length (file_blocks lines) = length lines)%nat.
Proof.
  induction lines as [lines Hnone Hshort|a b c d rest IH] using four_lines_ind.
  - rewrite Hnone. rewrite Nat.mod_small by done. simpl. lia.
  - intros Hmod. cbn [file_blocks length] in *.
    replace (S (S (S (S (length rest))))) with (length rest + 1 * 4)%nat
      in Hmod by lia.
    rewrite Nat.Div0.mod_add in Hmod. specialize (IH Hmod). lia.
Qed.

Section Read_result.
Variable float_of_str : string → result float.

Lemma ReadMetricsFile_run (contents : string) (st : read_state) :
  ReadMetricsFile float_of_str contents = Ok st →
  (length (stripped_lines contents) `mod` 4 = 0)%nat ∧
  read_loop float_of_str (stripped_lines contents)
    {| rd_mean_average_precision := ∅; rd_pr_ranks := [];
       rd_mean_precisions := ∅; rd_mean_recalls := ∅; rd_protocols := ∅ |}
  = Ok st.
Proof.
  unfold ReadMetricsFile, stripped_lines. cbn zeta.
  case_bool_decide as Hmod; [done|]. intros Hrun. by split.
Qed.

(** X13: when [ReadMetricsFile] returns, the file is made of blocks of
    four lines whose first lines, the protocols, are pairwise distinct,
    and each of the three dicts has exactly these protocols as keys. *)
Theorem ReadMetricsFile_protocols (contents : string) (st : read_state) :
  ReadMetricsFile float_of_str contents = Ok st →
  let names := block_protocol <$> file_blocks (stripped_lines contents) in
  (4 * length names = length (stripped_lines contents))%nat ∧
  NoDup names ∧
  dom (rd_mean_average_precision st) = list_to_set names ∧
  dom (rd_mean_precisions st) = list_to_set names ∧
  dom (rd_mean_recalls st) = list_to_set names.
Proof.
  intros [Hmod Hrun]%ReadMetricsFile_run. cbn zeta.
  apply read_loop_blocks in Hrun. cbn zeta in Hrun.
  cbn [rd_mean_average_precision rd_mean_precisions rd_mean_recalls] in Hrun.
  destruct Hrun as (_ & Hnodup & _ & Hd1 & Hd2 & Hd3 & _).
  rewrite dom_empty_L, (left_id_L ∅ (∪)) in Hd1.
  rewrite dom_empty_L, (left_id_L ∅ (∪)) in Hd2.
  rewrite dom_empty_L, (left_id_L ∅ (∪)) in Hd3.
  rewrite length_fmap. split; [by apply file_blocks_length|done].
Qed.

End Read_result.

Lemma ReadMetricsFile_protocols_witness :
  ∃ st, ReadMetricsFile decimal_float example_metrics_text = Ok st ∧
    dom (rd_mean_precisions st) = {["easy"%string]}.
Proof.
  eexists. split; [vm_compute; reflexivity|].
  match goal with
  | |- dom (rd_mean_precisions ?st) = _ =>
      destruct (ReadMetricsFile_protocols decimal_float example_metrics_text
                  st) as (_ & _ & _ & Hd & _); [vm_compute; reflexivity|]
  end.
  rewrite Hd. vm_compute. reflexivity.
Defined.


(** ** Malformed metrics files *)

Lemma split_on_absent (sep : ascii) (s : string) :
  has_char sep s = false → split_on sep s = [s].
Proof.
  induction s as [|c s IH]; [done|]. simpl. intros Hc.
  apply orb_false_elim in Hc as [Hc Hs]. by rewrite Hc, IH.
Qed.

Section Malformed.
Variable float_of_str : string → result float.

(** X15: a file whose number of lines is a multiple of four and whose
    second line holds no ['='] makes [ReadMetricsFile] raise
    [IndexError], not the [ValueError] of a malformed file. *)
Theorem ReadMetricsFile_map_line_without_equals
    (contents protocol map_line : string) (rest : list string) :
  stripped_lines contents = protocol :: map_line :: rest →
  (length (stripped_lines contents) `mod` 4 = 0)%nat →
  has_char "="%char map_line = false →
  ReadMetricsFile float_of_str contents = Error IndexError.
Proof.
  intros Hlines Hmod Hno. unfold ReadMetricsFile. cbn zeta.
  fold (stripped_lines contents).
  rewrite bool_decide_false by (by intros []).
  rewrite Hlines in *.
  destruct rest as [|mp_line [|mr_line rest]]; [done|done|].
  cbn [read_loop rd_protocols]. rewrite bool_decide_false by set_solver.
  by rewrite split_on_absent.
Qed.

(** X16: a line of precisions or recalls that has its prefix but no
    second bracket makes [_ParsePrScores] raise [IndexError], whatever
    number of scores is expected. *)
Theorem ParsePrScores_without_scores (line rest : string) (num_pr_ranks : nat) :
  line = "  mP@k[" +:+ rest ∨ line = "  mR@k[" +:+ rest →
  has_char "["%char rest = false →
  _ParsePrScores float_of_str line num_pr_ranks = Error IndexError.
Proof.
  intros Hline Hno. unfold _ParsePrScores, _ParseSpaceSeparatedStringsInBrackets.
  assert (find_prefix ["  mP@k["%string; "  mR@k["%string] line = Ok rest)
    as ->.
  { destruct Hline as [->| ->]; cbn; by rewrite ?Ascii.eqb_refl. }
  cbn [bind]. by rewrite split_on_absent.
Qed.
End Malformed.

Lemma ReadMetricsFile_map_line_without_equals_witness :
  ReadMetricsFile decimal_float
    ("easy" +:+ nl +:+ "  mAP 80.0" +:+ nl +:+
     "  mP@k[1 5] [90. 70.]" +:+ nl +:+ "  mR@k[1 5] [40. 60.5]" +:+ nl)
  = Error IndexError.
Proof.
  eapply (ReadMetricsFile_map_line_without_equals decimal_float _
            "easy" "  mAP 80.0").
  - vm_compute. reflexivity.
  - vm_compute. reflexivity.
  - reflexivity.
Defined.

Lemma ParsePrScores_without_scores_witness :
  _ParsePrScores decimal_float "  mR@k[1 5 10 90. 70. 50.]" 3
  = Error IndexError.
Proof.
  apply (ParsePrScores_without_scores decimal_float _ "1 5 10 90. 70. 50.]").
  - right. reflexivity.
  - reflexivity.
Defined.

(** ** Better rankings, larger average precision *)

Section Earlier_ranks.
Local Open Scope Q_scope.

Lemma ratio_antitone (a b c : Z) :
  (0 ≤ a)%Z → (0 < b)%Z → (b ≤ c)%Z →
  inject_Z a / inject_Z c <= inject_Z a / inject_Z b.
Proof.
  intros Ha Hb Hbc.
  assert (0 < inject_Z b) as Hb' by (apply inject_Z_pos; lia).
  assert (0 < inject_Z c) as Hc' by (apply inject_Z_pos; lia).
  apply Qle_shift_div_r; [done|].
  assert (inject_Z a / inject_Z b * inject_Z c
          == inject_Z a * inject_Z c / inject_Z b) as ->.
  { field. intros Hz. rewrite Hz in Hb'. by apply Qlt_irrefl in Hb'. }
  apply Qle_shift_div_l; [done|].
  rewrite <- !inject_Z_mult, <- Zle_Qle. nia.
Qed.

Lemma ap_term_antitone (i : nat) (r r' : Z) (step : Q) :
  0 <= step → is_rank r → is_rank r' → (Z.of_nat i ≤ r)%Z → (r ≤ r')%Z →
  f_div
    (f_mul
       (f_add
          (if bool_decide (r' = 0%Z) then f_of_Z 1
           else f_div (f_of_Z (Z.of_nat i)) (f_of_Z r'))
          (f_div (f_of_Z (Z.of_nat i + 1)) (f_of_Z (r' + 1))))
       step)
    (f_of_Z 2)
  <= f_div
       (f_mul
          (f_add
             (if bool_decide (r = 0%Z) then f_of_Z 1
              else f_div (f_of_Z (Z.of_nat i)) (f_of_Z r))
             (f_div (f_of_Z (Z.of_nat i + 1)) (f_of_Z (r + 1))))
          step)
       (f_of_Z 2).
Proof.
  intros Hstep Hr Hr' Hir Hrr'. unfold is_rank in Hr, Hr'.
  set (l' := if bool_decide (r' = 0%Z) then _ else _).
  set (l := if bool_decide (r = 0%Z) then _ else _).
  assert (l' <= l) as Hl.
  { subst l l'. repeat case_bool_decide; simpl; try lra; try lia.
    - apply ratio_unit; lia.
    - apply ratio_antitone; lia. }
  assert (f_div (f_of_Z (Z.of_nat i + 1)) (f_of_Z (r' + 1))
          <= f_div (f_of_Z (Z.of_nat i + 1)) (f_of_Z (r + 1))) as Hrp.
  { simpl. apply ratio_antitone; lia. }
  revert Hrp.
  generalize (@f_div Q _ (f_of_Z (Z.of_nat i + 1)) (f_of_Z (r' + 1))).
  generalize (@f_div Q _ (f_of_Z (Z.of_nat i + 1)) (f_of_Z (r + 1))).
  clearbody l l'. intros p p' Hp. simpl. unfold Qdiv.
  change (/ inject_Z 2) with (1 # 2).
  assert (0 <= (l + p - (l' + p')) * step) as Hn
    by (apply Qmult_le_0_compat; lra).
  lra.
Qed.

Lemma ap_loop_antitone (ranks ranks' : list Z) (i : nat) (step acc acc' : Q) :
  0 <= step → acc' <= acc →
  Forall2 Z.le ranks ranks' →
  Forall is_rank ranks → Forall is_rank ranks' →
  StronglySorted Z.lt ranks → Forall (λ r, (Z.of_nat i ≤ r)%Z) ranks →
  ap_loop i ranks' step acc' <= ap_loop i ranks step acc.
Proof.
  intros Hstep Hacc Hle. revert i acc acc' Hacc.
  induction Hle as [|r r' ranks ranks' Hrr' Hle IH];
    intros i acc acc' Hacc Hr Hr' Hs Hi; [done|].
  apply Forall_cons in Hr as [Hr Hrest]. apply Forall_cons in Hr' as [Hr' Hrest'].
  apply Forall_cons in Hi as [Hir Hi]. apply StronglySorted_inv in Hs as [Hs Hall].
  cbn [ap_loop]. rewrite !wrap64_succ by done.
  apply IH; try done.
  - pose proof (ap_term_antitone i r r' step Hstep Hr Hr' Hir Hrr') as Ht.
    revert Ht. simpl. intros Ht. lra.
  - eapply Forall_impl; [exact Hall|]. simpl. intros; lia.
Qed.

(** X17: a ranking that places every positive no later has an average
    precision that is no smaller (exact arithmetic). *)
Theorem ComputeAveragePrecision_earlier_is_better (ranks ranks' : list Z) :
  Forall is_rank ranks → Forall is_rank ranks' →
  StronglySorted Z.lt ranks →
  Forall2 Z.le ranks ranks' →
  ComputeAveragePrecision (F:=Q) ranks'
  <= ComputeAveragePrecision (F:=Q) ranks.
Proof.
  intros Hr Hr' Hs Hle. unfold ComputeAveragePrecision.
  rewrite <- (Forall2_length _ _ _ Hle).
  case_bool_decide as Hn; [apply Qle_refl|].
  apply ap_loop_antitone;
    [|apply Qle_refl|exact Hle|exact Hr|exact Hr'|exact Hs|].
  - simpl. apply Qle_shift_div_l.
    + apply inject_Z_pos. lia.
    + rewrite Qmult_0_l. done.
  - eapply Forall_impl; [exact Hr|]. unfold is_rank. simpl. intros; lia.
Qed.

(** X18: leaving the junk images out never lowers the average precision:
    on strictly increasing, disjoint arrays of ranks, the average
    precision of the adjusted ranks is at least that of the ranks as
    found (exact arithmetic). *)
Theorem AdjustPositiveRanks_raises_average_precision
    (positive_ranks junk_ranks : list Z) :
  Forall is_rank positive_ranks → Forall is_rank junk_ranks →
  StronglySorted Z.lt positive_ranks → StronglySorted Z.lt junk_ranks →
  (∀ x, x ∈ positive_ranks → x ∉ junk_ranks) →
  ComputeAveragePrecision (F:=Q) positive_ranks
  <= ComputeAveragePrecision (F:=Q)
       (AdjustPositiveRanks_fresh positive_ranks junk_ranks).
Proof.
  intros Hpr Hjr Hps Hjs Hdisj.
  rewrite adjusted_sorted;
    [|eapply Forall_impl; [exact Hpr|apply is_rank_int64]
     |eapply Forall_impl; [exact Hjr|apply is_rank_int64]
     |by apply StronglySorted_lt_le|done].
  assert (Forall (λ y, (0 ≤ y)%Z) junk_ranks) as Hj0.
  { eapply Forall_impl; [exact Hjr|]. unfold is_rank. simpl. intros; lia. }
  assert (Forall is_rank (adjusted_rank junk_ranks <$> positive_ranks)) as Har.
  { apply Forall_fmap. eapply Forall_impl; [exact Hpr|]. simpl.
    intros x Hx. unfold is_rank in *.
    pose proof (adjusted_rank_nonneg junk_ranks x Hjs Hj0). lia. }
  unfold ComputeAveragePrecision. rewrite length_fmap.
  case_bool_decide as Hn; [apply Qle_refl|].
  apply ap_loop_antitone; [|apply Qle_refl| |exact Har|exact Hpr| |].
  - simpl. apply Qle_shift_div_l.
    + apply inject_Z_pos. lia.
    + rewrite Qmult_0_l. done.
  - apply Forall2_fmap_l, Forall_Forall2_diag.
    eapply Forall_impl; [exact Hpr|]. simpl. intros x Hx.
    unfold is_rank in Hx.
    pose proof (adjusted_rank_nonneg junk_ranks x Hjs Hj0). lia.
  - by apply adjusted_ranks_increasing.
  - eapply Forall_impl; [exact Har|]. unfold is_rank. simpl. intros; lia.
Qed.
End Earlier_ranks.

Lemma ComputeAveragePrecision_earlier_is_better_witness :
  (ComputeAveragePrecision (F:=Q) [2; 5; 6]%Z <=
   ComputeAveragePrecision (F:=Q) [0; 5; 6]%Z)%Q.
Proof.
  apply ComputeAveragePrecision_earlier_is_better.
  - repeat constructor; vm_compute; congruence.
  - repeat constructor; vm_compute; congruence.
  - repeat constructor.
  - repeat constructor; lia.
Defined.

Lemma AdjustPositiveRanks_raises_average_precision_witness :
  (ComputeAveragePrecision (F:=Q) [2; 5; 6]%Z <=
   ComputeAveragePrecision (F:=Q)
     (AdjustPositiveRanks_fresh [2; 5; 6]%Z [0; 3]%Z))%Q.
Proof.
  apply AdjustPositiveRanks_raises_average_precision.
  - repeat constructor; vm_compute; congruence.
  - repeat constructor; vm_compute; congruence.
  - repeat constructor.
  - repeat constructor.
  - intros x Hx Hx'. apply list_elem_of_In in Hx, Hx'. simpl in Hx, Hx'. lia.
Defined.

(** ** Reading back the ranks of a metrics file *)

Lemma append_cons (c : ascii) (a b : string) :
  String c a +:+ b = String c (a +:+ b).
Proof. reflexivity. Qed.

Lemma append_assoc (a b c : string) : (a +:+ b) +:+ c = a +:+ b +:+ c.
Proof.
  induction a as [|x a IH]; [done|]. by rewrite !append_cons, IH.
Qed.

Lemma length_append (a b : string) :
  String.length (a +:+ b) = (String.length a + String.length b)%nat.
Proof.
  induction a as [|x a IH]; [done|]. rewrite append_cons. simpl. by rewrite IH.
Qed.

Lemma string_forall_append (p : ascii → bool) (a b : string) :
  string_forall p (a +:+ b) = string_forall p a && string_forall p b.
Proof.
  induction a as [|x a IH]; [done|]. rewrite append_cons. simpl.
  by rewrite IH, andb_assoc.
Qed.

Lemma string_forall_impl (p q : ascii → bool) (s : string) :
  (∀ c, p c = true → q c = true) →
  string_forall p s = true → string_forall q s = true.
Proof.
  intros Hpq. induction s as [|c s IH]; [done|]. simpl.
  intros [Hc Hs]%andb_true_iff. by rewrite (Hpq c Hc), IH.
Qed.

Lemma has_char_forall (p : ascii → bool) (c : ascii) (s : string) :
  p c = false → string_forall p s = true → has_char c s = false.
Proof.
  intros Hc. induction s as [|x s IH]; [done|]. simpl.
  intros [Hx Hs]%andb_true_iff. rewrite IH by done.
  destruct (Ascii.eqb_spec x c) as [->|]; [congruence|done].
Qed.

(** *** The digits of a natural number *)

Lemma digit_of_pretty_N_char (n : N) :
  (n < 10)%N → digit_of (pretty_N_char n) = Some (Z.of_N n).
Proof.
  intros Hn.
  assert (n = 0 ∨ n = 1 ∨ n = 2 ∨ n = 3 ∨ n = 4 ∨ n = 5 ∨ n = 6 ∨ n = 7
          ∨ n = 8 ∨ n = 9)%N as Hcases by lia.
  repeat (destruct Hcases as [->|Hcases]; [reflexivity|]). by subst.
Qed.

Lemma digits_value_pretty_N_go (x : N) :
  ∃ m : Z, ∀ s acc,
    digits_value (pretty_N_go x s) acc = digits_value s (acc * m + Z.of_N x).
Proof.
  induction (N.lt_wf_0 x) as [x _ IH].
  destruct (decide (x = 0)%N) as [->|Hx].
  - exists 1. intros s acc. rewrite pretty_N_go_0. f_equal. lia.
  - destruct (IH (x `div` 10)%N) as [m Hm]; [apply N.div_lt; lia|].
    exists (10 * m). intros s acc. rewrite pretty_N_go_step by lia.
    rewrite Hm. cbn [digits_value].
    rewrite digit_of_pretty_N_char by (apply N.mod_lt; lia).
    f_equal. rewrite (N.div_mod x 10) at 3 by lia.
    rewrite N2Z.inj_add, N2Z.inj_mul. change (Z.of_N 10) with 10. lia.
Qed.

Lemma digits_pretty_N_go (x : N) (s : string) :
  string_forall is_digit s = true →
  string_forall is_digit (pretty_N_go x s) = true.
Proof.
  revert s. induction (N.lt_wf_0 x) as [x _ IH]; intros s Hs.
  destruct (decide (x = 0)%N) as [->|Hx]; [by rewrite pretty_N_go_0|].
  rewrite pretty_N_go_step by lia. apply IH; [apply N.div_lt; lia|].
  simpl. rewrite Hs. unfold is_digit.
  by rewrite digit_of_pretty_N_char by (apply N.mod_lt; lia).
Qed.

Lemma pretty_N_go_nonempty (x : N) (s : string) :
  s ≠ EmptyString → pretty_N_go x s ≠ EmptyString.
Proof.
  revert s. induction (N.lt_wf_0 x) as [x _ IH]; intros s Hs.
  destruct (decide (x = 0)%N) as [->|Hx]; [by rewrite pretty_N_go_0|].
  rewrite pretty_N_go_step by lia. apply IH; [apply N.div_lt; lia|done].
Qed.

(** The text of a non-negative integer: digits, at least one, with the
    integer as value. *)
Lemma pretty_Z_digits (k : Z) :
  0 ≤ k →
  pretty k ≠ EmptyString ∧ string_forall is_digit (pretty k) = true ∧
  digits_value (pretty k) 0 = Some k.
Proof.
  intros Hk. destruct k as [|p|p]; [done| |lia].
  unfold pretty, pretty_Z, pretty, pretty_positive, pretty, pretty_N.
  rewrite decide_False by done.
  rewrite pretty_N_go_step by lia. split; [|split].
  - by apply pretty_N_go_nonempty.
  - rewrite <- pretty_N_go_step by lia. by apply digits_pretty_N_go.
  - rewrite <- pretty_N_go_step by lia.
    destruct (digits_value_pretty_N_go (N.pos p)) as [m Hm].
    rewrite Hm. simpl. f_equal.
Qed.

Lemma is_digit_not_sign (c : ascii) :
  is_digit c = true → c ≠ "-"%char ∧ c ≠ "+"%char.
Proof. intros Hc. split; intros ->; discriminate Hc. Qed.

Lemma is_digit_not_space (c : ascii) : is_digit c = true → is_space c = false.
Proof.
  destruct c as [[] [] [] [] [] [] [] []]; vm_compute; congruence.
Qed.

Lemma int_of_str_digits (s : string) (k : Z) :
  s ≠ EmptyString → string_forall is_digit s = true →
  digits_value s 0 = Some k → int_of_str s = Ok k.
Proof.
  intros Hne Hd Hv. destruct s as [|c s]; [done|].
  simpl in Hd. apply andb_true_iff in Hd as [Hc _].
  assert (int_of_str (String c s)
          = match natural_of_str (String c s) with
            | Some z => Ok z
            | None => Error ValueError
            end) as ->.
  { destruct (is_digit_not_sign c Hc) as [H1 H2]. unfold int_of_str.
    destruct c as [[] [] [] [] [] [] [] []]; try done. }
  unfold natural_of_str. by rewrite Hv.
Qed.

Lemma convert_entries_pretty (l : list Z) :
  Forall (λ k, 0 ≤ k) l →
  convert_entries int_of_str (pretty <$> l) = Ok l.
Proof.
  induction 1 as [|k l Hk _ IH]; [done|].
  destruct (pretty_Z_digits k Hk) as (Hne & Hd & Hv).
  pose proof (int_of_str_digits _ k Hne Hd Hv) as Hint.
  rewrite fmap_cons. destruct (pretty k) as [|c s]; [done|].
  cbn [convert_entries]. rewrite Hint. cbn [bind]. by rewrite IH.
Qed.

(** *** Words between spaces *)

Lemma split_go_token (t s : string) :
  string_forall (λ c, negb (is_space c)) t = true →
  split_go (t +:+ s) = ((t +:+ (split_go s).1), (split_go s).2).
Proof.
  induction t as [|c t IH]; intros Ht.
  - change (EmptyString +:+ s) with s. destruct (split_go s). reflexivity.
  - simpl in Ht. apply andb_true_iff in Ht as [Hc Ht].
    rewrite append_cons. cbn [split_go]. rewrite IH by done.
    apply negb_true_iff in Hc. rewrite Hc. by rewrite append_cons.
Qed.

Lemma split_whitespace_space (c : ascii) (s : string) :
  is_space c = true →
  split_whitespace (String c s) = split_whitespace s.
Proof.
  intros Hc. unfold split_whitespace. cbn [split_go].
  destruct (split_go s) as [run runs]. by rewrite Hc.
Qed.

Lemma split_whitespace_spaces (n : nat) (s : string) :
  split_whitespace (spaces n +:+ s) = split_whitespace s.
Proof.
  induction n as [|n IH]; [done|]. cbn [spaces]. rewrite append_cons.
  by rewrite split_whitespace_space.
Qed.

Lemma split_whitespace_last (t : string) :
  t ≠ EmptyString → string_forall (λ c, negb (is_space c)) t = true →
  split_whitespace t = [t].
Proof.
  intros Hne Ht. unfold split_whitespace.
  assert (t = t +:+ EmptyString) as Happ.
  { clear. induction t as [|c t IH]; [done|]. by rewrite append_cons, <- IH. }
  rewrite Happ at 1. rewrite split_go_token by done. simpl.
  rewrite <- Happ. by destruct t.
Qed.

Lemma split_whitespace_token (t s : string) (c : ascii) :
  t ≠ EmptyString → string_forall (λ c, negb (is_space c)) t = true →
  is_space c = true →
  split_whitespace (t +:+ String c s) = t :: split_whitespace s.
Proof.
  intros Hne Ht Hc. unfold split_whitespace at 1.
  rewrite split_go_token by done. cbn [split_go].
  unfold split_whitespace. destruct (split_go s) as [run runs].
  rewrite Hc. cbn [fst snd].
  assert (t +:+ EmptyString = t) as ->.
  { clear. induction t as [|c t IH]; [done|]. by rewrite append_cons, IH. }
  by destruct t.
Qed.

Lemma join_words_cons (word word' : string) (rest : list string) :
  join_words (word :: word' :: rest)
  = word +:+ " " +:+ join_words (word' :: rest).
Proof. reflexivity. Qed.

Lemma split_whitespace_join (width : nat) (tokens : list string) :
  Forall (λ t, t ≠ EmptyString ∧
               string_forall (λ c, negb (is_space c)) t = true) tokens →
  split_whitespace (join_words (rjust width <$> tokens)) = tokens.
Proof.
  induction 1 as [|t tokens [Hne Ht] Hrest IH]; [done|].
  rewrite fmap_cons. destruct tokens as [|t' tokens].
  - simpl. unfold rjust. rewrite split_whitespace_spaces.
    by apply split_whitespace_last.
  - rewrite fmap_cons in *. rewrite join_words_cons. unfold rjust at 1.
    rewrite append_assoc, split_whitespace_spaces.
    change (" " +:+ ?s) with (String " "%char s).
    rewrite split_whitespace_token by done. by rewrite IH.
Qed.

(** *** The text of an array that fits on one line *)

Lemma append_nil_r (s : string) : s +:+ EmptyString = s.
Proof. induction s as [|c s IH]; [done|]. by rewrite append_cons, IH. Qed.

Lemma length_spaces (n : nat) : String.length (spaces n) = n.
Proof. induction n as [|n IH]; [done|]. simpl. by rewrite IH. Qed.

Lemma length_rjust (width : nat) (s : string) :
  (String.length s ≤ width)%nat → String.length (rjust width s) = width.
Proof.
  intros Hs. unfold rjust. rewrite length_append, length_spaces. lia.
Qed.

Lemma max_width_ge (words : list string) :
  Forall (λ word, (String.length word ≤ max_width words)%nat) words.
Proof.
  induction words as [|word words IH]; [constructor|].
  cbn [max_width foldr]. fold (max_width words). constructor; [lia|].
  eapply Forall_impl; [exact IH|]. simpl. intros; lia.
Qed.

Lemma extend_line_fits (s line word : string) :
  (String.length line + String.length word ≤ linewidth - 1)%nat →
  extend_line s line word = (s, line +:+ word).
Proof.
  intros Hfit. unfold extend_line. cbn zeta.
  assert ((linewidth - 1 <? String.length line + String.length word)%nat
          = false) as -> by (apply Nat.ltb_ge; lia).
  done.
Qed.

Lemma format_words_one_line (width : nat) (words : list string) :
  ∀ s line,
    Forall (λ word, String.length word = width) words →
    (String.length line + length words * (width + 1) ≤ linewidth)%nat →
    format_words words s line = s +:+ line +:+ join_words words.
Proof.
  induction words as [|word words IH]; intros s line Hw Hfit.
  - simpl. by rewrite append_nil_r.
  - apply Forall_cons in Hw as [Hword Hw]. cbn [length] in Hfit.
    unfold linewidth in *.
    destruct words as [|word' words].
    + cbn [format_words join_words].
      rewrite extend_line_fits by (unfold linewidth; lia). done.
    + assert (format_words (word :: word' :: words) s line
              = let '(s', line') := extend_line s line word in
                format_words (word' :: words) s' (line' +:+ " ")) as ->
        by reflexivity.
      rewrite extend_line_fits by (unfold linewidth; cbn [length] in Hfit; lia).
      rewrite IH; [|done|].
      * rewrite join_words_cons. by rewrite !append_assoc.
      * rewrite !length_append. cbn [length String.length] in *. lia.
Qed.

Lemma str_int_array_one_line (l : list Z) :
  fits_one_line l →
  str_int_array l
  = "[" +:+ join_words (rjust (max_width (pretty <$> l)) <$> (pretty <$> l))
    +:+ "]".
Proof.
  unfold fits_one_line, linewidth. intros Hfit. unfold str_int_array.
  assert ((1000 <? length l)%nat = false) as -> by (apply Nat.ltb_ge; nia).
  cbn zeta. rewrite list_fmap_compose.
  set (width := max_width (pretty <$> l)) in *.
  set (words := rjust width <$> (pretty <$> l)).
  assert (Forall (λ word, String.length word = width) words) as Hw.
  { apply Forall_fmap. eapply Forall_impl; [apply max_width_ge|].
    simpl. intros word Hword. by apply length_rjust. }
  assert (length words = length l) as Hlen
    by (unfold words; by rewrite !length_fmap).
  unfold array_text.
  rewrite (format_words_one_line width) by (try done; unfold linewidth; simpl; lia).
  destruct words; done.
Qed.

(** *** Cutting at brackets *)

Lemma strip_prefix_append (pre s : string) :
  strip_prefix pre (pre +:+ s) = Some s.
Proof.
  induction pre as [|c pre IH]; [by destruct s|].
  rewrite append_cons. simpl. by rewrite Ascii.eqb_refl.
Qed.

Lemma has_char_append (c : ascii) (a b : string) :
  has_char c (a +:+ b) = has_char c a || has_char c b.
Proof.
  induction a as [|x a IH]; [done|]. rewrite append_cons. simpl.
  by rewrite IH, orb_assoc.
Qed.

Lemma split_on_first_append (sep : ascii) (a b : string) :
  has_char sep a = false →
  ∃ piece, list_getitem (split_on sep (a +:+ b)) 0 = Ok (a +:+ piece).
Proof.
  intros Ha. induction a as [|c a IH].
  - change (EmptyString +:+ b) with b.
    destruct b as [|c b]; [by exists EmptyString|]. simpl.
    destruct (Ascii.eqb c sep); [by exists EmptyString|].
    destruct (split_on sep b) as [|piece pieces]; by eexists.
  - simpl in Ha. apply orb_false_elim in Ha as [Hc Ha].
    destruct (IH Ha) as [piece Hpiece].
    rewrite append_cons. cbn [split_on]. rewrite Hc.
    destruct (split_on sep (a +:+ b)) as [|first pieces]; [done|].
    exists piece. unfold list_getitem in *. simpl in *.
    injection Hpiece as ->. by rewrite append_cons.
Qed.

Lemma split_on_first (sep : ascii) (a b : string) :
  has_char sep a = false →
  list_getitem (split_on sep (a +:+ String sep b)) 0 = Ok a.
Proof.
  intros Ha. induction a as [|c a IH].
  - change (EmptyString +:+ String sep b) with (String sep b).
    simpl. by rewrite Ascii.eqb_refl.
  - simpl in Ha. apply orb_false_elim in Ha as [Hc Ha].
    specialize (IH Ha). rewrite append_cons. cbn [split_on]. rewrite Hc.
    destruct (split_on sep (a +:+ String sep b)) as [|first pieces]; [done|].
    unfold list_getitem in *. simpl in *. by injection IH as ->.
Qed.

Lemma string_forall_spaces (p : ascii → bool) (n : nat) :
  p " "%char = true → string_forall p (spaces n) = true.
Proof. intros Hp. induction n as [|n IH]; [done|]. simpl. by rewrite Hp, IH. Qed.

Lemma string_forall_join (p : ascii → bool) (words : list string) :
  p " "%char = true →
  Forall (λ word, string_forall p word = true) words →
  string_forall p (join_words words) = true.
Proof.
  intros Hp. induction 1 as [|word words Hword Hwords IH]; [done|].
  destruct words as [|word' words]; [done|].
  rewrite join_words_cons, !string_forall_append, Hword, IH. simpl.
  by rewrite Hp.
Qed.

(** The text of an array of non-negative integers that fits on one line:
    between the brackets there are only blanks and digits, and the words
    are the texts of the integers. *)
Lemma ranks_text (l : list Z) :
  Forall (λ k, 0 ≤ k) l → fits_one_line l →
  ∃ body,
    str_int_array l = "[" +:+ body +:+ "]" ∧
    string_forall (λ c, Ascii.eqb c " " || is_digit c) body = true ∧
    split_whitespace body = pretty <$> l.
Proof.
  intros Hpos Hfit. rewrite str_int_array_one_line by done.
  set (width := max_width (pretty <$> l)).
  assert (Forall (λ t, t ≠ EmptyString ∧ string_forall is_digit t = true)
            (pretty <$> l)) as Htokens.
  { apply Forall_fmap. eapply Forall_impl; [exact Hpos|]. simpl.
    intros k Hk. by destruct (pretty_Z_digits k Hk) as (Hne & Hd & _). }
  eexists. split; [done|]. split.
  - apply string_forall_join; [done|]. apply Forall_fmap.
    eapply Forall_impl; [exact Htokens|]. simpl. intros t [_ Ht].
    unfold rjust. rewrite string_forall_append.
    rewrite string_forall_spaces by done. simpl.
    eapply string_forall_impl; [|exact Ht]. intros c Hc.
    by rewrite Hc, orb_true_r.
  - apply split_whitespace_join.
    eapply Forall_impl; [exact Htokens|]. simpl. intros t [Hne Ht].
    split; [done|]. eapply string_forall_impl; [|exact Ht].
    intros c Hc. by rewrite is_digit_not_space.
Qed.

Lemma parse_ranks_body (body scores : string) (l : list Z) :
  has_char "["%char body = false → has_char "]"%char body = false →
  split_whitespace body = pretty <$> l → Forall (λ k, 0 ≤ k) l →
  _ParsePrRanks ("  mP@k" +:+ ("[" +:+ body +:+ "]") +:+ " " +:+ scores)
  = Ok l.
Proof.
  intros Hopen Hclose Hwords Hpos.
  assert ("  mP@k" +:+ ("[" +:+ body +:+ "]") +:+ " " +:+ scores
          = "  mP@k[" +:+ (body +:+ "]") +:+ " " +:+ scores) as ->.
  { rewrite !append_assoc. reflexivity. }
  unfold _ParsePrRanks, _ParseSpaceSeparatedStringsInBrackets.
  cbn [find_prefix]. rewrite strip_prefix_append. cbn [bind].
  destruct (split_on_first_append "["%char (body +:+ "]") (" " +:+ scores))
    as [piece ->].
  { by rewrite has_char_append, Hopen. }
  cbn [bind]. rewrite append_assoc.
  change ("]" +:+ piece) with (String "]"%char piece).
  rewrite split_on_first by done. cbn [bind].
  rewrite Hwords. by apply convert_entries_pretty.
Qed.

(** X19: [_ParsePrRanks] reads back the ranks that [SaveMetricsFile]
    writes: on the line made of ["  mP@k"], the text of the array of
    non-negative ranks, a space and anything after it, the result is the
    list of ranks, provided the text of the array fits on one line. *)
Theorem ParsePrRanks_reads_saved_ranks (pr_ranks : list Z) (scores : string) :
  Forall (λ k, 0 ≤ k) pr_ranks →
  fits_one_line pr_ranks →
  _ParsePrRanks ("  mP@k" +:+ str_int_array pr_ranks +:+ " " +:+ scores)
  = Ok pr_ranks.
Proof.
  intros Hpos Hfit.
  destruct (ranks_text pr_ranks Hpos Hfit) as (body & -> & Hbody & Hwords).
  apply parse_ranks_body; [| |done|done].
  - by apply (has_char_forall (λ c, Ascii.eqb c " " || is_digit c)).
  - by apply (has_char_forall (λ c, Ascii.eqb c " " || is_digit c)).
Qed.

Lemma ParsePrRanks_reads_saved_ranks_witness :
  _ParsePrRanks ("  mP@k" +:+ str_int_array [1; 5; 10] +:+ " " +:+
                 "[90.  70.5 50. ]")
  = Ok [1; 5; 10].
Proof.
  apply ParsePrRanks_reads_saved_ranks.
  - repeat constructor; lia.
  - vm_compute. lia.
Defined.

(** ** What [SaveMetricsFile] leaves at the output path *)

Section Save_keys.
Variable str_float64 : float → string.
Variable str_float_array : list float → string.
Variable mean_average_precision : gmap string float.
Variable mean_precisions mean_recalls : gmap string (list float).
Variable pr_ranks : list Z.

Lemma written_text_cons (k : string) (keys : list string) :
  written_text str_float64 str_float_array mean_average_precision
    mean_precisions mean_recalls pr_ranks (k :: keys)
  = Some (metrics_block str_float64 str_float_array k
            (default 0%float (mean_average_precision !! k))
            (default [] (mean_precisions !! k))
            (default [] (mean_recalls !! k)) pr_ranks
          +:+ default EmptyString
                (written_text str_float64 str_float_array
                   mean_average_precision mean_precisions mean_recalls
                   pr_ranks keys)).
Proof. destruct keys; reflexivity. Qed.

(** The file after the loop has gone through [keys], from [file]. *)
Lemma save_loop_outcome (keys : list string) :
  Forall (λ k, is_Some (mean_average_precision !! k)) keys →
  ∀ file : option string,
    let after (ks : list string) : option string :=
      match written_text str_float64 str_float_array mean_average_precision
              mean_precisions mean_recalls pr_ranks ks with
      | None => file
      | Some text => Some (default EmptyString file +:+ text)
      end in
    match save_loop str_float64 str_float_array keys mean_average_precision
            mean_precisions mean_recalls pr_ranks file with
    | (file', Ok _) =>
        Forall (λ k, k ∈ dom mean_precisions ∧ k ∈ dom mean_recalls) keys ∧
        file' = after keys
    | (file', Error e) =>
        e = KeyError ∧
        ∃ done k rest,
          keys = done ++ k :: rest ∧
          (k ∉ dom mean_precisions ∨ k ∉ dom mean_recalls) ∧
          Forall (λ k', k' ∈ dom mean_precisions ∧ k' ∈ dom mean_recalls)
            done ∧
          file' = after done
    end.
Proof.
  intros Hk. induction Hk as [|k keys [ap Hap] _ IH]; intros file after.
  - cbn [save_loop]. by split.
  - cbn [save_loop]. unfold getitem. rewrite Hap. cbn [bind].
    destruct (mean_precisions !! k) as [ps|] eqn:Hps.
    2:{ cbn [bind]. split; [done|]. exists [], k, keys.
        split; [done|]. split; [left; by apply not_elem_of_dom|].
        by split. }
    cbn [bind]. destruct (mean_recalls !! k) as [rs|] eqn:Hrs.
    2:{ cbn [bind]. split; [done|]. exists [], k, keys.
        split; [done|]. split; [right; by apply not_elem_of_dom|].
        by split. }
    cbn [bind].
    set (block := metrics_block str_float64 str_float_array k ap ps rs
                    pr_ranks).
    assert (∀ ks, after (k :: ks)
                  = match written_text str_float64 str_float_array
                            mean_average_precision mean_precisions
                            mean_recalls pr_ranks ks with
                    | None => Some (default EmptyString file +:+ block)
                    | Some text =>
                        Some ((default EmptyString file +:+ block) +:+ text)
                    end) as Hafter.
    { intros ks. unfold after. rewrite written_text_cons, Hap, Hps, Hrs.
      cbn [default]. fold block.
      destruct (written_text _ _ _ _ _ _ ks) as [text|]; cbn [default].
      - by rewrite append_assoc.
      - by rewrite append_nil_r. }
    assert (k ∈ dom mean_precisions ∧ k ∈ dom mean_recalls) as Hin.
    { split; apply elem_of_dom; by eexists. }
    specialize (IH (Some (default EmptyString file +:+ block))).
    cbn zeta in IH. cbn [default] in IH.
    destruct (save_loop _ _ keys _ _ _ _ _) as [file' [[]|e]].
    + destruct IH as [Hall ->]. split; [by constructor|].
      by rewrite Hafter.
    + destruct IH as (-> & done & k' & rest & -> & Hmiss & Hdone & ->).
      split; [done|]. exists (k :: done), k', rest.
      split; [done|]. split; [done|]. split; [by constructor|].
      by rewrite Hafter.
Qed.

(** X12: [SaveMetricsFile] goes through the protocols of
    [mean_average_precision] in sorted order and writes one block for
    each.  It ends normally exactly when each of them is also a key of
    [mean_precisions] and of [mean_recalls]; what it has written is then
    the text of all the blocks, and nothing, so that no file is created,
    when there is no protocol.  Otherwise it raises [KeyError] at the
    first protocol that one of the two dicts lacks, and what it has
    written is the blocks of the protocols before that one. *)
Theorem SaveMetricsFile_needs_every_protocol :
  let keys := merge_sort str_le (elements (dom mean_average_precision)) in
  let text_of :=
    written_text str_float64 str_float_array mean_average_precision
      mean_precisions mean_recalls pr_ranks in
  match SaveMetricsFile str_float64 str_float_array mean_average_precision
          mean_precisions mean_recalls pr_ranks with
  | (file, Ok _) =>
      dom mean_average_precision ⊆ dom mean_precisions ∧
      dom mean_average_precision ⊆ dom mean_recalls ∧
      file = text_of keys ∧
      (file = None ↔ mean_average_precision = ∅)
  | (file, Error e) =>
      e = KeyError ∧
      ∃ done k rest,
        keys = done ++ k :: rest ∧
        (k ∉ dom mean_precisions ∨ k ∉ dom mean_recalls) ∧
        Forall (λ k', k' ∈ dom mean_precisions ∧ k' ∈ dom mean_recalls)
          done ∧
        file = text_of done
  end.
Proof.
  intros keys text_of. unfold SaveMetricsFile. cbn zeta. fold keys.
  assert (∀ k, k ∈ keys ↔ k ∈ dom mean_average_precision) as Hkeys.
  { intros k. unfold keys. rewrite merge_sort_Permutation.
    apply elem_of_elements. }
  assert (Forall (λ k, is_Some (mean_average_precision !! k)) keys) as Hdom.
  { apply Forall_forall. intros k Hk. by apply elem_of_dom, Hkeys. }
  pose proof (save_loop_outcome keys Hdom None) as Hout. cbn zeta in Hout.
  destruct (save_loop _ _ keys _ _ _ _ _) as [file [[]|e]].
  - destruct Hout as [Hall ->]. rewrite Forall_forall in Hall.
    split; [|split; [|split]].
    + intros k Hk. apply Hkeys in Hk. by destruct (Hall k Hk).
    + intros k Hk. apply Hkeys in Hk. by destruct (Hall k Hk).
    + unfold text_of. by destruct (written_text _ _ _ _ _ _ keys).
    + assert (keys = [] ↔ mean_average_precision = ∅) as Hnil.
      { rewrite <- dom_empty_iff_L. split.
        - intros Hnil. apply set_eq. intros k. rewrite <- Hkeys, Hnil.
          split; [by intros ?%elem_of_nil|by intros ?%elem_of_empty].
        - intros Hempty. destruct keys as [|k ks] eqn:E; [done|].
          assert (k ∈ dom mean_average_precision) as Hk
            by (apply Hkeys; left).
          rewrite Hempty in Hk. by apply elem_of_empty in Hk. }
      rewrite <- Hnil. by destruct keys.
  - destruct Hout as (-> & done & k & rest & Hsplit & Hmiss & Hdone & ->).
    split; [done|]. exists done, k, rest.
    split; [done|]. split; [done|]. split; [done|].
    unfold text_of. by destruct (written_text _ _ _ _ _ _ done).
Qed.
End Save_keys.

(** ** Reading back a written metrics file *)











Section Round_trip.
Variable str_float64 : float → string.
Variable str_float_array : list float → string.
Variable float_of_str : string → result float.



Variable mean_average_precision : gmap string float.
Variable mean_precisions mean_recalls : gmap string (list float).
Variable pr_ranks : list Z.
Hypothesis ranks_nonneg : Forall (λ k, 0 ≤ k) pr_ranks.
Hypothesis ranks_fit : fits_one_line pr_ranks.




End Round_trip.

